(** * Shallow embedding of the l10n Django app (models, QA service, admin)

    Text is modelled as Stdlib [string] over ASCII characters.  Python's
    [str.strip()] and the regular-expression class [\s] both use
    [str.isspace], which on ASCII is TAB..CR (9-13), the separators
    0x1C-0x1F and SPACE. *)

From Stdlib Require Import String Ascii List Bool Arith ZArith Lia Permutation.
Import ListNotations.
Open Scope string_scope.

(* ------------------------------------------------------------------ *)
(** ** Python string helpers *)

Definition is_space (c : ascii) : bool :=
  let n := nat_of_ascii c in
  (Nat.leb 9 n && Nat.leb n 13) || (Nat.leb 28 n && Nat.leb n 32).

(** [str.lstrip()] *)
Fixpoint lstrip (s : string) : string :=
  match s with
  | EmptyString => EmptyString
  | String c r => if is_space c then lstrip r else s
  end.

(** [str.rstrip()] *)
Fixpoint rstrip (s : string) : string :=
  match s with
  | EmptyString => EmptyString
  | String c r =>
      let r' := rstrip r in
      if is_space c && String.eqb r' EmptyString then EmptyString else String c r'
  end.

(** [str.strip()] *)
Definition strip (s : string) : string := rstrip (lstrip s).

(** [x or ""] for an optional (nullable) text column. *)
Definition or_empty (s : option string) : string :=
  match s with Some x => x | None => EmptyString end.

(** Python truthiness of [x.strip()]. *)
Definition is_blank (s : string) : bool := String.eqb (strip s) EmptyString.

(** [text.count(ch)] for a one-character needle. *)
Fixpoint count_char (ch : ascii) (s : string) : nat :=
  match s with
  | EmptyString => 0
  | String c r => (if Ascii.eqb c ch then 1 else 0) + count_char ch r
  end.

(* ------------------------------------------------------------------ *)
(** ** [hashlib.sha256(...).hexdigest()] *)

Module Sha256.

Definition w32 (x : Z) : Z := Z.land x 4294967295.
Definition rotr (x n : Z) : Z := Z.lor (Z.shiftr x n) (w32 (Z.shiftl x (32 - n))).
Definition ch (x y z : Z) : Z := Z.lxor (Z.land x y) (Z.land (Z.lxor x 4294967295) z).
Definition maj (x y z : Z) : Z :=
  Z.lxor (Z.lxor (Z.land x y) (Z.land x z)) (Z.land y z).
Definition bsig0 (x : Z) : Z := Z.lxor (Z.lxor (rotr x 2) (rotr x 13)) (rotr x 22).
Definition bsig1 (x : Z) : Z := Z.lxor (Z.lxor (rotr x 6) (rotr x 11)) (rotr x 25).
Definition ssig0 (x : Z) : Z := Z.lxor (Z.lxor (rotr x 7) (rotr x 18)) (Z.shiftr x 3).
Definition ssig1 (x : Z) : Z := Z.lxor (Z.lxor (rotr x 17) (rotr x 19)) (Z.shiftr x 10).

(** The round constants and initial state (FIPS 180-4, 4.2.2 and 5.3.3):
    the first 32 fraction bits of the cube roots of the first 64 primes
    and of the square roots of the first 8 primes. *)
Definition is_prime (n : Z) : bool :=
  forallb (fun d => negb (Z.eqb (Z.modulo n (Z.of_nat d)) 0)) (seq 2 (Z.to_nat n - 2)).

Definition first_primes (k : nat) : list Z :=
  firstn k (filter is_prime (map Z.of_nat (seq 2 310))).

(** Largest [x] in [[lo, hi)] with [x^3 <= n], by bisection. *)
Fixpoint icbrt_go (fuel : nat) (lo hi n : Z) : Z :=
  match fuel with
  | O => lo
  | S f =>
      if Z.leb (hi - lo) 1 then lo
      else
        let mid := Z.div (lo + hi) 2 in
        if Z.leb (mid * mid * mid) n then icbrt_go f mid hi n else icbrt_go f lo mid n
  end.

Definition K : list Z :=
  Eval vm_compute in map (fun p => w32 (icbrt_go 64 0 (2 ^ 36) (p * 2 ^ 96))) (first_primes 64).

Definition H0 : list Z :=
  Eval vm_compute in map (fun p => w32 (Z.sqrt (p * 2 ^ 64))) (first_primes 8).

(** UTF-8 encoding of ASCII text: one byte per character. *)
Fixpoint bytes_of (s : string) : list Z :=
  match s with
  | EmptyString => []
  | String c r => Z.of_nat (nat_of_ascii c) :: bytes_of r
  end.

Definition be_bytes (n : nat) (x : Z) : list Z :=
  map (fun i => Z.land (Z.shiftr x (Z.of_nat (8 * (n - 1 - i)))) 255) (seq 0 n).

Definition pad (msg : list Z) : list Z :=
  let n := Z.of_nat (length msg) in
  app msg (app [128%Z] (app (repeat 0%Z (Z.to_nat ((55 - n) mod 64)))
                         (be_bytes 8 (8 * n)))).

Fixpoint words (fuel : nat) (b : list Z) : list Z :=
  match fuel with
  | O => []
  | S f =>
      match b with
      | b0 :: b1 :: b2 :: b3 :: r =>
          (Z.lor (Z.shiftl b0 24) (Z.lor (Z.shiftl b1 16) (Z.lor (Z.shiftl b2 8) b3)))
            :: words f r
      | _ => []
      end
  end.

Fixpoint extend (n : nat) (w : list Z) : list Z :=
  match n with
  | O => w
  | S n' =>
      let t := length w in
      extend n' (app w [w32 (ssig1 (nth (t - 2) w 0) + nth (t - 7) w 0
                             + ssig0 (nth (t - 15) w 0) + nth (t - 16) w 0)%Z])
  end.

Definition round (st : list Z) (kw : Z * Z) : list Z :=
  match st with
  | [a; b; c; d; e; f; g; h] =>
      let t1 := (h + bsig1 e + ch e f g + fst kw + snd kw)%Z in
      let t2 := (bsig0 a + maj a b c)%Z in
      [w32 (t1 + t2); a; b; c; w32 (d + t1); e; f; g]
  | _ => st
  end.

Definition compress (st : list Z) (block : list Z) : list Z :=
  let w := extend 48 (words 16 block) in
  let st' := fold_left round (combine K w) st in
  map (fun xy => w32 (fst xy + snd xy)) (combine st st').

Fixpoint blocks (fuel : nat) (st : list Z) (b : list Z) : list Z :=
  match fuel with
  | O => st
  | S f =>
      match b with
      | [] => st
      | _ => blocks f (compress st (firstn 64 b)) (skipn 64 b)
      end
  end.

Definition hex_digit (n : Z) : ascii :=
  match String.get (Z.to_nat n) "0123456789abcdef" with
  | Some c => c
  | None => "0"%char
  end.

Definition hex_word (x : Z) : string :=
  fold_right (fun i acc => String (hex_digit (Z.land (Z.shiftr x (Z.of_nat (4 * (7 - i)))) 15)) acc)
    EmptyString (seq 0 8).

Definition hexdigest (s : string) : string :=
  let b := pad (bytes_of s) in
  fold_right (fun x acc => hex_word x ++ acc) EmptyString (blocks (length b) H0 b).

End Sha256.

(** On ASCII text, Unicode NFC normalisation is the identity: no ASCII
    character has a canonical decomposition and no two compose. *)
Definition nfc (s : string) : string := s.

(** [compute_source_hash] (models.py): NFC, strip, SHA-256 hex digest. *)
Definition compute_source_hash (text : option string) : string :=
  let normalized := strip (nfc (or_empty text)) in
  Sha256.hexdigest normalized.

(** The same function with the Unicode normalisation as a parameter, for
    statements that hold for any normalisation with the relevant property. *)
Definition compute_source_hash_with (normalize : string -> string) (text : option string) : string :=
  let normalized := strip (normalize (or_empty text)) in
  Sha256.hexdigest normalized.

Example sha_empty : Sha256.hexdigest "" = "e3b0c44298fc1c149afbf4c8996fb92427ae41e4649b934ca495991b7852b855".
Proof. vm_compute. reflexivity. Qed.
Example sha_abc : Sha256.hexdigest "abc" = "ba7816bf8f01cfea414140de5dae2223b00361a396177a9cb410ff61f20015ad".
Proof. vm_compute. reflexivity. Qed.
Example sha_long : Sha256.hexdigest "aaaaaaaaaaaaaaaaaaaaaaaaaaaaaaaaaaaaaaaaaaaaaaaaaaaaaaaaaaaa" = "11ee391211c6256460b6ed375957fadd8061cafbb31daf967db875aebd5aaad4".
Proof. vm_compute. reflexivity. Qed.
Example hash_hello : compute_source_hash (Some "  Hello ") = "185f8db32271fe25f561a6fc938b2e264306ec304eda518007d1764826381969".
Proof. vm_compute. reflexivity. Qed.

(* ------------------------------------------------------------------ *)
(** ** Models (models.py) *)

Inductive TranslationStatus :=
  APPROVED | STALE | IN_REVIEW | MACHINE_DRAFT | REJECTED | FLAGGED.

Inductive TranslationProvenance := IMPORTED | HUMAN | LLM | MT.

Definition status_eqb (a b : TranslationStatus) : bool :=
  match a, b with
  | APPROVED, APPROVED | STALE, STALE | IN_REVIEW, IN_REVIEW
  | MACHINE_DRAFT, MACHINE_DRAFT | REJECTED, REJECTED | FLAGGED, FLAGGED => true
  | _, _ => false
  end.

Definition provenance_eqb (a b : TranslationProvenance) : bool :=
  match a, b with
  | IMPORTED, IMPORTED | HUMAN, HUMAN | LLM, LLM | MT, MT => true
  | _, _ => false
  end.

(** A QA flag: the [code] of the Python dict and its [details]; the
    [message] is a constant per code and is left out. *)
Inductive qa_flag :=
| missing_placeholder (missing : list string)
| extra_placeholder (extra : list string)
| unbalanced_braces (open close : nat)
| html_tag_mismatch (mismatches : list (string * (nat * nat)))
| empty_translation.

Definition flag_code (f : qa_flag) : string :=
  match f with
  | missing_placeholder _ => "missing_placeholder"
  | extra_placeholder _ => "extra_placeholder"
  | unbalanced_braces _ _ => "unbalanced_braces"
  | html_tag_mismatch _ => "html_tag_mismatch"
  | empty_translation => "empty_translation"
  end.

(** Primary keys are AutoField values: positive integers; [None] for an
    unsaved instance. *)
Record StringUnit := mkStringUnit {
  su_pk : option positive;
  su_location : string;
  su_message_id : string;
  su_source_text : string;
  su_source_updated_on : string;
  su_source_hash : string
}.

Record Translation := mkTranslation {
  t_pk : option positive;
  t_string_unit : positive;
  t_locale : positive;
  t_approved_text : option string;
  t_reviewer_text : option string;
  t_machine_draft : option string;
  t_qa_flags : list qa_flag;
  t_status : TranslationStatus;
  t_provenance : TranslationProvenance;
  t_source_hash_at_last_update : string;
  t_reviewer : option nat;
  t_updated_at : Z
}.

Definition with_status (t : Translation) (s : TranslationStatus) : Translation :=
  mkTranslation (t_pk t) (t_string_unit t) (t_locale t) (t_approved_text t)
    (t_reviewer_text t) (t_machine_draft t) (t_qa_flags t) s
    (t_provenance t) (t_source_hash_at_last_update t) (t_reviewer t) (t_updated_at t).

(** The model fields of [Translation] that [save(update_fields=...)] names. *)
Inductive TField :=
| F_string_unit | F_locale | F_approved_text | F_reviewer_text | F_machine_draft
| F_qa_flags | F_status | F_provenance | F_source_hash_at_last_update
| F_reviewer | F_updated_at.

Definition tfield_eq_dec (a b : TField) : {a = b} + {a <> b}.
Proof. decide equality. Defined.

(** The database: the StringUnit, Translation and LocaleAssignment tables
    (a LocaleAssignment row is (user id, locale id)). *)
Record DB := mkDB {
  db_units : list StringUnit;
  db_translations : list Translation;
  db_assignments : list (nat * positive)
}.

Definition pk_eqb (a : option positive) (p : positive) : bool :=
  match a with Some q => Pos.eqb q p | None => false end.

Definition find_unit (db : DB) (p : positive) : option StringUnit :=
  find (fun u => pk_eqb (su_pk u) p) (db_units db).

Definition find_translation (db : DB) (p : positive) : option Translation :=
  find (fun t => pk_eqb (t_pk t) p) (db_translations db).

(** [UPDATE ... WHERE pk = p] on the Translation table. *)
Definition replace_translation (p : positive) (row : Translation) (l : list Translation)
  : list Translation :=
  map (fun t => if pk_eqb (t_pk t) p then row else t) l.

(** [StringUnit.objects.filter(pk=self.pk).values_list("source_hash", flat=True).first()] *)
Definition stored_source_hash (db : DB) (pk : option positive) : option string :=
  match pk with
  | Some p => option_map su_source_hash (find_unit db p)
  | None => None
  end.

(** Python truthiness of an optional string. *)
Definition truthy (s : option string) : bool :=
  match s with Some x => negb (String.eqb x EmptyString) | None => false end.

(** Writing the StringUnit row ([Model.save]): update the row with the
    same primary key, or insert it. *)
Definition write_unit (u : StringUnit) (l : list StringUnit) : list StringUnit :=
  match su_pk u with
  | Some p =>
      if existsb (fun v => pk_eqb (su_pk v) p) l
      then map (fun v => if pk_eqb (su_pk v) p then u else v) l
      else app l [u]
  | None => app l [u]
  end.

(** [Translation.objects.filter(string_unit=self, approved_text__isnull=False)
     .exclude(approved_text="").update(status=STALE)]; [update()] does not
    run [save()] and leaves [updated_at] alone. *)
Definition mark_stale (p : positive) (l : list Translation) : list Translation :=
  map (fun t =>
         if Pos.eqb (t_string_unit t) p && truthy (t_approved_text t)
         then with_status t STALE
         else t) l.

(** [StringUnit.save]. The object saved keeps its primary key; a fresh
    instance ([pk = None]) is inserted as given. *)
Definition stringunit_save (self : StringUnit) (db : DB) : DB :=
  let new_hash := compute_source_hash (Some (su_source_text self)) in
  let old_hash := stored_source_hash db (su_pk self) in
  let self' := mkStringUnit (su_pk self) (su_location self) (su_message_id self)
                 (su_source_text self) (su_source_updated_on self) new_hash in
  let units' := write_unit self' (db_units db) in
  let trs := db_translations db in
  let trs' :=
    match su_pk self with
    | Some p =>
        if truthy old_hash && negb (String.eqb (or_empty old_hash) new_hash)
        then mark_stale p trs else trs
    | None => trs
    end in
  mkDB units' trs' (db_assignments db).

(* ------------------------------------------------------------------ *)
(** ** QA checks (services/qa.py) *)

Module QA.

Definition chr_is (c : ascii) (d : ascii) : bool := Ascii.eqb c d.

Definition is_digit (c : ascii) : bool :=
  let n := nat_of_ascii c in Nat.leb 48 n && Nat.leb n 57.
Definition is_alpha (c : ascii) : bool :=
  let n := nat_of_ascii c in (Nat.leb 65 n && Nat.leb n 90) || (Nat.leb 97 n && Nat.leb n 122).
(** [[A-Za-z_]] *)
Definition is_ident_start (c : ascii) : bool := is_alpha c || chr_is c "_".
(** [[A-Za-z0-9_]], which is also [\w] on ASCII *)
Definition is_ident (c : ascii) : bool := is_ident_start c || is_digit c.
(** [[sdfox]] *)
Definition is_conv (c : ascii) : bool :=
  chr_is c "s" || chr_is c "d" || chr_is c "f" || chr_is c "o" || chr_is c "x".
Definition is_brace (c : ascii) : bool := chr_is c "{" || chr_is c "}".

(** Greedy [p*]: the longest prefix of characters satisfying [p]. *)
Fixpoint span (p : ascii -> bool) (s : string) : string * string :=
  match s with
  | EmptyString => (EmptyString, EmptyString)
  | String c r =>
      if p c then let (a, b) := span p r in (String c a, b) else (EmptyString, s)
  end.

(** The lookahead [(?!%)]. *)
Definition not_pct_ahead (s : string) : bool :=
  match s with
  | String c _ => negb (chr_is c "%")
  | EmptyString => true
  end.

(** A matcher anchored at the start of the text: length of the match and
    what [findall]/[finditer] report for it. *)
Definition matcher (A : Type) := string -> option (nat * A).

Definition tok (t : string) : option (nat * string) := Some (String.length t, t).

(** [%(?!%)\([A-Za-z_][A-Za-z0-9_]*\)[sdfox]] *)
Definition m_named : matcher string := fun s =>
  match s with
  | String c0 r0 =>
      if chr_is c0 "%" && not_pct_ahead r0 then
        match r0 with
        | String c1 r1 =>
            if chr_is c1 "(" then
              match r1 with
              | String c2 r2 =>
                  if is_ident_start c2 then
                    let (idt, r3) := span is_ident r2 in
                    match r3 with
                    | String c3 (String c4 _) =>
                        if chr_is c3 ")" && is_conv c4
                        then tok (String c0 (String c1 (String c2 idt ++ String c3 (String c4 EmptyString))))
                        else None
                    | _ => None
                    end
                  else None
              | EmptyString => None
              end
            else None
        | EmptyString => None
        end
      else None
  | EmptyString => None
  end.

(** [%(?!%)\d+\$[sdfox]] *)
Definition m_positional : matcher string := fun s =>
  match s with
  | String c0 r0 =>
      if chr_is c0 "%" && not_pct_ahead r0 then
        let (ds, r1) := span is_digit r0 in
        match ds, r1 with
        | String _ _, String c1 (String c2 _) =>
            if chr_is c1 "$" && is_conv c2
            then tok (String c0 (ds ++ String c1 (String c2 EmptyString)))
            else None
        | _, _ => None
        end
      else None
  | EmptyString => None
  end.

(** [%(?!%)[sdfox]] *)
Definition m_simple : matcher string := fun s =>
  match s with
  | String c0 (String c1 _) =>
      if chr_is c0 "%" && not_pct_ahead (String c1 EmptyString) && is_conv c1
      then tok (String c0 (String c1 EmptyString))
      else None
  | _ => None
  end.

(** [\{[^{}]+\}] *)
Definition m_curly : matcher string := fun s =>
  match s with
  | String c0 r0 =>
      if chr_is c0 "{" then
        let (body, r1) := span (fun c => negb (is_brace c)) r0 in
        match body, r1 with
        | String _ _, String c1 _ =>
            if chr_is c1 "}" then tok (String c0 (body ++ String c1 EmptyString)) else None
        | _, _ => None
        end
      else None
  | EmptyString => None
  end.

(** [re.findall] / [re.finditer] for a pattern whose matches are never
    empty: after a match of length [n] the scan resumes [n] characters
    later; [skip] counts the characters still covered by the last match. *)
Fixpoint scan {A} (m : matcher A) (skip : nat) (s : string) : list A :=
  match s with
  | EmptyString => []
  | String _ r =>
      match skip with
      | S k => scan m k r
      | O =>
          match m s with
          | Some (n, a) => a :: scan m (pred n) r
          | None => scan m O r
          end
      end
  end.

Definition findall {A} (m : matcher A) (s : string) : list A := scan m O s.

(** A Python set of strings, kept as a duplicate-free list. *)
Definition str_set (l : list string) : list string := nodup string_dec l.

(** [extract_placeholders] *)
Definition extract_placeholders (text : option string) : list string :=
  match text with
  | None | Some EmptyString => []
  | Some t =>
      str_set (app (findall m_named t)
               (app (findall m_positional t)
               (app (findall m_simple t) (findall m_curly t))))
  end.

(** ASCII case-insensitive prefix test ([re.IGNORECASE] on a literal);
    returns the text after the prefix. *)
Definition lower (c : ascii) : ascii :=
  let n := nat_of_ascii c in
  if Nat.leb 65 n && Nat.leb n 90 then ascii_of_nat (n + 32) else c.

Fixpoint strip_prefix_ci (pre s : string) : option string :=
  match pre, s with
  | EmptyString, _ => Some s
  | String p pr, String c r =>
      if Ascii.eqb (lower c) (lower p) then strip_prefix_ci pr r else None
  | String _ _, EmptyString => None
  end.

(** [\b] right after a word character. *)
Definition boundary_ahead (s : string) : bool :=
  match s with
  | EmptyString => true
  | String c _ => negb (is_ident c)
  end.

(** [[^>]*>]: the text after the first [>]. *)
Fixpoint after_gt (s : string) : option string :=
  match s with
  | EmptyString => None
  | String c r => if chr_is c ">" then Some r else after_gt r
  end.

Definition tag_names : list string := ["b"; "i"; "strong"; "em"; "span"; "a"].

(** [(b|i|strong|em|span|a)\b[^>]*>] with backtracking over the
    alternatives in order; yields the tag (lower-cased) and the rest. *)
Fixpoint try_tags (tags : list string) (s : string) : option (string * string) :=
  match tags with
  | [] => None
  | tg :: more =>
      match strip_prefix_ci tg s with
      | Some rest =>
          if boundary_ahead rest then
            match after_gt rest with
            | Some rem => Some (tg, rem)
            | None => try_tags more s
            end
          else try_tags more s
      | None => try_tags more s
      end
  end.

(** [<\s*(/)?\s*(b|i|strong|em|span|a)\b[^>]*>] (IGNORECASE); reports
    whether group 1 matched and the lower-cased group 2. *)
Definition m_html : matcher (bool * string) := fun s =>
  match s with
  | String c0 r0 =>
      if chr_is c0 "<" then
        let r1 := lstrip r0 in
        let (is_close, r2) :=
          match r1 with
          | String c1 r1' => if chr_is c1 "/" then (true, r1') else (false, r1)
          | EmptyString => (false, r1)
          end in
        let r3 := lstrip r2 in
        match try_tags tag_names r3 with
        | Some (tg, rem) => Some (String.length s - String.length rem, (is_close, tg))
        | None => None
        end
      else None
  | EmptyString => None
  end.

(** A [Counter] / dict from string keys to counts, in insertion order. *)
Fixpoint counter_add (k : string) (l : list (string * nat)) : list (string * nat) :=
  match l with
  | [] => [(k, 1)]
  | (k', n) :: r => if String.eqb k k' then (k', S n) :: r else (k', n) :: counter_add k r
  end.

Definition dict_get (l : list (string * nat)) (k : string) : nat :=
  match find (fun kv => String.eqb (fst kv) k) l with
  | Some (_, n) => n
  | None => 0
  end.

(** [extract_html_tags] *)
Definition extract_html_tags (text : option string) : list (string * nat) :=
  match text with
  | None | Some EmptyString => []
  | Some t =>
      fold_left (fun (acc : list (string * nat)) (m : bool * string) =>
                   counter_add (snd m ++ (if fst m then "_close" else "_open")) acc)
        (findall m_html t) []
  end.

(** [sorted] on strings (code-point order). *)
Fixpoint insert_sorted (x : string) (l : list string) : list string :=
  match l with
  | [] => [x]
  | y :: r => if String.leb x y then x :: l else y :: insert_sorted x r
  end.

Definition sorted (l : list string) : list string := fold_right insert_sorted [] l.

(** Set difference [a - b]. *)
Definition set_minus (a b : list string) : list string :=
  filter (fun x => negb (existsb (String.eqb x) b)) a.

(** [compute_qa_flags] *)
Definition compute_qa_flags (source target : option string) : list qa_flag :=
  let src := or_empty source in
  let tgt := or_empty target in
  let src_placeholders := extract_placeholders (Some src) in
  let tgt_placeholders := extract_placeholders (Some tgt) in
  let missing := sorted (set_minus src_placeholders tgt_placeholders) in
  let extra := sorted (set_minus tgt_placeholders src_placeholders) in
  let n_open := count_char "{" tgt in
  let n_close := count_char "}" tgt in
  let src_tags := extract_html_tags (Some src) in
  let tgt_tags := extract_html_tags (Some tgt) in
  let all_keys := sorted (str_set (app (map fst src_tags) (map fst tgt_tags))) in
  let mismatches :=
    flat_map (fun key =>
                let s := dict_get src_tags key in
                let t := dict_get tgt_tags key in
                if Nat.eqb s t then [] else [(key, (s, t))]) all_keys in
  app (match missing with [] => [] | _ => [missing_placeholder missing] end)
  (app (match extra with [] => [] | _ => [extra_placeholder extra] end)
  (app (if Nat.eqb n_open n_close then [] else [unbalanced_braces n_open n_close])
  (app (match mismatches with [] => [] | _ => [html_tag_mismatch mismatches] end)
       (if negb (is_blank src) && is_blank tgt then [empty_translation] else [])))).

End QA.

Example qa_ex1 : QA.extract_placeholders (Some "Hi %(name)s, {0} and %1$d or %s %%") =
  ["%(name)s"; "%1$d"; "%s"; "{0}"].
Proof. vm_compute. reflexivity. Qed.
Example qa_ex2 : QA.compute_qa_flags (Some "Hello {0} <b>x</b>") (Some " <B >y") =
  [missing_placeholder ["{0}"]; html_tag_mismatch [("b_close", (1, 0))]].
Proof. vm_compute. reflexivity. Qed.

(* ------------------------------------------------------------------ *)
(** ** [Translation.save] and Django's [Model.save] *)

(** [self.string_unit.source_text or ""]; the foreign key is non-null and
    cascades on delete, so the referenced row is in the table. *)
Definition source_of (db : DB) (t : Translation) : string :=
  match find_unit db (t_string_unit t) with
  | Some u => su_source_text u
  | None => EmptyString
  end.

Definition with_qa_flags (t : Translation) (f : list qa_flag) : Translation :=
  mkTranslation (t_pk t) (t_string_unit t) (t_locale t) (t_approved_text t)
    (t_reviewer_text t) (t_machine_draft t) f (t_status t)
    (t_provenance t) (t_source_hash_at_last_update t) (t_reviewer t) (t_updated_at t).

Definition with_updated_at (t : Translation) (now : Z) : Translation :=
  mkTranslation (t_pk t) (t_string_unit t) (t_locale t) (t_approved_text t)
    (t_reviewer_text t) (t_machine_draft t) (t_qa_flags t) (t_status t)
    (t_provenance t) (t_source_hash_at_last_update t) (t_reviewer t) now.

Definition with_pk (t : Translation) (p : positive) : Translation :=
  mkTranslation (Some p) (t_string_unit t) (t_locale t) (t_approved_text t)
    (t_reviewer_text t) (t_machine_draft t) (t_qa_flags t) (t_status t)
    (t_provenance t) (t_source_hash_at_last_update t) (t_reviewer t) (t_updated_at t).

(** [Translation.refresh_qa_flags] *)
Definition refresh_qa_flags (source : string) (self : Translation) (candidate_text : string)
  : Translation :=
  let flags := QA.compute_qa_flags (Some source) (Some candidate_text) in
  let flags :=
    if status_eqb (t_status self) APPROVED then flags
    else filter (fun f => negb (String.eqb (flag_code f) "empty_translation")) flags in
  with_qa_flags self flags.

(** The candidate text computed at the top of [Translation.save]. *)
Definition save_candidate (self : Translation) : string :=
  let approved := strip (or_empty (t_approved_text self)) in
  let reviewer := strip (or_empty (t_reviewer_text self)) in
  let machine := strip (or_empty (t_machine_draft self)) in
  if negb (String.eqb approved EmptyString) then approved
  else if negb (String.eqb reviewer EmptyString) then reviewer
  else if negb (String.eqb machine EmptyString) then machine
  else EmptyString.

Definition in_fields (fs : list TField) (f : TField) : bool :=
  if in_dec tfield_eq_dec f fs then true else false.

(** An UPDATE restricted to [fs]: the named columns come from [obj], the
    others keep the stored row's values. *)
Definition merge_fields (fs : list TField) (obj row : Translation) : Translation :=
  let pick {X} (f : TField) (a b : X) := if in_fields fs f then a else b in
  mkTranslation (t_pk row)
    (pick F_string_unit (t_string_unit obj) (t_string_unit row))
    (pick F_locale (t_locale obj) (t_locale row))
    (pick F_approved_text (t_approved_text obj) (t_approved_text row))
    (pick F_reviewer_text (t_reviewer_text obj) (t_reviewer_text row))
    (pick F_machine_draft (t_machine_draft obj) (t_machine_draft row))
    (pick F_qa_flags (t_qa_flags obj) (t_qa_flags row))
    (pick F_status (t_status obj) (t_status row))
    (pick F_provenance (t_provenance obj) (t_provenance row))
    (pick F_source_hash_at_last_update (t_source_hash_at_last_update obj)
       (t_source_hash_at_last_update row))
    (pick F_reviewer (t_reviewer obj) (t_reviewer row))
    (pick F_updated_at (t_updated_at obj) (t_updated_at row)).

Definition fresh_pk (l : list Translation) : positive :=
  Pos.succ (fold_left (fun m t => match t_pk t with Some p => Pos.max m p | None => m end) l 1%positive).

(** Django's [Model.save(update_fields=...)] for a Translation at time
    [now]: [auto_now] sets [updated_at] when that column is saved; an empty
    [update_fields] saves nothing; a restricted save of a row that is not in
    the table raises ([None]); an unrestricted save updates the row with the
    same primary key or inserts one. Returns the instance and the database. *)
Definition django_save (now : Z) (update_fields : option (list TField)) (obj : Translation)
  (db : DB) : option (Translation * DB) :=
  let trs := db_translations db in
  match update_fields with
  | Some [] => Some (obj, db)
  | Some fs =>
      let obj' := if in_fields fs F_updated_at then with_updated_at obj now else obj in
      match t_pk obj' with
      | Some p =>
          match find_translation db p with
          | Some row =>
              Some (obj', mkDB (db_units db)
                            (replace_translation p (merge_fields fs obj' row) trs)
                            (db_assignments db))
          | None => None
          end
      | None => None
      end
  | None =>
      let obj' := with_updated_at obj now in
      match t_pk obj' with
      | Some p =>
          match find_translation db p with
          | Some _ => Some (obj', mkDB (db_units db) (replace_translation p obj' trs)
                                   (db_assignments db))
          | None => Some (obj', mkDB (db_units db) (app trs [obj']) (db_assignments db))
          end
      | None =>
          let obj'' := with_pk obj' (fresh_pk trs) in
          Some (obj'', mkDB (db_units db) (app trs [obj'']) (db_assignments db))
      end
  end.

(** [list(set(update_fields) | {"qa_flags"})] *)
Definition add_qa_flags (fs : list TField) : list TField :=
  nodup tfield_eq_dec (app fs [F_qa_flags]).

(** [Translation.save] *)
Definition translation_save (now : Z) (update_fields : option (list TField))
  (self : Translation) (db : DB) : option (Translation * DB) :=
  let candidate := save_candidate self in
  let self' := refresh_qa_flags (source_of db self) self candidate in
  let update_fields' := option_map add_qa_flags update_fields in
  django_save now update_fields' self' db.

(* ------------------------------------------------------------------ *)
(** ** Admin (admin.py) *)

Record User := mkUser {
  user_id : nat;
  is_superuser : bool;
  groups : list string
}.

Definition is_in_group (u : User) (group_name : string) : bool :=
  existsb (String.eqb group_name) (groups u).

Definition is_superadmin (u : User) : bool :=
  is_superuser u || is_in_group u "L10N_SUPERADMIN".

Definition is_reviewer (u : User) : bool := is_in_group u "L10N_REVIEWER".

Definition assigned_locale_ids (db : DB) (u : User) : list positive :=
  map snd (filter (fun a => Nat.eqb (fst a) (user_id u)) (db_assignments db)).

(** Messages sent through [django.contrib.messages]. *)
Inductive Message :=
| msg_error (text : string)
| msg_warning (text : string)
| msg_approved (updated : nat).  (** "Approved {updated} translation(s)." *)

(** [TranslationAdmin.get_queryset] *)
Definition get_queryset (db : DB) (u : User) : list Translation :=
  let qs := db_translations db in
  if is_superadmin u then qs
  else if is_reviewer u then
    let locale_ids := assigned_locale_ids db u in
    filter (fun t => existsb (Pos.eqb (t_locale t)) locale_ids) qs
  else [].

(** The body of the [approve_selected] loop for one translation, given
    [translation.string_unit.source_hash]: the updated instance and
    [changed]. *)
Definition approve_one (t : Translation) (new_hash : string) : Translation * bool :=
  let copy := is_blank (or_empty (t_approved_text t))
              && negb (is_blank (or_empty (t_reviewer_text t))) in
  let approved := if copy then t_reviewer_text t else t_approved_text t in
  let c_status := negb (status_eqb (t_status t) APPROVED) in
  let c_prov := negb (provenance_eqb (t_provenance t) IMPORTED) in
  let prov := if c_prov then HUMAN else t_provenance t in
  let c_hash := negb (String.eqb (t_source_hash_at_last_update t) new_hash) in
  let hash := if c_hash then new_hash else t_source_hash_at_last_update t in
  (mkTranslation (t_pk t) (t_string_unit t) (t_locale t) approved
     (t_reviewer_text t) (t_machine_draft t) (t_qa_flags t) APPROVED
     prov hash (t_reviewer t) (t_updated_at t),
   copy || c_status || c_prov || c_hash).

Definition approve_update_fields : list TField :=
  [F_approved_text; F_status; F_provenance; F_source_hash_at_last_update; F_updated_at].

Definition unit_hash (db : DB) (t : Translation) : string :=
  match find_unit db (t_string_unit t) with
  | Some u => su_source_hash u
  | None => EmptyString
  end.

(** The [for translation in queryset.select_related("string_unit")] loop:
    [rows] is the evaluated queryset, [updated] the counter. *)
Fixpoint approve_loop (now : Z) (rows : list Translation) (db : DB) (updated : nat)
  : option (DB * nat) :=
  match rows with
  | [] => Some (db, updated)
  | t :: rest =>
      let (t', changed) := approve_one t (unit_hash db t) in
      if changed then
        match translation_save now (Some approve_update_fields) t' db with
        | Some (_, db') => approve_loop now rest db' (S updated)
        | None => None
        end
      else approve_loop now rest db updated
  end.

(** [approve_selected]: [queryset] is the evaluated admin selection. *)
Definition approve_selected (now : Z) (u : User) (queryset : list Translation) (db : DB)
  : option (DB * list Message) :=
  if negb (is_superadmin u) then
    Some (db, [msg_error "You do not have permission to approve translations."])
  else
    match approve_loop now queryset db 0 with
    | Some (db', updated) => Some (db', [msg_approved updated])
    | None => None
    end.

(** The admin selection: the stored rows whose primary key is selected. *)
Definition selection (db : DB) (sel : list positive) : list Translation :=
  filter (fun t => existsb (pk_eqb (t_pk t)) sel) (db_translations db).

(** [TranslationAdmin.save_model] followed by [obj.save()]. [None] is a
    raised exception ([Translation.DoesNotExist] or a failed save). *)
Definition save_model (now : Z) (u : User) (obj : Translation) (change : bool) (db : DB)
  : option (DB * list Message) :=
  if is_reviewer u && negb (is_superadmin u) then
    let obj1 := mkTranslation (t_pk obj) (t_string_unit obj) (t_locale obj)
                  (t_approved_text obj) (t_reviewer_text obj) (t_machine_draft obj)
                  (t_qa_flags obj) (t_status obj) (t_provenance obj)
                  (t_source_hash_at_last_update obj) (Some (user_id u)) (t_updated_at obj) in
    let obj2 :=
      match change, t_pk obj1 with
      | true, Some p =>
          match find_translation db p with
          | Some existing =>
              Some (mkTranslation (t_pk obj1) (t_string_unit existing) (t_locale existing)
                      (t_approved_text existing) (t_reviewer_text obj1)
                      (t_machine_draft existing) (t_qa_flags obj1) (t_status obj1)
                      (t_provenance existing) (t_source_hash_at_last_update existing)
                      (t_reviewer obj1) (t_updated_at obj1))
          | None => None
          end
      | _, _ => Some obj1
      end in
    match obj2 with
    | Some o2 =>
        let (obj3, msgs) :=
          if status_eqb (t_status o2) APPROVED
          then (with_status o2 IN_REVIEW,
                [msg_warning "Reviewers cannot set status=APPROVED. Set to IN_REVIEW instead."])
          else (o2, []) in
        match translation_save now None obj3 db with
        | Some (_, db') => Some (db', msgs)
        | None => None
        end
    | None => None
    end
  else
    match translation_save now None obj db with
    | Some (_, db') => Some (db', [])
    | None => None
    end.

(* ================================================================== *)
(** * Properties *)

(** ** Table lemmas *)

Lemma pk_eqb_spec (a : option positive) (p : positive) : pk_eqb a p = true <-> a = Some p.
Proof.
  destruct a as [q|]; simpl; [rewrite Pos.eqb_eq; split; congruence | split; discriminate].
Qed.

Lemma find_replace_same (p : positive) (row : Translation) (l : list Translation) :
  t_pk row = Some p ->
  existsb (fun t => pk_eqb (t_pk t) p) l = true ->
  find (fun t => pk_eqb (t_pk t) p) (replace_translation p row l) = Some row.
Proof.
  intros Hrow. induction l as [|t l IH]; simpl; [discriminate|].
  destruct (pk_eqb (t_pk t) p) eqn:E; simpl; intros Hex.
  - rewrite Hrow. simpl. rewrite Pos.eqb_refl. reflexivity.
  - rewrite E. exact (IH Hex).
Qed.

Lemma find_replace_other (p q : positive) (row : Translation) (l : list Translation) :
  t_pk row = Some p -> p <> q ->
  find (fun t => pk_eqb (t_pk t) q) (replace_translation p row l)
  = find (fun t => pk_eqb (t_pk t) q) l.
Proof.
  intros Hrow Hpq. induction l as [|t l IH]; simpl; [reflexivity|].
  destruct (pk_eqb (t_pk t) p) eqn:E; simpl.
  - apply pk_eqb_spec in E. rewrite E, Hrow. simpl.
    destruct (Pos.eqb p q) eqn:F; [apply Pos.eqb_eq in F; congruence|]. exact IH.
  - destruct (pk_eqb (t_pk t) q); [reflexivity | exact IH].
Qed.

Lemma find_some_existsb {A} (f : A -> bool) (l : list A) (x : A) :
  find f l = Some x -> existsb f l = true.
Proof.
  intros H. apply find_some in H as [Hin Hf]. apply existsb_exists. eauto.
Qed.

Lemma find_app_none {A} (f : A -> bool) (l : list A) (x : A) :
  (forall y, In y l -> f y = false) -> f x = true -> find f (app l [x]) = Some x.
Proof.
  intros H Hx. induction l as [|y l IH]; simpl; [rewrite Hx; reflexivity|].
  rewrite (H y (or_introl eq_refl)). apply IH. intros z Hz. apply H. right. exact Hz.
Qed.

Lemma find_none_all {A} (f : A -> bool) (l : list A) :
  find f l = None -> forall y, In y l -> f y = false.
Proof.
  induction l as [|y l IH]; simpl; [tauto|].
  destruct (f y) eqn:E; [discriminate|]. intros H z [<-|Hz]; auto.
Qed.

Lemma fresh_pk_max_ge (l : list Translation) (m : positive) :
  (m <= fold_left (fun m t => match t_pk t with Some p => Pos.max m p | None => m end) l m)%positive
  /\ forall t p, In t l -> t_pk t = Some p ->
     (p <= fold_left (fun m t => match t_pk t with Some p => Pos.max m p | None => m end) l m)%positive.
Proof.
  revert m. induction l as [|t l IH]; intros m; simpl; [split; [lia | tauto]|].
  destruct (IH (match t_pk t with Some p => Pos.max m p | None => m end)) as [H1 H2].
  split.
  - destruct (t_pk t); lia.
  - intros t' p [<-|Hin] Hp; [rewrite Hp in H1 |- *; lia | eauto].
Qed.

Lemma fresh_pk_not_used (l : list Translation) :
  forall t, In t l -> pk_eqb (t_pk t) (fresh_pk l) = false.
Proof.
  intros t Hin. unfold fresh_pk. destruct (t_pk t) as [p|] eqn:Hp; [|reflexivity].
  simpl. apply Pos.eqb_neq. destruct (fresh_pk_max_ge l 1) as [_ H].
  specialize (H t p Hin Hp). lia.
Qed.

Lemma add_qa_flags_in (fs : list TField) : in_fields (add_qa_flags fs) F_qa_flags = true.
Proof.
  unfold in_fields, add_qa_flags. destruct (in_dec tfield_eq_dec F_qa_flags _) as [|n]; [reflexivity|].
  exfalso. apply n. apply nodup_In. apply in_or_app. right. left. reflexivity.
Qed.

(** The flags [Translation.save] computes for [self]. *)
Definition recomputed_flags (db : DB) (self : Translation) : list qa_flag :=
  t_qa_flags (refresh_qa_flags (source_of db self) self (save_candidate self)).

(** Every successful [Translation.save] persists the recomputed flags in
    the row of the saved instance's primary key. *)
Lemma translation_save_persists_flags (now : Z) (uf : option (list TField))
  (self : Translation) (db : DB) (obj' : Translation) (db' : DB) :
  translation_save now uf self db = Some (obj', db') ->
  exists p row, t_pk obj' = Some p /\ find_translation db' p = Some row
    /\ t_qa_flags row = recomputed_flags db self /\ t_qa_flags obj' = recomputed_flags db self.
Proof.
  unfold translation_save, django_save, recomputed_flags.
  set (s1 := refresh_qa_flags (source_of db self) self (save_candidate self)).
  assert (Hpk : t_pk s1 = t_pk self) by reflexivity.
  destruct uf as [fs|]; simpl option_map.
  - destruct (add_qa_flags fs) as [|f0 fs0] eqn:Efs.
    { pose proof (add_qa_flags_in fs) as H. rewrite Efs in H. discriminate. }
    rewrite <- Efs.
    set (o := if in_fields (add_qa_flags fs) F_updated_at then with_updated_at s1 now else s1).
    assert (Ho : t_pk o = t_pk s1 /\ t_qa_flags o = t_qa_flags s1)
      by (unfold o; destruct (in_fields _ F_updated_at); split; reflexivity).
    destruct Ho as [Hopk Hoq].
    destruct (t_pk o) as [p|] eqn:Ep; [|discriminate].
    destruct (find_translation db p) as [row|] eqn:Er; [|discriminate].
    intros H; inversion H; subst; clear H.
    exists p, (merge_fields (add_qa_flags fs) o row). repeat split.
    + exact Ep.
    + unfold find_translation; simpl. apply find_replace_same.
      * simpl. apply find_some in Er as [_ Hr]. apply pk_eqb_spec in Hr. exact Hr.
      * exact (find_some_existsb _ _ _ Er).
    + unfold merge_fields; simpl. rewrite add_qa_flags_in. exact Hoq.
    + exact Hoq.
  - destruct (t_pk (with_updated_at s1 now)) as [p|] eqn:Ep.
    + destruct (find_translation db p) as [row|] eqn:Er;
        intros H; inversion H; subst; clear H; exists p.
      * exists (with_updated_at s1 now). refine (conj Ep (conj _ (conj eq_refl eq_refl))).
        unfold find_translation; simpl. apply find_replace_same; [exact Ep|].
        exact (find_some_existsb _ _ _ Er).
      * exists (with_updated_at s1 now). refine (conj Ep (conj _ (conj eq_refl eq_refl))).
        unfold find_translation; simpl. apply find_app_none.
        -- apply find_none_all. exact Er.
        -- rewrite Ep. apply Pos.eqb_refl.
    + intros H; inversion H; subst; clear H.
      set (p := fresh_pk (db_translations db)).
      exists p, (with_pk (with_updated_at s1 now) p).
      refine (conj eq_refl (conj _ (conj eq_refl eq_refl))).
      unfold find_translation; simpl. apply find_app_none.
      * apply fresh_pk_not_used.
      * simpl. apply Pos.eqb_refl.
Qed.

(** A full [save()] of a stored instance writes the instance with its
    recomputed flags and the new [updated_at]. *)
Lemma translation_save_full_existing (now : Z) (self : Translation) (db : DB)
  (p : positive) (row : Translation) :
  t_pk self = Some p -> find_translation db p = Some row ->
  let saved := with_updated_at (refresh_qa_flags (source_of db self) self (save_candidate self)) now in
  exists db', translation_save now None self db = Some (saved, db')
              /\ find_translation db' p = Some saved.
Proof.
  intros Hp Hrow saved. unfold translation_save, django_save. simpl option_map.
  assert (Hs : t_pk saved = Some p) by exact Hp.
  change (with_updated_at (refresh_qa_flags (source_of db self) self (save_candidate self)) now)
    with saved.
  rewrite Hs, Hrow. eexists. split; [reflexivity|].
  unfold find_translation; simpl. apply find_replace_same; [exact Hs|].
  exact (find_some_existsb _ _ _ Hrow).
Qed.

(** A restricted [save(update_fields=fs)] of a stored instance succeeds. *)
Lemma translation_save_restricted_ok (now : Z) (fs : list TField) (self : Translation)
  (db : DB) (p : positive) (row : Translation) :
  t_pk self = Some p -> find_translation db p = Some row ->
  exists obj' db', translation_save now (Some fs) self db = Some (obj', db').
Proof.
  intros Hp Hrow. unfold translation_save, django_save. simpl option_map.
  destruct (add_qa_flags fs) as [|f0 fs0] eqn:Efs.
  { pose proof (add_qa_flags_in fs) as H. rewrite Efs in H. discriminate. }
  rewrite <- Efs.
  destruct (in_fields (add_qa_flags fs) F_updated_at); simpl; rewrite Hp, Hrow; eauto.
Qed.

(** ** C7: scoped query *)

(** C7. [get_queryset] gives a superadmin every Translation, a reviewer who
    is not a superadmin exactly the Translations whose locale is among their
    LocaleAssignment locales, and a principal with neither role nothing. *)
Theorem get_queryset_scoping (db : DB) (u : User) :
  (is_superadmin u = true -> get_queryset db u = db_translations db)
  /\ (is_superadmin u = false -> is_reviewer u = true ->
      forall t, In t (get_queryset db u) <->
                In t (db_translations db) /\ In (t_locale t) (assigned_locale_ids db u))
  /\ (is_superadmin u = false -> is_reviewer u = false -> get_queryset db u = []).
Proof.
  unfold get_queryset. split; [|split].
  - intros H. rewrite H. reflexivity.
  - intros H1 H2 t. rewrite H1, H2, filter_In, existsb_exists.
    split.
    + intros [Hin [l [Hl E]]]. apply Pos.eqb_eq in E. subst l. tauto.
    + intros [Hin Hl]. split; [exact Hin|]. exists (t_locale t). rewrite Pos.eqb_refl. tauto.
  - intros H1 H2. rewrite H1, H2. reflexivity.
Qed.

(** ** C10: restricted saves always write [qa_flags] *)

(** C10. A [Translation.save(update_fields=fs)] of a stored Translation
    writes the columns [fs] together with [qa_flags], and the stored row
    then carries the freshly recomputed flags. *)
Theorem save_update_fields_persist_qa_flags (now : Z) (fs : list TField)
  (self : Translation) (db : DB) (p : positive) (row : Translation) :
  t_pk self = Some p -> find_translation db p = Some row ->
  exists obj' db' row',
    translation_save now (Some fs) self db = Some (obj', db')
    /\ In F_qa_flags (add_qa_flags fs)
    /\ (forall f, In f fs -> In f (add_qa_flags fs))
    /\ find_translation db' p = Some row'
    /\ t_qa_flags row' = recomputed_flags db self.
Proof.
  intros Hp Hrow.
  destruct (translation_save_restricted_ok now fs self db p row Hp Hrow) as [obj' [db' Hs]].
  destruct (translation_save_persists_flags _ _ _ _ _ _ Hs) as [q [row' [Hq [Hf [Hfl _]]]]].
  assert (Hpq : q = p).
  { revert Hs Hq. unfold translation_save, django_save. simpl option_map.
    destruct (add_qa_flags fs) as [|f0 fs0] eqn:Efs.
    { pose proof (add_qa_flags_in fs) as H. rewrite Efs in H. discriminate. }
    rewrite <- Efs.
    destruct (in_fields (add_qa_flags fs) F_updated_at); simpl; rewrite Hp, Hrow;
      intros H; inversion H; subst; simpl; congruence. }
  subst q. exists obj', db', row'. repeat split; auto.
  - unfold add_qa_flags. apply nodup_In. apply in_or_app. right. left. reflexivity.
  - intros f Hf'. unfold add_qa_flags. apply nodup_In. apply in_or_app. left. exact Hf'.
Qed.

(** ** C2: reviewer edits through the admin *)

Definition reviewer_approved_warning : Message :=
  msg_warning "Reviewers cannot set status=APPROVED. Set to IN_REVIEW instead.".

(** C2. When a reviewer who is not a superadmin submits an edit [obj] of a
    stored Translation [existing], the stored row afterwards keeps
    [existing]'s approved_text, machine_draft, provenance, locale,
    string_unit and source_hash_at_last_update, has the acting user as
    reviewer and the submitted reviewer_text; a submitted status APPROVED
    is stored as IN_REVIEW with a warning, any other status as submitted. *)
Theorem save_model_reviewer_locks_fields (now : Z) (u : User) (obj : Translation)
  (db : DB) (p : positive) (existing : Translation) :
  is_reviewer u = true -> is_superadmin u = false ->
  t_pk obj = Some p -> find_translation db p = Some existing ->
  exists db' msgs row,
    save_model now u obj true db = Some (db', msgs)
    /\ find_translation db' p = Some row
    /\ t_approved_text row = t_approved_text existing
    /\ t_machine_draft row = t_machine_draft existing
    /\ t_provenance row = t_provenance existing
    /\ t_locale row = t_locale existing
    /\ t_string_unit row = t_string_unit existing
    /\ t_source_hash_at_last_update row = t_source_hash_at_last_update existing
    /\ t_reviewer row = Some (user_id u)
    /\ t_reviewer_text row = t_reviewer_text obj
    /\ (t_status obj = APPROVED -> t_status row = IN_REVIEW /\ In reviewer_approved_warning msgs)
    /\ (t_status obj <> APPROVED -> t_status row = t_status obj).
Proof.
  intros Hrev Hsup Hp Hex. unfold save_model. rewrite Hrev, Hsup. simpl.
  rewrite Hp, Hex.
  set (o2 := mkTranslation (Some p) (t_string_unit existing) (t_locale existing)
               (t_approved_text existing) (t_reviewer_text obj) (t_machine_draft existing)
               (t_qa_flags obj) (t_status obj) (t_provenance existing)
               (t_source_hash_at_last_update existing) (Some (user_id u)) (t_updated_at obj)).
  destruct (t_status obj) eqn:Es; simpl.
  2-6: destruct (translation_save_full_existing now o2 db p existing eq_refl Hex) as [db' [Hs Hf]];
    rewrite Hs; do 3 eexists; split; [reflexivity|]; split; [exact Hf|];
    simpl; repeat match goal with |- _ /\ _ => split end; try reflexivity;
    intros Hst; first [discriminate | reflexivity].
  destruct (translation_save_full_existing now (with_status o2 IN_REVIEW) db p existing
              eq_refl Hex) as [db' [Hs Hf]].
  rewrite Hs. do 3 eexists. split; [reflexivity|]. split; [exact Hf|].
  simpl. repeat match goal with |- _ /\ _ => split end; try reflexivity.
  - intros _. split; [reflexivity | left; reflexivity].
  - intros Hst. congruence.
Qed.

(** ** The approve action *)

Lemma translation_save_restricted_spec (now : Z) (fs : list TField) (self : Translation)
  (db : DB) (p : positive) (row : Translation) :
  t_pk self = Some p -> find_translation db p = Some row ->
  exists obj' db',
    translation_save now (Some fs) self db = Some (obj', db')
    /\ db_units db' = db_units db
    /\ find_translation db' p = Some (merge_fields (add_qa_flags fs) obj' row)
    /\ (forall q, p <> q -> find_translation db' q = find_translation db q)
    /\ t_approved_text obj' = t_approved_text self
    /\ t_status obj' = t_status self
    /\ t_provenance obj' = t_provenance self
    /\ t_source_hash_at_last_update obj' = t_source_hash_at_last_update self.
Proof.
  intros Hp Hrow.
  assert (Hrp : t_pk row = Some p).
  { apply find_some in Hrow as [_ H]. apply pk_eqb_spec in H. exact H. }
  unfold translation_save, django_save. simpl option_map.
  destruct (add_qa_flags fs) as [|f0 fs0] eqn:Efs.
  { pose proof (add_qa_flags_in fs) as H. rewrite Efs in H. discriminate. }
  rewrite <- Efs.
  destruct (in_fields (add_qa_flags fs) F_updated_at); simpl; rewrite Hp, Hrow;
    do 2 eexists; (split; [reflexivity|]); simpl;
    (split; [reflexivity|]);
    (split; [unfold find_translation; simpl; apply find_replace_same;
             [exact Hrp | exact (find_some_existsb _ _ _ Hrow)]|]);
    (split; [intros q Hq; unfold find_translation; simpl;
             apply find_replace_other; [exact Hrp | exact Hq]|]);
    repeat split.
Qed.

(** What the approve action promises for a translation [r] whose
    StringUnit has hash [h], read off a row. *)
Definition approve_effect (r : Translation) (h : string) (row : Translation) : Prop :=
  t_approved_text row =
    (if is_blank (or_empty (t_approved_text r)) && negb (is_blank (or_empty (t_reviewer_text r)))
     then t_reviewer_text r else t_approved_text r)
  /\ t_status row = APPROVED
  /\ t_provenance row = (if provenance_eqb (t_provenance r) IMPORTED then IMPORTED else HUMAN)
  /\ t_source_hash_at_last_update row = h.

Lemma approve_one_effect (r : Translation) (h : string) :
  approve_effect r h (fst (approve_one r h)).
Proof.
  unfold approve_one, approve_effect; simpl. split; [reflexivity|]. split; [reflexivity|].
  split.
  - destruct (t_provenance r); reflexivity.
  - destruct (String.eqb (t_source_hash_at_last_update r) h) eqn:E; simpl; [|reflexivity].
    apply String.eqb_eq. exact E.
Qed.

Lemma approve_one_unchanged (r : Translation) (h : string) :
  snd (approve_one r h) = false -> approve_effect r h r.
Proof.
  unfold approve_one, approve_effect; simpl. intros H.
  repeat rewrite orb_false_iff in H. destruct H as [[[H1 H2] H3] H4].
  rewrite H1. split; [reflexivity|].
  split; [destruct (t_status r); try discriminate; reflexivity|].
  split; [destruct (t_provenance r); try discriminate; reflexivity|].
  apply negb_false_iff, String.eqb_eq in H4. exact H4.
Qed.

Lemma approve_loop_spec (now : Z) (rows : list Translation) :
  forall (db : DB) (n : nat),
  NoDup (map t_pk rows) ->
  (forall r, In r rows -> exists q, t_pk r = Some q /\ find_translation db q = Some r) ->
  exists db' n',
    approve_loop now rows db n = Some (db', n')
    /\ db_units db' = db_units db
    /\ (forall q, (forall r, In r rows -> t_pk r <> Some q) ->
                  find_translation db' q = find_translation db q)
    /\ (forall r q, In r rows -> t_pk r = Some q ->
        exists row, find_translation db' q = Some row /\ approve_effect r (unit_hash db r) row).
Proof.
  induction rows as [|r rest IH]; intros db n Hnd Hrows.
  { exists db, n. split; [reflexivity|]. split; [reflexivity|]. split; [reflexivity|].
    intros r q []. }
  simpl in Hnd. inversion Hnd as [|x l Hnotin Hnd']; subst.
  destruct (Hrows r (or_introl eq_refl)) as [p [Hp Hfind]].
  assert (Hprest : forall r', In r' rest -> t_pk r' <> Some p).
  { intros r' Hin' E. apply Hnotin. rewrite Hp, <- E. apply in_map. exact Hin'. }
  cbn [approve_loop]. destruct (approve_one r (unit_hash db r)) as [t' changed] eqn:Ea.
  pose proof (approve_one_effect r (unit_hash db r)) as Heff. rewrite Ea in Heff. simpl in Heff.
  destruct changed.
  - assert (Htp : t_pk t' = Some p).
    { replace t' with (fst (approve_one r (unit_hash db r))) by (rewrite Ea; reflexivity).
      exact Hp. }
    destruct (translation_save_restricted_spec now approve_update_fields t' db p r Htp Hfind)
      as [obj' [db1 [Hs [Hu [Hf1 [Hother [Ha [Hst [Hpr Hh]]]]]]]]].
    rewrite Hs.
    assert (Hrows1 : forall r', In r' rest -> exists q, t_pk r' = Some q /\ find_translation db1 q = Some r').
    { intros r' Hin'. destruct (Hrows r' (or_intror Hin')) as [q [Hq Hfq]].
      exists q. split; [exact Hq|]. rewrite Hother; [exact Hfq|].
      intros E. subst q. exact (Hprest r' Hin' Hq). }
    destruct (IH db1 (S n) Hnd' Hrows1) as [db' [n' [Hl [Hu' [Hkeep Heffs]]]]].
    exists db', n'. split; [exact Hl|]. split; [congruence|].
    assert (Huh : forall x, unit_hash db1 x = unit_hash db x)
      by (intros x; unfold unit_hash, find_unit; rewrite Hu; reflexivity).
    split.
    + intros q Hq. rewrite Hkeep by (intros r' Hin'; apply Hq; right; exact Hin').
      apply Hother. intros E. subst q. apply (Hq r (or_introl eq_refl)). exact Hp.
    + intros r0 q [<-|Hin0] Hq.
      * rewrite Hp in Hq. inversion Hq; subst q.
        exists (merge_fields (add_qa_flags approve_update_fields) obj' r).
        split; [rewrite Hkeep; [exact Hf1 | exact Hprest]|].
        destruct Heff as [E1 [E2 [E3 E4]]].
        unfold approve_effect, merge_fields; simpl.
        rewrite Ha, Hst, Hpr, Hh. auto.
      * destruct (Heffs r0 q Hin0 Hq) as [row [Hr Hre]]. rewrite Huh in Hre. eauto.
  - destruct (IH db n Hnd' (fun r' Hin' => Hrows r' (or_intror Hin')))
      as [db' [n' [Hl [Hu' [Hkeep Heffs]]]]].
    exists db', n'. split; [exact Hl|]. split; [exact Hu'|]. split.
    + intros q Hq. apply Hkeep. intros r' Hin'. apply Hq. right. exact Hin'.
    + intros r0 q [<-|Hin0] Hq.
      * rewrite Hp in Hq. inversion Hq; subst q. exists r.
        split; [rewrite Hkeep; [exact Hfind | exact Hprest]|].
        apply approve_one_unchanged. rewrite Ea. reflexivity.
      * exact (Heffs r0 q Hin0 Hq).
Qed.

Lemma nodup_map_filter {A B} (f : A -> B) (g : A -> bool) (l : list A) :
  NoDup (map f l) -> NoDup (map f (filter g l)).
Proof.
  induction l as [|x l IH]; simpl; intros H; [constructor|].
  inversion H as [|y k Hn Hd]; subst.
  destruct (g x); simpl; [|exact (IH Hd)].
  constructor; [|exact (IH Hd)].
  intros Hin. apply Hn. apply in_map_iff in Hin as [z [Ez Hz]].
  apply filter_In in Hz as [Hz _]. rewrite <- Ez. apply in_map. exact Hz.
Qed.

Lemma find_translation_nodup (db : DB) (r : Translation) (q : positive) :
  NoDup (map t_pk (db_translations db)) -> In r (db_translations db) -> t_pk r = Some q ->
  find_translation db q = Some r.
Proof.
  unfold find_translation. induction (db_translations db) as [|x l IH]; simpl; [tauto|].
  intros Hnd [<-|Hin] Hq.
  - rewrite Hq. simpl. rewrite Pos.eqb_refl. reflexivity.
  - inversion Hnd as [|y k Hn Hd]; subst.
    destruct (pk_eqb (t_pk x) q) eqn:E.
    + apply pk_eqb_spec in E. exfalso. apply Hn. rewrite E, <- Hq. apply in_map. exact Hin.
    + exact (IH Hd Hin Hq).
Qed.

(** C3. The approve action run by a superadmin over a selection that
    includes the stored Translation [t] leaves its row with: reviewer_text
    copied into approved_text when approved_text is blank and reviewer_text
    is not (approved_text unchanged otherwise); status APPROVED; provenance
    IMPORTED if it was IMPORTED and HUMAN otherwise; and
    source_hash_at_last_update equal to the source_hash of its StringUnit,
    which the action does not change. *)
Theorem approve_selected_sets_fields (now : Z) (u : User) (sel : list positive) (db : DB)
  (t : Translation) (p : positive) (su : StringUnit) :
  is_superadmin u = true ->
  NoDup (map t_pk (db_translations db)) ->
  In t (db_translations db) -> t_pk t = Some p -> In p sel ->
  find_unit db (t_string_unit t) = Some su ->
  exists db' msgs row,
    approve_selected now u (selection db sel) db = Some (db', msgs)
    /\ find_translation db' p = Some row
    /\ t_approved_text row =
         (if is_blank (or_empty (t_approved_text t))
             && negb (is_blank (or_empty (t_reviewer_text t)))
          then t_reviewer_text t else t_approved_text t)
    /\ t_status row = APPROVED
    /\ t_provenance row =
         (if provenance_eqb (t_provenance t) IMPORTED then IMPORTED else HUMAN)
    /\ find_unit db' (t_string_unit t) = Some su
    /\ t_source_hash_at_last_update row = su_source_hash su.
Proof.
  intros Hsup Hnd Hin Hp Hsel Hsu.
  assert (Hnd' : NoDup (map t_pk (selection db sel))) by (apply nodup_map_filter; exact Hnd).
  assert (Hrows : forall r, In r (selection db sel) ->
                            exists q, t_pk r = Some q /\ find_translation db q = Some r).
  { intros r Hr. unfold selection in Hr. apply filter_In in Hr as [Hr Hs].
    destruct (t_pk r) as [q|] eqn:Eq; [|simpl in Hs; rewrite existsb_exists in Hs;
                                         destruct Hs as [? [_ ?]]; discriminate].
    exists q. split; [reflexivity|]. apply find_translation_nodup; assumption. }
  destruct (approve_loop_spec now (selection db sel) db 0 Hnd' Hrows)
    as [db' [n' [Hl [Hu [_ Heffs]]]]].
  assert (Ht : In t (selection db sel)).
  { unfold selection. apply filter_In. split; [exact Hin|].
    apply existsb_exists. exists p. split; [exact Hsel|]. rewrite Hp. simpl. apply Pos.eqb_refl. }
  destruct (Heffs t p Ht Hp) as [row [Hrow [E1 [E2 [E3 E4]]]]].
  exists db', [msg_approved n'], row.
  unfold approve_selected. rewrite Hsup. simpl. rewrite Hl.
  split; [reflexivity|]. split; [exact Hrow|].
  split; [exact E1|]. split; [exact E2|]. split; [exact E3|].
  unfold unit_hash in E4. rewrite Hsu in E4.
  split; [unfold find_unit; rewrite Hu; exact Hsu | exact E4].
Qed.

(** ** C1: [StringUnit.save] marks translations stale *)

(** C1 (amended). Saving a persisted StringUnit touches only Translation
    statuses: when the stored source_hash is non-empty and differs from the
    new hash, each Translation of that StringUnit with a present, non-empty
    approved_text becomes STALE and the others keep their row; when the
    hashes are equal, or when the stored source_hash is empty, no
    Translation changes. *)
Theorem stringunit_save_marks_stale (self : StringUnit) (db : DB) (p : positive) (h0 : string) :
  su_pk self = Some p -> stored_source_hash db (Some p) = Some h0 ->
  let new_hash := compute_source_hash (Some (su_source_text self)) in
  let db' := stringunit_save self db in
  length (db_translations db') = length (db_translations db)
  /\ forall i t, nth_error (db_translations db) i = Some t ->
     exists t', nth_error (db_translations db') i = Some t'
       /\ (h0 <> EmptyString -> h0 <> new_hash -> t_string_unit t = p ->
           truthy (t_approved_text t) = true -> t' = with_status t STALE)
       /\ (truthy (t_approved_text t) = false -> t' = t)
       /\ (t_string_unit t <> p -> t' = t)
       /\ (h0 = new_hash -> t' = t)
       /\ (h0 = EmptyString -> t' = t).
Proof.
  intros Hpk Hst new_hash db'.
  unfold db', stringunit_save. rewrite Hpk, Hst. fold new_hash. cbn [db_translations].
  destruct (String.eqb h0 EmptyString) eqn:E0.
  - apply String.eqb_eq in E0. subst h0. cbn [truthy negb String.eqb andb]. split; [reflexivity|].
    intros i t Hi. exists t. split; [exact Hi|].
    repeat split; intros; first [reflexivity | contradiction].
  - apply String.eqb_neq in E0.
    assert (Htr : truthy (Some h0) = true).
    { simpl. destruct (String.eqb h0 EmptyString) eqn:E; [apply String.eqb_eq in E; congruence|].
      reflexivity. }
    rewrite Htr. simpl or_empty. simpl andb.
    destruct (String.eqb h0 new_hash) eqn:Eh; simpl negb; cbv iota.
    + apply String.eqb_eq in Eh. split; [reflexivity|].
      intros i t Hi. exists t. split; [exact Hi|].
      repeat split; intros; first [reflexivity | contradiction].
    + apply String.eqb_neq in Eh. unfold mark_stale. rewrite length_map. split; [reflexivity|].
      intros i t Hi. rewrite nth_error_map, Hi. simpl.
      eexists; split; [reflexivity|].
      repeat match goal with |- _ /\ _ => split end.
      * intros _ _ Hp Ht. rewrite Hp, Pos.eqb_refl, Ht. reflexivity.
      * intros Ht. rewrite Ht, andb_false_r. reflexivity.
      * intros Hp. destruct (Pos.eqb (t_string_unit t) p) eqn:E; [|reflexivity].
        apply Pos.eqb_eq in E. contradiction.
      * intros E. contradiction.
      * intros E. contradiction.
Qed.

(** [compute_source_hash("Hallo")], as [demo_unit_hash_ok] checks. *)
Definition demo_unit_hash : string :=
  "753692ec36adb4c794c973945eb2a99c1649703ea6f76bf259abb4fb838e013e".

Lemma demo_unit_hash_ok : compute_source_hash (Some "Hallo") = demo_unit_hash.
Proof. vm_compute. reflexivity. Qed.

Definition demo_db (stored_hash : string) : DB :=
  mkDB [mkStringUnit (Some 1%positive) "ui" "hello" "Hallo" "" stored_hash]
       [mkTranslation (Some 1%positive) 1%positive 1%positive (Some "Bonjour") None None []
          APPROVED IMPORTED stored_hash None 0%Z;
        mkTranslation (Some 2%positive) 1%positive 2%positive None (Some "Hola") None []
          IN_REVIEW HUMAN stored_hash None 0%Z]
       [].

Definition demo_edit : StringUnit := mkStringUnit (Some 1%positive) "ui" "hello" "Hello" "" "".

Definition demo_tr1 : Translation :=
  mkTranslation (Some 1%positive) 1%positive 1%positive (Some "Bonjour") None None []
    APPROVED IMPORTED demo_unit_hash None 0%Z.

Lemma stringunit_save_marks_stale_witness :
  exists t', nth_error (db_translations (stringunit_save demo_edit (demo_db demo_unit_hash))) 0
             = Some t' /\ t' = with_status demo_tr1 STALE.
Proof.
  assert (H1 : su_pk demo_edit = Some 1%positive) by reflexivity.
  assert (H2 : stored_source_hash (demo_db demo_unit_hash) (Some 1%positive) = Some demo_unit_hash)
    by reflexivity.
  destruct (proj2 (stringunit_save_marks_stale demo_edit (demo_db demo_unit_hash) 1%positive
                     demo_unit_hash H1 H2) 0 demo_tr1 eq_refl) as [t' [Ht [Hs _]]].
  exists t'. split; [exact Ht|].
  apply Hs; [discriminate | vm_compute; discriminate | reflexivity | reflexivity].
Defined.

(** C1 counterexample. A StringUnit row whose stored source_hash is empty
    (a row written without [StringUnit.save], which the CSV importer checks
    for) is re-saved with a different text: the new hash differs from the
    stored one, yet the approved Translation keeps status APPROVED. *)
Lemma stringunit_save_empty_stored_hash_keeps_status :
  stored_source_hash (demo_db EmptyString) (Some 1%positive) = Some EmptyString
  /\ compute_source_hash (Some (su_source_text demo_edit)) <> EmptyString
  /\ option_map t_approved_text
       (find_translation (stringunit_save demo_edit (demo_db EmptyString)) 1%positive)
     = Some (Some "Bonjour")
  /\ option_map t_status
       (find_translation (stringunit_save demo_edit (demo_db EmptyString)) 1%positive)
     = Some APPROVED.
Proof.
  split; [reflexivity|]. split; [vm_compute; discriminate|]. split; vm_compute; reflexivity.
Qed.

(** ** C4: re-running the approve action *)

Definition demo_admin : User := mkUser 1 true [].

(** A translation already approved, synced with its StringUnit and of
    HUMAN provenance. *)
Definition demo_synced_db : DB :=
  mkDB [mkStringUnit (Some 1%positive) "ui" "hello" "Hallo" "" demo_unit_hash]
       [mkTranslation (Some 1%positive) 1%positive 1%positive (Some "Bonjour") None None []
          APPROVED HUMAN demo_unit_hash None 0%Z]
       [].

(** For any translation whose provenance is not IMPORTED, the approve loop
    reports [changed], whatever the other fields hold. *)
Lemma approve_one_changed_unless_imported (t : Translation) (h : string) :
  t_provenance t <> IMPORTED -> snd (approve_one t h) = true.
Proof.
  intros H. unfold approve_one; simpl.
  destruct (t_provenance t); try (exfalso; exact (H eq_refl)); simpl;
    rewrite ?orb_true_r; reflexivity.
Qed.

(** C4 (failing input). Running the approve action at time 1 and again at
    time 2 on [demo_synced_db]: the second run saves the translation again
    (it reports one approved row) and its [updated_at] moves from 1 to 2. *)
Theorem approve_selected_second_run_writes_again :
  match approve_selected 1 demo_admin (selection demo_synced_db [1%positive]) demo_synced_db with
  | Some (db1, _) =>
      match approve_selected 2 demo_admin (selection db1 [1%positive]) db1 with
      | Some (db2, msgs2) =>
          msgs2 = [msg_approved 1]
          /\ option_map t_updated_at (find_translation db1 1%positive) = Some 1%Z
          /\ option_map t_updated_at (find_translation db2 1%positive) = Some 2%Z
      | None => False
      end
  | None => False
  end.
Proof. vm_compute. split; [reflexivity | split; reflexivity]. Qed.

(** ** C8: [%%] escapes *)

(** C8 (failing input). In ["%%s"] the second [%] of the [%%] escape
    starts the placeholder ["%s"], and a source ["100%%s"] against the
    target ["100%"] gets a missing_placeholder flag for it. *)
Theorem extract_placeholders_escaped_percent :
  QA.extract_placeholders (Some "%%s") = ["%s"]
  /\ QA.compute_qa_flags (Some "100%%s") (Some "100%") = [missing_placeholder ["%s"]].
Proof. split; vm_compute; reflexivity. Qed.

(** ** Witnesses *)

Definition demo_reviewer : User := mkUser 2 false ["L10N_REVIEWER"].

Definition demo_tr_fr : Translation :=
  mkTranslation (Some 1%positive) 1%positive 1%positive (Some "Bonjour") None None []
    APPROVED HUMAN demo_unit_hash None 0%Z.
Definition demo_tr_yo : Translation :=
  mkTranslation (Some 2%positive) 1%positive 2%positive (Some "Pele o") None None []
    APPROVED IMPORTED demo_unit_hash None 0%Z.

Definition demo_scoped_db : DB :=
  mkDB [mkStringUnit (Some 1%positive) "ui" "hello" "Hallo" "" demo_unit_hash]
       [demo_tr_fr; demo_tr_yo] [(2, 1%positive)].

Lemma get_queryset_scoping_witness :
  is_superadmin demo_reviewer = false /\ is_reviewer demo_reviewer = true
  /\ (In demo_tr_fr (get_queryset demo_scoped_db demo_reviewer)
      <-> In demo_tr_fr (db_translations demo_scoped_db)
          /\ In (t_locale demo_tr_fr) (assigned_locale_ids demo_scoped_db demo_reviewer)).
Proof.
  assert (H1 : is_superadmin demo_reviewer = false) by reflexivity.
  assert (H2 : is_reviewer demo_reviewer = true) by reflexivity.
  refine (conj H1 (conj H2 _)).
  exact (proj1 (proj2 (get_queryset_scoping demo_scoped_db demo_reviewer)) H1 H2 demo_tr_fr).
Defined.

(** A crafted reviewer POST that rewrites approved_text and provenance and
    asks for APPROVED. *)
Definition demo_crafted : Translation :=
  mkTranslation (Some 1%positive) 1%positive 1%positive (Some "Hacked") (Some "Salut") None []
    APPROVED IMPORTED "" None 0%Z.

Lemma save_model_reviewer_locks_fields_witness :
  exists db' msgs row,
    save_model 5 demo_reviewer demo_crafted true demo_scoped_db = Some (db', msgs)
    /\ find_translation db' 1%positive = Some row
    /\ t_approved_text row = Some "Bonjour" /\ t_provenance row = HUMAN
    /\ t_status row = IN_REVIEW /\ In reviewer_approved_warning msgs.
Proof.
  destruct (save_model_reviewer_locks_fields 5 demo_reviewer demo_crafted demo_scoped_db
              1%positive demo_tr_fr eq_refl eq_refl eq_refl eq_refl)
    as [db' [msgs [row [Hs [Hf [Ha [_ [Hp [_ [_ [_ [_ [_ [Happ _]]]]]]]]]]]]]].
  destruct (Happ eq_refl) as [Hst Hw].
  exists db', msgs, row. exact (conj Hs (conj Hf (conj Ha (conj Hp (conj Hst Hw))))).
Defined.

Lemma approve_selected_sets_fields_witness :
  exists db' msgs row,
    approve_selected 3 demo_admin (selection demo_scoped_db [1%positive]) demo_scoped_db
      = Some (db', msgs)
    /\ find_translation db' 1%positive = Some row
    /\ t_status row = APPROVED /\ t_provenance row = HUMAN
    /\ t_source_hash_at_last_update row = demo_unit_hash.
Proof.
  assert (Hnd : NoDup (map t_pk (db_translations demo_scoped_db))).
  { simpl. constructor; [simpl; intros [H|[]]; discriminate|].
    constructor; [intros []|constructor]. }
  destruct (approve_selected_sets_fields 3 demo_admin [1%positive] demo_scoped_db demo_tr_fr
              1%positive (mkStringUnit (Some 1%positive) "ui" "hello" "Hallo" "" demo_unit_hash)
              eq_refl Hnd (or_introl eq_refl) eq_refl (or_introl eq_refl) eq_refl)
    as [db' [msgs [row [Hs [Hf [_ [Hst [Hp [_ Hh]]]]]]]]].
  exists db', msgs, row. exact (conj Hs (conj Hf (conj Hst (conj Hp Hh)))).
Defined.

Lemma save_update_fields_persist_qa_flags_witness :
  exists obj' db' row',
    translation_save 4 (Some [F_status]) demo_tr_fr demo_scoped_db = Some (obj', db')
    /\ find_translation db' 1%positive = Some row'
    /\ t_qa_flags row' = recomputed_flags demo_scoped_db demo_tr_fr.
Proof.
  destruct (save_update_fields_persist_qa_flags 4 [F_status] demo_tr_fr demo_scoped_db
              1%positive demo_tr_fr eq_refl eq_refl)
    as [obj' [db' [row' [Hs [_ [_ [Hf Hq]]]]]]].
  exists obj', db', row'. split; [exact Hs|]. split; [exact Hf | exact Hq].
Defined.

(** ** Whitespace around the candidate text does not change the QA flags *)

Fixpoint all_space (s : string) : bool :=
  match s with
  | EmptyString => true
  | String c r => is_space c && all_space r
  end.

Lemma append_nil_r (s : string) : s ++ EmptyString = s.
Proof. induction s as [|c s IH]; simpl; [reflexivity | rewrite IH; reflexivity]. Qed.

Lemma append_assoc (a b c : string) : (a ++ b) ++ c = a ++ (b ++ c).
Proof. induction a as [|x a IH]; simpl; [reflexivity | rewrite IH; reflexivity]. Qed.

Lemma all_space_app (a b : string) : all_space (a ++ b) = all_space a && all_space b.
Proof. induction a as [|x a IH]; simpl; [reflexivity | rewrite IH, andb_assoc; reflexivity]. Qed.

Lemma string_length_app (a b : string) : String.length (a ++ b) = String.length a + String.length b.
Proof. induction a as [|x a IH]; simpl; [reflexivity | rewrite IH; reflexivity]. Qed.

Lemma lstrip_split (s : string) : exists ws, all_space ws = true /\ s = ws ++ lstrip s.
Proof.
  induction s as [|c r IH]; simpl.
  - exists EmptyString. split; reflexivity.
  - destruct (is_space c) eqn:E.
    + destruct IH as [ws [Hws Hr]]. exists (String c ws). simpl. rewrite E, Hws.
      split; [reflexivity|]. simpl. rewrite <- Hr. reflexivity.
    + exists EmptyString. split; reflexivity.
Qed.

Lemma rstrip_split (s : string) : exists ws, all_space ws = true /\ s = rstrip s ++ ws.
Proof.
  induction s as [|c r IH]; simpl.
  - exists EmptyString. split; reflexivity.
  - destruct IH as [ws [Hws Hr]].
    destruct (is_space c && String.eqb (rstrip r) EmptyString) eqn:E.
    + apply andb_true_iff in E as [Ec Er]. apply String.eqb_eq in Er.
      assert (Erw : r = ws) by (rewrite Hr, Er; reflexivity). subst r.
      exists (String c ws). simpl. rewrite Ec, Hws. split; reflexivity.
    + exists ws. split; [exact Hws|]. simpl. rewrite <- Hr. reflexivity.
Qed.

(** [x] is [strip x] with whitespace on both sides. *)
Lemma strip_split (s : string) :
  exists ws1 ws2, all_space ws1 = true /\ all_space ws2 = true /\ s = ws1 ++ (strip s ++ ws2).
Proof.
  destruct (lstrip_split s) as [ws1 [H1 E1]]. destruct (rstrip_split (lstrip s)) as [ws2 [H2 E2]].
  exists ws1, ws2. split; [exact H1|]. split; [exact H2|]. unfold strip. rewrite <- E2. exact E1.
Qed.

Lemma lstrip_all_space (s : string) : all_space s = true -> lstrip s = EmptyString.
Proof.
  induction s as [|c r IH]; simpl; [reflexivity|].
  intros H. apply andb_true_iff in H as [Hc Hr]. rewrite Hc. exact (IH Hr).
Qed.

Lemma rstrip_all_space (s : string) : all_space s = true -> rstrip s = EmptyString.
Proof.
  induction s as [|c r IH]; simpl; [reflexivity|].
  intros H. apply andb_true_iff in H as [Hc Hr]. rewrite (IH Hr), Hc. reflexivity.
Qed.

Lemma lstrip_not_all_space (s : string) :
  all_space s = false -> exists c r, lstrip s = String c r /\ is_space c = false.
Proof.
  induction s as [|c r IH]; simpl; [discriminate|].
  destruct (is_space c) eqn:E; simpl; [exact IH|]. intros _. eauto.
Qed.

Lemma rstrip_nonspace_head (c : ascii) (r : string) :
  is_space c = false -> rstrip (String c r) = String c (rstrip r).
Proof. intros H. simpl. rewrite H. reflexivity. Qed.

Lemma is_blank_all_space (s : string) : is_blank s = all_space s.
Proof.
  unfold is_blank, strip. destruct (all_space s) eqn:E.
  - rewrite lstrip_all_space by exact E. reflexivity.
  - destruct (lstrip_not_all_space s E) as [c [r [Hl Hc]]]. rewrite Hl, rstrip_nonspace_head by exact Hc.
    reflexivity.
Qed.

Lemma is_blank_strip (s : string) : is_blank (strip s) = is_blank s.
Proof.
  destruct (strip_split s) as [ws1 [ws2 [H1 [H2 E]]]].
  rewrite !is_blank_all_space. rewrite E at 2. rewrite !all_space_app, H1, H2, andb_true_r.
  reflexivity.
Qed.

(** [str.count] of a non-space character ignores surrounding whitespace. *)
Lemma count_char_app (ch : ascii) (a b : string) :
  count_char ch (a ++ b) = count_char ch a + count_char ch b.
Proof. induction a as [|x a IH]; simpl; [reflexivity | rewrite IH; lia]. Qed.

Lemma count_char_all_space (ch : ascii) (s : string) :
  is_space ch = false -> all_space s = true -> count_char ch s = 0.
Proof.
  intros Hch. induction s as [|c r IH]; simpl; [reflexivity|].
  intros H. apply andb_true_iff in H as [Hc Hr]. rewrite (IH Hr).
  destruct (Ascii.eqb c ch) eqn:E; [apply Ascii.eqb_eq in E; subst; congruence | reflexivity].
Qed.

Lemma count_char_strip (ch : ascii) (s : string) :
  is_space ch = false -> count_char ch (strip s) = count_char ch s.
Proof.
  intros Hch. destruct (strip_split s) as [ws1 [ws2 [H1 [H2 E]]]].
  rewrite E at 2. rewrite !count_char_app, (count_char_all_space ch ws1 Hch H1),
    (count_char_all_space ch ws2 Hch H2). lia.
Qed.

Module QAFacts.
Import QA.

Section Scan.
Context {A : Type} (m : matcher A).

(** No match starts with whitespace. *)
Hypothesis m_space : forall c r, is_space c = true -> m (String c r) = None.
(** Trailing whitespace does not change a match. *)
Hypothesis m_trail : forall u w, all_space w = true -> m (u ++ w) = m u.

Lemma scan_all_space (k : nat) (w : string) : all_space w = true -> scan m k w = [].
Proof.
  revert k. induction w as [|c r IH]; intros k; simpl; [reflexivity|].
  intros H. apply andb_true_iff in H as [Hc Hr].
  destruct k; [rewrite (m_space c r Hc)|]; apply IH; exact Hr.
Qed.

Lemma scan_trail (u : string) : forall k w, all_space w = true -> scan m k (u ++ w) = scan m k u.
Proof.
  induction u as [|c r IH]; intros k w Hw.
  - simpl. exact (scan_all_space k w Hw).
  - simpl. destruct k; [|apply IH; exact Hw].
    change (String c (r ++ w)) with (String c r ++ w). rewrite (m_trail _ _ Hw).
    destruct (m (String c r)) as [[n a]|]; [f_equal|]; apply IH; exact Hw.
Qed.

Lemma scan_lead (ws y : string) : all_space ws = true -> scan m 0 (ws ++ y) = scan m 0 y.
Proof.
  induction ws as [|c r IH]; simpl; [reflexivity|].
  intros H. apply andb_true_iff in H as [Hc Hr]. rewrite (m_space c (r ++ y) Hc). exact (IH Hr).
Qed.

Lemma findall_strip (x : string) : findall m (strip x) = findall m x.
Proof.
  destruct (strip_split x) as [ws1 [ws2 [H1 [H2 E]]]]. unfold findall.
  rewrite E at 2. rewrite (scan_lead _ _ H1). symmetry. exact (scan_trail _ 0 _ H2).
Qed.

End Scan.

Lemma space_facts (c : ascii) : is_space c = true ->
  chr_is c "%" = false /\ chr_is c "(" = false /\ chr_is c ")" = false /\ chr_is c "$" = false
  /\ chr_is c "{" = false /\ chr_is c "}" = false /\ chr_is c "<" = false /\ chr_is c "/" = false
  /\ chr_is c ">" = false /\ is_conv c = false /\ is_ident c = false /\ is_ident_start c = false
  /\ is_digit c = false /\ is_brace c = false.
Proof.
  intros H. destruct c as [[] [] [] [] [] [] [] []]; vm_compute in H;
    try discriminate H; vm_compute; repeat split.
Qed.

Lemma all_space_cases (w : string) : all_space w = true ->
  w = EmptyString \/ exists c w', w = String c w' /\ is_space c = true /\ all_space w' = true.
Proof.
  destruct w as [|c w']; simpl; [auto|]. intros H. apply andb_true_iff in H as [Hc Hw].
  right. eauto.
Qed.

(** Split an all-space suffix into empty or a space character, and
    simplify the character tests on that space. *)
Ltac wcase Hw :=
  let c := fresh "c" in let w' := fresh "w" in let Hc := fresh "Hc" in let Hw' := fresh "Hw" in
  destruct (all_space_cases _ Hw) as [->|(c & w' & -> & Hc & Hw')];
  [ | let F := fresh "F" in
      pose proof (space_facts c Hc) as F;
      repeat match type of F with
             | _ /\ _ => let F1 := fresh "F" in destruct F as [F1 F]
             end ].

Ltac rewrite_false :=
  repeat match goal with
         | H : ?x = false |- context[?x] => rewrite H
         end.

Lemma not_pct_ahead_app (r w : string) :
  all_space w = true -> not_pct_ahead (r ++ w) = not_pct_ahead r.
Proof.
  intros Hw. destruct r as [|c r']; [|reflexivity]. simpl. wcase Hw; [reflexivity|].
  simpl. rewrite_false. reflexivity.
Qed.

Lemma span_app (p : ascii -> bool) (u w : string) :
  (forall c, is_space c = true -> p c = false) -> all_space w = true ->
  span p (u ++ w) = (fst (span p u), snd (span p u) ++ w).
Proof.
  intros Hp Hw. induction u as [|c r IH]; simpl.
  - wcase Hw; [reflexivity|]. simpl. rewrite (Hp _ Hc). reflexivity.
  - destruct (p c); [|reflexivity]. rewrite IH. destruct (span p r); reflexivity.
Qed.
(** Close goals about concrete prefixes of the suffix: simplify, rewrite the
    known character tests, and split on strings that block a match. *)
Ltac crush_str :=
  repeat first
    [ reflexivity
    | progress (simpl; rewrite_false)
    | progress (rewrite ?andb_false_r, ?andb_true_r)
    | match goal with
      | |- context[match ?x with EmptyString => _ | String _ _ => _ end] =>
          is_var x; destruct x
      end ].

Fixpoint all_chars (p : ascii -> bool) (s : string) : bool :=
  match s with
  | EmptyString => true
  | String c r => p c && all_chars p r
  end.

Lemma span_all (p : ascii -> bool) (u : string) : all_chars p u = true -> span p u = (u, EmptyString).
Proof.
  induction u as [|c r IH]; simpl; [reflexivity|].
  intros H. apply andb_true_iff in H as [Hc Hr]. rewrite Hc, (IH Hr). reflexivity.
Qed.

Lemma span_not_all (p : ascii -> bool) (u : string) :
  all_chars p u = false -> exists c r, snd (span p u) = String c r.
Proof.
  induction u as [|c r IH]; simpl; [discriminate|].
  destruct (p c); simpl; [|eauto]. intros H. destruct (span p r) as [a b] eqn:E. simpl in *. eauto.
Qed.

Lemma span_app_gen (p : ascii -> bool) (u w : string) :
  all_chars p u = false -> span p (u ++ w) = (fst (span p u), snd (span p u) ++ w).
Proof.
  induction u as [|c r IH]; simpl; [discriminate|].
  destruct (p c); simpl; [|reflexivity]. intros H. rewrite (IH H). destruct (span p r); reflexivity.
Qed.

Lemma all_chars_app (p : ascii -> bool) (u w : string) :
  all_chars p (u ++ w) = all_chars p u && all_chars p w.
Proof. induction u as [|c r IH]; simpl; [reflexivity | rewrite IH, andb_assoc; reflexivity]. Qed.

Lemma all_space_non_brace (w : string) : all_space w = true -> all_chars (fun c => negb (is_brace c)) w = true.
Proof.
  induction w as [|c r IH]; simpl; [reflexivity|].
  intros H. apply andb_true_iff in H as [Hc Hr].
  destruct (space_facts c Hc) as (_&_&_&_&_&_&_&_&_&_&_&_&_&Hb). rewrite Hb, (IH Hr). reflexivity.
Qed.

Lemma m_simple_space c r : is_space c = true -> m_simple (String c r) = None.
Proof. intros Hc. pose proof (space_facts c Hc) as F. destruct F as (F1&_). unfold m_simple. crush_str. Qed.

Lemma m_simple_trail (u w : string) : all_space w = true -> m_simple (u ++ w) = m_simple u.
Proof.
  intros Hw. unfold m_simple. destruct u as [|c0 [|c1 r]]; simpl.
  - wcase Hw; crush_str.
  - wcase Hw; crush_str.
  - reflexivity.
Qed.

Lemma m_curly_space c r : is_space c = true -> m_curly (String c r) = None.
Proof. intros Hc. destruct (space_facts c Hc) as (_&_&_&_&F&_). unfold m_curly. crush_str. Qed.

Lemma m_curly_trail (u w : string) : all_space w = true -> m_curly (u ++ w) = m_curly u.
Proof.
  intros Hw. unfold m_curly. destruct u as [|c0 r0]; simpl.
  - wcase Hw; crush_str.
  - destruct (chr_is c0 "{"); [|reflexivity].
    destruct (all_chars (fun c => negb (is_brace c)) r0) eqn:E.
    + rewrite (span_all _ r0 E).
      rewrite (span_all _ (r0 ++ w)) by (rewrite all_chars_app, E; exact (all_space_non_brace w Hw)).
      destruct (r0 ++ w); destruct r0; reflexivity.
    + rewrite (span_app_gen _ _ w E). destruct (span_not_all _ _ E) as [c1 [r1 Hr]].
      destruct (span _ r0) as [body rest]. simpl in *. subst rest. simpl.
      reflexivity.
Qed.

Lemma m_positional_space c r : is_space c = true -> m_positional (String c r) = None.
Proof. intros Hc. destruct (space_facts c Hc) as (F&_). unfold m_positional. crush_str. Qed.

Lemma m_positional_trail (u w : string) : all_space w = true -> m_positional (u ++ w) = m_positional u.
Proof.
  intros Hw. unfold m_positional. destruct u as [|c0 r0]; simpl.
  - wcase Hw; crush_str.
  - rewrite (not_pct_ahead_app _ _ Hw). destruct (chr_is c0 "%" && not_pct_ahead r0); [|reflexivity].
    rewrite (span_app is_digit r0 w) by
      (try exact Hw; intros c Hc; destruct (space_facts c Hc) as (_&_&_&_&_&_&_&_&_&_&_&_&F&_); exact F).
    destruct (span is_digit r0) as [ds r1]. simpl.
    destruct ds as [|d ds']; [reflexivity|].
    destruct r1 as [|c1 [|c2 r2]]; simpl.
    + wcase Hw; crush_str.
    + wcase Hw; crush_str.
    + reflexivity.
Qed.

Lemma m_named_space c r : is_space c = true -> m_named (String c r) = None.
Proof. intros Hc. destruct (space_facts c Hc) as (F&_). unfold m_named. crush_str. Qed.

Lemma m_named_trail (u w : string) : all_space w = true -> m_named (u ++ w) = m_named u.
Proof.
  intros Hw. unfold m_named. destruct u as [|c0 r0]; simpl.
  - wcase Hw; crush_str.
  - rewrite (not_pct_ahead_app _ _ Hw). destruct (chr_is c0 "%" && not_pct_ahead r0); [|reflexivity].
    destruct r0 as [|c1 r1]; simpl; [wcase Hw; crush_str|].
    destruct (chr_is c1 "("); [|reflexivity].
    destruct r1 as [|c2 r2]; simpl; [wcase Hw; crush_str|].
    destruct (is_ident_start c2); [|reflexivity].
    rewrite (span_app is_ident r2 w) by
      (try exact Hw; intros c Hc; destruct (space_facts c Hc) as (_&_&_&_&_&_&_&_&_&_&F&_); exact F).
    destruct (span is_ident r2) as [idt r3]. simpl.
    destruct r3 as [|c3 [|c4 r4]]; simpl.
    + wcase Hw; crush_str.
    + wcase Hw; crush_str.
    + reflexivity.
Qed.
Lemma space_lower (c : ascii) : is_space c = true -> lower c = c.
Proof.
  intros H. destruct c as [[] [] [] [] [] [] [] []]; vm_compute in H;
    try discriminate H; reflexivity.
Qed.

Lemma lstrip_app (v w : string) : all_space v = false -> lstrip (v ++ w) = lstrip v ++ w.
Proof.
  induction v as [|c r IH]; simpl; [discriminate|].
  destruct (is_space c); simpl; [exact IH | reflexivity].
Qed.

Lemma lstrip_app_sp (v w : string) :
  all_space v = true -> all_space w = true -> lstrip (v ++ w) = EmptyString.
Proof. intros Hv Hw. apply lstrip_all_space. rewrite all_space_app, Hv, Hw. reflexivity. Qed.

Lemma strip_prefix_ci_app (pre x w : string) :
  all_chars (fun p => negb (is_space (lower p))) pre = true -> all_space w = true ->
  strip_prefix_ci pre (x ++ w) = option_map (fun r => r ++ w) (strip_prefix_ci pre x).
Proof.
  intros Hp Hw. revert x. induction pre as [|p pr IH]; intros x; [reflexivity|].
  simpl in Hp. apply andb_true_iff in Hp as [Hp Hpr].
  destruct x as [|c r]; simpl.
  - wcase Hw; [reflexivity|]. simpl. rewrite (space_lower _ Hc).
    destruct (Ascii.eqb c (lower p)) eqn:E; [|reflexivity].
    apply Ascii.eqb_eq in E. rewrite <- E, Hc in Hp. discriminate Hp.
  - destruct (Ascii.eqb (lower c) (lower p)); [exact (IH Hpr r) | reflexivity].
Qed.

Lemma boundary_ahead_app (r w : string) :
  all_space w = true -> boundary_ahead (r ++ w) = boundary_ahead r.
Proof.
  intros Hw. destruct r as [|c r']; [|reflexivity]. simpl. wcase Hw; [reflexivity|].
  simpl. rewrite_false. reflexivity.
Qed.

Lemma after_gt_app (r w : string) :
  all_space w = true -> after_gt (r ++ w) = option_map (fun x => x ++ w) (after_gt r).
Proof.
  intros Hw. induction r as [|c r IH]; simpl.
  - induction w as [|c w IHw]; simpl; [reflexivity|].
    apply andb_true_iff in Hw as [Hc Hw']. destruct (space_facts c Hc) as (_&_&_&_&_&_&_&_&F&_).
    rewrite F. exact (IHw Hw').
  - destruct (chr_is c ">"); [reflexivity | exact IH].
Qed.

Lemma try_tags_app (tags : list string) (x w : string) :
  (forall tg, In tg tags -> all_chars (fun p => negb (is_space (lower p))) tg = true) ->
  all_space w = true ->
  try_tags tags (x ++ w) = option_map (fun p => (fst p, snd p ++ w)) (try_tags tags x).
Proof.
  intros Ht Hw. induction tags as [|tg more IH]; [reflexivity|]. simpl.
  rewrite (strip_prefix_ci_app tg x w (Ht tg (or_introl eq_refl)) Hw).
  assert (IH' := IH (fun t H => Ht t (or_intror H))).
  destruct (strip_prefix_ci tg x) as [rest|]; simpl; [|exact IH'].
  rewrite (boundary_ahead_app _ _ Hw). destruct (boundary_ahead rest); [|exact IH'].
  rewrite (after_gt_app _ _ Hw). destruct (after_gt rest); simpl; [reflexivity | exact IH'].
Qed.

Lemma tag_names_no_space :
  forall tg, In tg tag_names -> all_chars (fun p => negb (is_space (lower p))) tg = true.
Proof. intros tg H. repeat (destruct H as [<-|H]; [reflexivity|]). destruct H. Qed.

Lemma try_tags_empty : try_tags tag_names EmptyString = None.
Proof. reflexivity. Qed.

Lemma m_html_space c r : is_space c = true -> m_html (String c r) = None.
Proof. intros Hc. destruct (space_facts c Hc) as (_&_&_&_&_&_&F&_). unfold m_html. rewrite F. reflexivity. Qed.

Lemma m_html_trail (u w : string) : all_space w = true -> m_html (u ++ w) = m_html u.
Proof.
  intros Hw. destruct u as [|c0 r0]; simpl.
  - wcase Hw; [reflexivity|]. apply m_html_space. exact Hc.
  - unfold m_html. destruct (chr_is c0 "<"); [|reflexivity].
    destruct (all_space r0) eqn:A0.
    + rewrite (lstrip_app_sp _ _ A0 Hw), (lstrip_all_space _ A0). reflexivity.
    + rewrite (lstrip_app _ w A0).
      destruct (lstrip_not_all_space _ A0) as [c1 [r1 [Hl Hc1]]]. rewrite Hl. simpl.
      assert (Hgen : forall (b : bool) (r2 : string),
        (let (is_close, r3) := (b, r2 ++ w) in
         match try_tags tag_names (lstrip r3) with
         | Some (tg, rem) => Some (String.length (String c0 (r0 ++ w)) - String.length rem, (is_close, tg))
         | None => None
         end) =
        (let (is_close, r3) := (b, r2) in
         match try_tags tag_names (lstrip r3) with
         | Some (tg, rem) => Some (String.length (String c0 r0) - String.length rem, (is_close, tg))
         | None => None
         end)).
      { intros b r2. cbv beta iota. destruct (all_space r2) eqn:A2.
        - rewrite (lstrip_app_sp _ _ A2 Hw), (lstrip_all_space _ A2). reflexivity.
        - rewrite (lstrip_app _ w A2), (try_tags_app _ _ _ tag_names_no_space Hw).
          destruct (try_tags tag_names (lstrip r2)) as [[tg rem]|]; cbn [option_map fst snd]; [|reflexivity].
          change (String.length (String c0 (r0 ++ w))) with (S (String.length (r0 ++ w))).
          change (String.length (String c0 r0)) with (S (String.length r0)).
          rewrite !string_length_app. f_equal. f_equal. lia. }
      destruct (chr_is c1 "/").
      * exact (Hgen true r1).
      * exact (Hgen false (String c1 r1)).
Qed.
Lemma extract_placeholders_some (t : string) :
  extract_placeholders (Some t) =
  str_set (app (findall m_named t) (app (findall m_positional t)
          (app (findall m_simple t) (findall m_curly t)))).
Proof. destruct t; reflexivity. Qed.

Lemma extract_placeholders_strip (t : string) :
  extract_placeholders (Some (strip t)) = extract_placeholders (Some t).
Proof.
  rewrite !extract_placeholders_some.
  rewrite (findall_strip m_named m_named_space m_named_trail),
    (findall_strip m_positional m_positional_space m_positional_trail),
    (findall_strip m_simple m_simple_space m_simple_trail),
    (findall_strip m_curly m_curly_space m_curly_trail).
  reflexivity.
Qed.

Lemma extract_html_tags_some (t : string) :
  extract_html_tags (Some t) =
  fold_left (fun (acc : list (string * nat)) (m : bool * string) =>
               counter_add (snd m ++ (if fst m then "_close" else "_open")) acc)
    (findall m_html t) [].
Proof. destruct t; reflexivity. Qed.

Lemma extract_html_tags_strip (t : string) :
  extract_html_tags (Some (strip t)) = extract_html_tags (Some t).
Proof.
  rewrite !extract_html_tags_some, (findall_strip m_html m_html_space m_html_trail).
  reflexivity.
Qed.

(** Stripping the target text does not change any QA flag. *)
Lemma compute_qa_flags_strip (src : option string) (t : string) :
  compute_qa_flags src (Some (strip t)) = compute_qa_flags src (Some t).
Proof.
  unfold compute_qa_flags. cbn [or_empty].
  rewrite extract_placeholders_strip, extract_html_tags_strip, is_blank_strip,
    !count_char_strip by reflexivity.
  reflexivity.
Qed.

(** [empty_translation] is raised exactly for a non-blank source and a
    blank target. *)
Lemma compute_qa_flags_empty (src tgt : option string) :
  In empty_translation (compute_qa_flags src tgt)
  <-> is_blank (or_empty src) = false /\ is_blank (or_empty tgt) = true.
Proof.
  unfold compute_qa_flags. cbv zeta. rewrite !in_app_iff.
  repeat match goal with
         | |- context[match ?x with [] => _ | _ :: _ => _ end] => destruct x
         end;
  destruct (Nat.eqb _ _); destruct (is_blank (or_empty src)); destruct (is_blank (or_empty tgt));
  simpl; intuition discriminate.
Qed.
End QAFacts.

(** ** The effective candidate text and the persisted QA flags *)

(** The effective candidate: [approved_text] if non-blank, else
    [reviewer_text] if non-blank, else [machine_draft] if non-blank, else
    the empty string. *)
Definition effective_candidate (self : Translation) : string :=
  let approved := or_empty (t_approved_text self) in
  let reviewer := or_empty (t_reviewer_text self) in
  let machine := or_empty (t_machine_draft self) in
  if negb (is_blank approved) then approved
  else if negb (is_blank reviewer) then reviewer
  else if negb (is_blank machine) then machine
  else EmptyString.

(** The flags of [compute_qa_flags source candidate], with
    [empty_translation] kept only for an APPROVED status. *)
Definition gated_flags (status : TranslationStatus) (source candidate : string) : list qa_flag :=
  let flags := QA.compute_qa_flags (Some source) (Some candidate) in
  if status_eqb status APPROVED then flags
  else filter (fun f => negb (String.eqb (flag_code f) "empty_translation")) flags.

Lemma save_candidate_strip (self : Translation) :
  save_candidate self = strip (effective_candidate self).
Proof.
  unfold save_candidate, effective_candidate, is_blank.
  destruct (String.eqb (strip (or_empty (t_approved_text self))) EmptyString); simpl; [|reflexivity].
  destruct (String.eqb (strip (or_empty (t_reviewer_text self))) EmptyString); simpl; [|reflexivity].
  destruct (String.eqb (strip (or_empty (t_machine_draft self))) EmptyString); reflexivity.
Qed.

Lemma recomputed_flags_gated (db : DB) (self : Translation) :
  recomputed_flags db self = gated_flags (t_status self) (source_of db self) (effective_candidate self).
Proof.
  unfold recomputed_flags, refresh_qa_flags, gated_flags. cbn [t_qa_flags with_qa_flags].
  rewrite save_candidate_strip, QAFacts.compute_qa_flags_strip. reflexivity.
Qed.

Lemma is_blank_effective_candidate (self : Translation) :
  is_blank (effective_candidate self) =
  is_blank (or_empty (t_approved_text self)) && is_blank (or_empty (t_reviewer_text self))
  && is_blank (or_empty (t_machine_draft self)).
Proof.
  unfold effective_candidate.
  destruct (is_blank (or_empty (t_approved_text self))) eqn:A; simpl; [|exact A].
  destruct (is_blank (or_empty (t_reviewer_text self))) eqn:R; simpl; [|exact R].
  destruct (is_blank (or_empty (t_machine_draft self))) eqn:M; simpl; [reflexivity | exact M].
Qed.

Lemma gated_flags_empty (st : TranslationStatus) (src cand : string) :
  In empty_translation (gated_flags st src cand)
  <-> st = APPROVED /\ is_blank src = false /\ is_blank cand = true.
Proof.
  unfold gated_flags. destruct st; simpl;
    [ rewrite QAFacts.compute_qa_flags_empty; simpl; split; [intros [H1 H2]; auto | intros [_ H]; exact H] | ..];
    rewrite filter_In; simpl; split; (intros [_ H]; discriminate H) || (intros [H _]; discriminate H).
Qed.

(** C5. Every successful [Translation.save], whatever its [update_fields],
    stores in the saved row the flags [compute_qa_flags] gives for the
    StringUnit's source text and the effective candidate text, with
    [empty_translation] dropped unless the status is APPROVED. *)
Theorem translation_save_recomputes_qa_flags (now : Z) (uf : option (list TField))
  (self : Translation) (db : DB) (u : StringUnit) (obj' : Translation) (db' : DB) :
  find_unit db (t_string_unit self) = Some u ->
  translation_save now uf self db = Some (obj', db') ->
  exists p row, t_pk obj' = Some p /\ find_translation db' p = Some row
    /\ t_qa_flags row = gated_flags (t_status self) (su_source_text u) (effective_candidate self).
Proof.
  intros Hu Hs.
  destruct (translation_save_persists_flags _ _ _ _ _ _ Hs) as [p [row [Hp [Hr [Hf _]]]]].
  exists p, row. refine (conj Hp (conj Hr _)).
  rewrite Hf, recomputed_flags_gated. unfold source_of. rewrite Hu. reflexivity.
Qed.

(** C6. In the row a successful [Translation.save] stores, the
    [empty_translation] flag is present exactly when the saved status is
    APPROVED, the source text is non-blank and the effective candidate text
    is blank. *)
Theorem translation_save_empty_translation_iff (now : Z) (uf : option (list TField))
  (self : Translation) (db : DB) (u : StringUnit) (obj' : Translation) (db' : DB) :
  find_unit db (t_string_unit self) = Some u ->
  translation_save now uf self db = Some (obj', db') ->
  exists p row, t_pk obj' = Some p /\ find_translation db' p = Some row
    /\ (In empty_translation (t_qa_flags row)
        <-> t_status self = APPROVED /\ is_blank (su_source_text u) = false
            /\ is_blank (effective_candidate self) = true).
Proof.
  intros Hu Hs.
  destruct (translation_save_persists_flags _ _ _ _ _ _ Hs) as [p [row [Hp [Hr [Hf _]]]]].
  exists p, row. refine (conj Hp (conj Hr _)).
  rewrite Hf, recomputed_flags_gated, gated_flags_empty. unfold source_of. rewrite Hu.
  reflexivity.
Qed.

Definition demo_unit : StringUnit := mkStringUnit (Some 1%positive) "ui" "hello" "Hallo" "" demo_unit_hash.

(** An APPROVED translation whose texts are all blank. *)
Definition demo_tr_blank : Translation :=
  mkTranslation (Some 1%positive) 1%positive 1%positive (Some "  ") None (Some "") []
    APPROVED HUMAN demo_unit_hash None 0%Z.

Lemma translation_save_recomputes_qa_flags_witness :
  exists obj' db',
    translation_save 6 (Some [F_reviewer_text]) demo_tr_fr demo_scoped_db = Some (obj', db')
    /\ exists p row, t_pk obj' = Some p /\ find_translation db' p = Some row
       /\ t_qa_flags row = gated_flags APPROVED "Hallo" "Bonjour".
Proof.
  destruct (translation_save 6 (Some [F_reviewer_text]) demo_tr_fr demo_scoped_db)
    as [[o d]|] eqn:E; [|vm_compute in E; discriminate E].
  exists o, d. split; [reflexivity|].
  exact (translation_save_recomputes_qa_flags 6 (Some [F_reviewer_text]) demo_tr_fr demo_scoped_db
           demo_unit o d eq_refl E).
Defined.

Lemma translation_save_empty_translation_iff_witness :
  exists obj' db',
    translation_save 7 None demo_tr_blank demo_scoped_db = Some (obj', db')
    /\ exists p row, t_pk obj' = Some p /\ find_translation db' p = Some row
       /\ In empty_translation (t_qa_flags row).
Proof.
  destruct (translation_save 7 None demo_tr_blank demo_scoped_db)
    as [[o d]|] eqn:E; [|vm_compute in E; discriminate E].
  exists o, d. split; [reflexivity|].
  destruct (translation_save_empty_translation_iff 7 None demo_tr_blank demo_scoped_db
              demo_unit o d eq_refl E) as [p [row [Hp [Hr Hiff]]]].
  exists p, row. refine (conj Hp (conj Hr _)).
  apply Hiff. refine (conj eq_refl (conj _ _)); vm_compute; reflexivity.
Defined.

(** ** Normalisation invariance of [compute_source_hash] *)

Lemma rstrip_idem (s : string) : rstrip (rstrip s) = rstrip s.
Proof.
  induction s as [|c r IH]; [reflexivity|]. cbn [rstrip].
  destruct (is_space c && String.eqb (rstrip r) EmptyString) eqn:E; [reflexivity|].
  cbn [rstrip]. rewrite IH, E. reflexivity.
Qed.

Lemma strip_idem (s : string) : strip (strip s) = strip s.
Proof.
  unfold strip. destruct (lstrip s) as [|c r] eqn:E; [reflexivity|].
  assert (Hc : is_space c = false).
  { revert E. clear. induction s as [|d t IH]; simpl; [discriminate|].
    destruct (is_space d) eqn:D; [exact IH|]. intros H. inversion H; subst. exact D. }
  rewrite (rstrip_nonspace_head c r Hc). simpl. rewrite Hc.
  rewrite <- (rstrip_nonspace_head c r Hc). apply rstrip_idem.
Qed.

(** C9. For any normalisation under which stripping a normalised text
    leaves a normalised text (true of Unicode NFC, whose whitespace
    characters neither decompose to nor compose with other characters),
    the hash of [T] equals the hash of [normalize(T).strip()], and absent
    text hashes as the empty string. *)
Theorem compute_source_hash_normalization_invariant (normalize : string -> string)
  (Hnorm : forall t, normalize (strip (normalize t)) = strip (normalize t)) (T : string) :
  compute_source_hash_with normalize (Some T)
    = compute_source_hash_with normalize (Some (strip (normalize T)))
  /\ compute_source_hash_with normalize None = compute_source_hash_with normalize (Some EmptyString).
Proof.
  split; [|reflexivity].
  unfold compute_source_hash_with, or_empty. rewrite Hnorm, strip_idem. reflexivity.
Qed.

Lemma compute_source_hash_nfc (text : option string) :
  compute_source_hash text = compute_source_hash_with nfc text.
Proof. reflexivity. Qed.

Lemma compute_source_hash_normalization_invariant_witness :
  compute_source_hash_with nfc (Some "  Hello ")
    = compute_source_hash_with nfc (Some (strip (nfc "  Hello ")))
  /\ compute_source_hash_with nfc None = compute_source_hash_with nfc (Some EmptyString).
Proof.
  apply (compute_source_hash_normalization_invariant nfc); intros t; reflexivity.
Defined.

(* ================================================================== *)
(** * Further admin code (admin.py) *)

Module AdminMore.

(** Python [str] values as sequences of code points. *)
Definition codepoints (s : string) : list Z :=
  map (fun c => Z.of_nat (nat_of_ascii c)) (list_ascii_of_string s).

(** The suffix literal of [_truncate]: the three code points U+00E2,
    U+20AC, U+00A6 (the UTF-8 bytes of an ellipsis read as cp1252). *)
Definition truncate_suffix : list Z := [226; 8364; 166]%Z.

(** [value[:stop]] with Python's reading of a negative [stop]. *)
Definition py_slice_to {A} (l : list A) (stop : Z) : list A :=
  let n := Z.of_nat (length l) in
  let k := if Z.ltb stop 0 then Z.max 0 (n + stop) else Z.min stop n in
  firstn (Z.to_nat k) l.

(** [_truncate(value, length)] *)
Definition _truncate (value : option string) (length : Z) : list Z :=
  match value with
  | None | Some EmptyString => []
  | Some v =>
      let cv := codepoints v in
      if Z.leb (Z.of_nat (List.length cv)) length then cv
      else app (py_slice_to cv (length - 1)) truncate_suffix
  end.

(** [TranslationAdmin.has_change_permission]; [model_perm] is what
    [ModelAdmin.has_change_permission] answers (the user's
    [change_translation] permission). *)
Definition has_change_permission (model_perm : bool) (db : DB) (u : User)
  (obj : option Translation) : bool :=
  match obj with
  | None => model_perm
  | Some o =>
      if is_superadmin u then model_perm
      else if is_reviewer u then existsb (Pos.eqb (t_locale o)) (assigned_locale_ids db u)
      else false
  end.

(** [TranslationAdmin.readonly_fields] *)
Definition translation_readonly_fields : list string :=
  ["display_location"; "display_message_id"; "display_source_text"; "display_source_hash";
   "source_hash_at_last_update"; "qa_warnings"; "created_at"; "updated_at"].

(** The set [reviewer_readonly] of [get_readonly_fields]. *)
Definition reviewer_readonly : list string :=
  ["approved_text"; "provenance"; "machine_draft"; "locale"; "string_unit";
   "source_hash_at_last_update"; "reviewer"].

Definition str_in (x : string) (l : list string) : bool := existsb (String.eqb x) l.

(** [TranslationAdmin.get_readonly_fields]; [set_order] is the order in
    which Python iterates the set [reviewer_readonly] (it depends on the
    string hash seed). *)
Definition get_readonly_fields (set_order : list string) (u : User) : list string :=
  let readonly := translation_readonly_fields in
  if is_superadmin u then readonly
  else if is_reviewer u then
    fold_left (fun acc field => if str_in field acc then acc else app acc [field]) set_order readonly
  else readonly.

(** [HasQAWarningsFilter.queryset]; qa_flags is a non-null JSON column. *)
Definition has_qa_warnings_filter (value : option string) (qs : list Translation) : list Translation :=
  match value with
  | Some "yes" => filter (fun t => match t_qa_flags t with [] => false | _ => true end) qs
  | Some "no" => filter (fun t => match t_qa_flags t with [] => true | _ => false end) qs
  | _ => qs
  end.

(** [TranslationAdmin.has_qa_warnings] *)
Definition has_qa_warnings (t : Translation) : bool :=
  match t_qa_flags t with [] => false | _ => true end.

(** [queryset.update(status=s)] on the admin selection [queryset]: a
    single UPDATE, without [save()], so neither [qa_flags] nor the
    [auto_now] column [updated_at] is touched. *)
Definition queryset_update_status (queryset : list Translation) (s : TranslationStatus) (db : DB) : DB :=
  let pks := map t_pk queryset in
  mkDB (db_units db)
    (map (fun t => if existsb (fun q => match t_pk t, q with
                                        | Some a, Some b => Pos.eqb a b
                                        | _, _ => false end) pks
                   then with_status t s else t) (db_translations db))
    (db_assignments db).

(** [mark_in_review] *)
Definition mark_in_review (queryset : list Translation) (db : DB) : DB :=
  queryset_update_status queryset IN_REVIEW db.

(** [flag_selected] *)
Definition flag_selected (queryset : list Translation) (db : DB) : DB :=
  queryset_update_status queryset FLAGGED db.

End AdminMore.

Module AdminMoreFacts.
Import AdminMore.

Lemma codepoints_length (s : string) : List.length (codepoints s) = String.length s.
Proof.
  unfold codepoints. rewrite length_map.
  induction s as [|c r IH]; simpl; [reflexivity | rewrite IH; reflexivity].
Qed.

(** [_truncate] returns the whole value when it fits in [length] code
    points; a longer value becomes its first [length - 1] code points and
    the three-code-point suffix, [length + 2] code points in all. *)
Theorem truncate_spec (v : string) (len : Z) (Hlen : (1 <= len)%Z) :
  ((Z.of_nat (String.length v) <= len)%Z -> _truncate (Some v) len = codepoints v)
  /\ ((len < Z.of_nat (String.length v))%Z ->
      _truncate (Some v) len = app (firstn (Z.to_nat (len - 1)) (codepoints v)) truncate_suffix
      /\ List.length (_truncate (Some v) len) = (Z.to_nat len + 2)%nat).
Proof.
  assert (Hgen : _truncate (Some v) len =
            let cv := codepoints v in
            if Z.leb (Z.of_nat (List.length cv)) len then cv
            else app (py_slice_to cv (len - 1)) truncate_suffix).
  { destruct v; [|reflexivity]. cbn -[Z.leb].
    replace (Z.leb 0 len) with true by (symmetry; apply Z.leb_le; lia). reflexivity. }
  rewrite Hgen. cbv zeta. rewrite codepoints_length. split.
  - intros H. apply Z.leb_le in H. rewrite H. reflexivity.
  - intros H. assert (Hn : Z.leb (Z.of_nat (String.length v)) len = false) by (apply Z.leb_gt; lia).
    rewrite Hn. unfold py_slice_to. rewrite codepoints_length.
    assert (Hs : Z.ltb (len - 1) 0 = false) by (apply Z.ltb_ge; lia). rewrite Hs.
    rewrite Z.min_l by lia. split; [reflexivity|].
    rewrite length_app, length_firstn, codepoints_length. simpl. lia.
Qed.

(** For a user who is not a superadmin, [has_change_permission] on a
    stored Translation agrees with the scoped changelist: it is granted
    exactly for the rows [get_queryset] returns. *)
Theorem has_change_permission_matches_queryset (model_perm : bool) (db : DB) (u : User)
  (t : Translation) (Hsa : is_superadmin u = false) (Hin : In t (db_translations db)) :
  has_change_permission model_perm db u (Some t) = true <-> In t (get_queryset db u).
Proof.
  unfold has_change_permission, get_queryset. rewrite Hsa.
  destruct (is_reviewer u).
  - rewrite filter_In. tauto.
  - split; [discriminate | intros []].
Qed.

Lemma str_in_iff (x : string) (l : list string) : str_in x l = true <-> In x l.
Proof.
  unfold str_in. rewrite existsb_exists. split.
  - intros [y [Hy E]]. apply String.eqb_eq in E. subst. exact Hy.
  - intros H. exists x. split; [exact H | apply String.eqb_refl].
Qed.

Lemma readonly_fold (order acc : list string) :
  let r := fold_left (fun acc field => if str_in field acc then acc else app acc [field]) order acc in
  (exists extra, r = app acc extra) /\ (forall f, In f r <-> In f acc \/ In f order)
  /\ (NoDup acc -> NoDup r).
Proof.
  revert acc. induction order as [|x order IH]; intros acc; simpl.
  - refine (conj (ex_intro _ [] (eq_sym (app_nil_r acc))) (conj _ (fun H => H))). tauto.
  - destruct (str_in x acc) eqn:E.
    + destruct (IH acc) as [[e He] [Hm Hd]]. refine (conj (ex_intro _ e He) (conj _ Hd)).
      intros f. rewrite Hm. apply str_in_iff in E. split; [tauto|].
      intros [H|[<-|H]]; tauto.
    + destruct (IH (app acc [x])) as [[e He] [Hm Hd]].
      refine (conj (ex_intro _ (x :: e) _) (conj _ _)).
      * rewrite He, <- app_assoc. reflexivity.
      * intros f. rewrite Hm, in_app_iff. simpl. tauto.
      * intros Hnd. apply Hd. apply NoDup_app; [exact Hnd | constructor; [intros []|constructor] |].
        intros y Hy Hy'. destruct Hy' as [Ey|[]]. subst y.
        assert (str_in x acc = true) by (apply str_in_iff; exact Hy). congruence.
Qed.

(** For a reviewer who is not a superadmin, [get_readonly_fields] keeps the
    default read-only fields first and adds the locked fields, whatever the
    order in which the set is iterated: 14 distinct fields in all. *)
Theorem get_readonly_fields_reviewer (set_order : list string) (u : User)
  (Hset : forall f, In f set_order <-> In f reviewer_readonly)
  (Hsa : is_superadmin u = false) (Hrev : is_reviewer u = true) :
  let r := get_readonly_fields set_order u in
  firstn 8 r = translation_readonly_fields
  /\ (forall f, In f r <-> In f translation_readonly_fields \/ In f reviewer_readonly)
  /\ NoDup r /\ List.length r = 14%nat.
Proof.
  unfold get_readonly_fields. rewrite Hsa, Hrev. cbv zeta.
  destruct (readonly_fold set_order translation_readonly_fields) as [[e He] [Hm Hd]].
  assert (Hnd0 : NoDup translation_readonly_fields).
  { apply (NoDup_nodup string_dec translation_readonly_fields). }
  assert (Hm' : forall f, In f (fold_left (fun acc field => if str_in field acc then acc else app acc [field])
                    set_order translation_readonly_fields)
                <-> In f translation_readonly_fields \/ In f reviewer_readonly).
  { intros f. rewrite Hm, Hset. tauto. }
  assert (Hnd : NoDup (fold_left (fun acc field => if str_in field acc then acc else app acc [field])
                    set_order translation_readonly_fields)) by exact (Hd Hnd0).
  refine (conj _ (conj Hm' (conj Hnd _))).
  - rewrite He, firstn_app. reflexivity.
  - set (U := nodup string_dec (app translation_readonly_fields reviewer_readonly)).
    assert (HU : List.length U = 14%nat) by reflexivity.
    rewrite <- HU. apply Permutation_length. apply NoDup_Permutation; [exact Hnd | apply NoDup_nodup |].
    intros f. unfold U. rewrite nodup_In, in_app_iff. exact (Hm' f).
Qed.

(** The "QA warnings" list filter splits any queryset in two: "yes" keeps
    exactly the rows the [has_qa_warnings] column shows as true, "no"
    exactly the others. *)
Theorem has_qa_warnings_filter_partition (qs : list Translation) :
  (forall t, In t (has_qa_warnings_filter (Some "yes") qs) <-> In t qs /\ has_qa_warnings t = true)
  /\ (forall t, In t (has_qa_warnings_filter (Some "no") qs) <-> In t qs /\ has_qa_warnings t = false)
  /\ (List.length (has_qa_warnings_filter (Some "yes") qs)
      + List.length (has_qa_warnings_filter (Some "no") qs) = List.length qs)%nat.
Proof.
  unfold has_qa_warnings_filter, has_qa_warnings. split; [|split].
  - intros t. rewrite filter_In. reflexivity.
  - intros t. rewrite filter_In. destruct (t_qa_flags t); simpl; split; intros [H1 H2]; auto; discriminate.
  - induction qs as [|t qs IH]; simpl; [reflexivity|].
    destruct (t_qa_flags t); simpl; lia.
Qed.

Lemma find_map_gen {A} (P : A -> bool) (F : A -> A) (l : list A) :
  find P (map F l) = option_map F (find (fun x => P (F x)) l).
Proof. induction l as [|x l IH]; simpl; [reflexivity|]. destruct (P (F x)); [reflexivity | exact IH]. Qed.

Lemma find_ext_gen {A} (P Q : A -> bool) (l : list A) :
  (forall x, P x = Q x) -> find P l = find Q l.
Proof. intros H. induction l as [|x l IH]; simpl; [reflexivity|]. rewrite H, IH. reflexivity. Qed.

Lemma queryset_update_status_find (qs : list Translation) (s : TranslationStatus) (db : DB) (p : positive) :
  find_translation (queryset_update_status qs s db) p =
  option_map (fun t => if existsb (fun q => match q with Some b => Pos.eqb p b | None => false end)
                                  (map t_pk qs)
                       then with_status t s else t)
    (find_translation db p).
Proof.
  unfold find_translation, queryset_update_status. cbn [db_translations].
  rewrite find_map_gen.
  rewrite (find_ext_gen _ (fun t => pk_eqb (t_pk t) p))
    by (intros x; destruct (existsb _ (map t_pk qs)); reflexivity).
  destruct (find (fun t => pk_eqb (t_pk t) p) (db_translations db)) as [t0|] eqn:E; simpl; [|reflexivity].
  apply find_some in E as [_ H]. apply pk_eqb_spec in H. rewrite H. reflexivity.
Qed.

(** [mark_in_review] and [flag_selected] change only the status of the
    selected rows: every other column, [qa_flags] and [updated_at]
    included, keeps its stored value, and unselected rows are unchanged. *)
Theorem status_actions_touch_only_status (qs : list Translation) (db : DB) (p : positive)
  (t : Translation) (Ht : find_translation db p = Some t) :
  (In (Some p) (map t_pk qs) ->
     find_translation (mark_in_review qs db) p = Some (with_status t IN_REVIEW)
     /\ find_translation (flag_selected qs db) p = Some (with_status t FLAGGED))
  /\ (~ In (Some p) (map t_pk qs) ->
     find_translation (mark_in_review qs db) p = Some t
     /\ find_translation (flag_selected qs db) p = Some t).
Proof.
  unfold mark_in_review, flag_selected. rewrite !queryset_update_status_find, Ht. simpl.
  assert (Hex : existsb (fun q => match q with Some b => Pos.eqb p b | None => false end) (map t_pk qs) = true
                <-> In (Some p) (map t_pk qs)).
  { rewrite existsb_exists. split.
    - intros [[b|] [Hb E]]; [|discriminate]. apply Pos.eqb_eq in E. subst. exact Hb.
    - intros H. exists (Some p). split; [exact H | apply Pos.eqb_refl]. }
  split.
  - intros H. apply Hex in H. rewrite H. split; reflexivity.
  - intros H. destruct (existsb _ (map t_pk qs)) eqn:E; [exfalso; apply H, Hex; reflexivity|].
    split; reflexivity.
Qed.

End AdminMoreFacts.

(* ------------------------------------------------------------------ *)
(** ** CSV import helpers (management/commands/import_voyant_csv.py) *)

Module ImportCsv.

(** [str.rstrip(chars)] and [str.lstrip(chars)] for a set of characters
    given by its membership test. *)
Fixpoint rstrip_chars (p : ascii -> bool) (s : string) : string :=
  match s with
  | EmptyString => EmptyString
  | String c r =>
      let r' := rstrip_chars p r in
      if p c && String.eqb r' EmptyString then EmptyString else String c r'
  end.

Fixpoint lstrip_chars (p : ascii -> bool) (s : string) : string :=
  match s with
  | EmptyString => EmptyString
  | String c r => if p c then lstrip_chars p r else s
  end.

Definition is_crlf (c : ascii) : bool := QA.chr_is c "013"%char || QA.chr_is c "010"%char.

(** [_strip_trailing_newlines] *)
Definition _strip_trailing_newlines (value : option string) : string :=
  rstrip_chars is_crlf (or_empty value).

Definition is_paren (c : ascii) : bool := QA.chr_is c "("%char || QA.chr_is c ")"%char.

(** The pattern [\(([^()]+)\)\s*$] tried at the start of [s]; [Some g] is
    group 1. The greedy [[^()]+] cannot give back characters, since the
    character after a shorter run is not a [)]. *)
Definition paren_at (s : string) : option string :=
  match s with
  | String c r =>
      if QA.chr_is c "("%char then
        let (g, rest) := QA.span (fun d => negb (is_paren d)) r in
        match g, rest with
        | String _ _, String d rest' =>
            if QA.chr_is d ")"%char && all_space rest' then Some g else None
        | _, _ => None
        end
      else None
  | EmptyString => None
  end.

(** [re.search]: the leftmost position where the pattern matches. *)
Fixpoint paren_search (s : string) : option string :=
  match s with
  | EmptyString => None
  | String _ r =>
      match paren_at s with
      | Some g => Some g
      | None => paren_search r
      end
  end.

(** [_extract_locale_code] *)
Definition _extract_locale_code (header : string) : string :=
  let raw := strip header in
  if String.eqb raw EmptyString then EmptyString
  else match paren_search raw with
       | Some g => strip g
       | None => raw
       end.

Fixpoint str_map (f : ascii -> ascii) (s : string) : string :=
  match s with
  | EmptyString => EmptyString
  | String c r => String (f c) (str_map f r)
  end.

(** [str.lower()] and [str.upper()] on ASCII text. *)
Definition lower_str (s : string) : string := str_map QA.lower s.

Definition upper (c : ascii) : ascii :=
  let n := nat_of_ascii c in
  if Nat.leb 97 n && Nat.leb n 122 then ascii_of_nat (n - 32) else c.

Definition upper_str (s : string) : string := str_map upper s.

(** [str.replace(a, b)] for one-character [a] and [b]. *)
Definition replace_char (a b : ascii) (s : string) : string :=
  str_map (fun c => if Ascii.eqb c a then b else c) s.

(** The class [[a-z0-9-]]. *)
Definition is_code_char (c : ascii) : bool :=
  let n := nat_of_ascii c in
  (Nat.leb 97 n && Nat.leb n 122) || QA.is_digit c || QA.chr_is c "-"%char.

Definition is_dash (c : ascii) : bool := QA.chr_is c "-"%char.

(** [re.sub(r"X+", "-", s)] where [X] is the class tested by [p]: every
    maximal run of [X] becomes one ["-"]; [in_run] says that the previous
    character was in such a run. *)
Fixpoint sub_runs (p : ascii -> bool) (in_run : bool) (s : string) : string :=
  match s with
  | EmptyString => EmptyString
  | String c r =>
      if p c then (if in_run then sub_runs p true r else String "-" (sub_runs p true r))
      else String c (sub_runs p false r)
  end.

(** [_normalize_code] *)
Definition _normalize_code (raw : string) : string :=
  let code := replace_char "_" "-" (lower_str (strip raw)) in
  let code := replace_char " " "-" code in
  let code := sub_runs (fun c => negb (is_code_char c)) false code in
  let code := sub_runs is_dash false code in
  rstrip_chars is_dash (lstrip_chars is_dash code).

End ImportCsv.

Module ImportCsvFacts.
Import ImportCsv.

Ltac by_chars := intros c; destruct c as [[] [] [] [] [] [] [] []]; vm_compute;
  first [reflexivity | intros; reflexivity | intros; discriminate].

(** *** [rstrip(chars)] removes exactly the trailing run *)

Lemma rstrip_chars_split (p : ascii -> bool) (s : string) :
  exists w, s = rstrip_chars p s ++ w /\ QAFacts.all_chars p w = true /\
    (forall r c, rstrip_chars p s = r ++ String c EmptyString -> p c = false).
Proof.
  induction s as [|c r IH]; simpl.
  - exists EmptyString. split; [reflexivity|]. split; [reflexivity|].
    intros [|? ?] d H; discriminate H.
  - destruct IH as [w [Hr [Hw Hlast]]].
    destruct (p c && String.eqb (rstrip_chars p r) EmptyString) eqn:E.
    + apply andb_true_iff in E as [Ec Er]. apply String.eqb_eq in Er. rewrite Er in Hr.
      simpl in Hr. subst r. exists (String c w). simpl. rewrite Ec, Hw.
      split; [reflexivity|]. split; [reflexivity|]. intros [|? ?] d H; discriminate H.
    + exists w. split; [simpl; rewrite <- Hr; reflexivity|]. split; [exact Hw|].
      intros [|x x'] d H; simpl in H.
      * injection H as <- Hd. rewrite Hd in E. simpl in E. rewrite andb_true_r in E. exact E.
      * injection H as <- Hd. exact (Hlast x' d Hd).
Qed.

Lemma rstrip_chars_idem (p : ascii -> bool) (s : string) :
  rstrip_chars p (rstrip_chars p s) = rstrip_chars p s.
Proof.
  induction s as [|c r IH]; simpl; [reflexivity|].
  destruct (p c && String.eqb (rstrip_chars p r) EmptyString) eqn:E; [reflexivity|].
  simpl. rewrite IH, E. reflexivity.
Qed.

(** *** [_extract_locale_code] *)

Lemma nonspace_rstrip_last (y : string) (d : ascii) :
  is_space d = false -> rstrip (y ++ String d EmptyString) = y ++ String d EmptyString.
Proof.
  intros Hd. induction y as [|x y IH]; simpl.
  - rewrite Hd. reflexivity.
  - rewrite IH. destruct y; simpl; rewrite andb_false_r; reflexivity.
Qed.

Lemma lstrip_before_nonspace (l x : string) (d : ascii) :
  is_space d = false -> exists l', lstrip (l ++ String d x) = l' ++ String d x.
Proof.
  intros Hd. induction l as [|c l IH]; simpl.
  - exists EmptyString. rewrite Hd. reflexivity.
  - destruct (is_space c); [exact IH|]. exists (String c l). reflexivity.
Qed.

Lemma no_paren_span (c : string) :
  count_char "(" c = 0 -> count_char ")" c = 0 ->
  QA.span (fun d => negb (is_paren d)) (c ++ String ")" EmptyString) = (c, String ")" EmptyString).
Proof.
  induction c as [|x c IH]; simpl; [reflexivity|].
  intros H1 H2.
  destruct (Ascii.eqb x "(") eqn:E1; [discriminate H1|].
  destruct (Ascii.eqb x ")") eqn:E2; [discriminate H2|].
  assert (Hx : is_paren x = false) by (unfold is_paren, QA.chr_is; rewrite E1, E2; reflexivity).
  rewrite Hx. simpl. rewrite (IH H1 H2). reflexivity.
Qed.

Lemma all_space_open (m c : string) : all_space (m ++ String "(" c) = false.
Proof. rewrite all_space_app. simpl. apply andb_false_r. Qed.

(** A run of non-parentheses inside [m ++ "(" ++ c] never ends in a [)]
    followed by whitespace only. *)
Lemma span_before_open (m c : string) :
  match QA.span (fun d => negb (is_paren d)) (m ++ String "(" c) with
  | (_, String d rest') => QA.chr_is d ")" && all_space rest' = false
  | (_, EmptyString) => False
  end.
Proof.
  induction m as [|x m IH]; simpl; [reflexivity|].
  unfold is_paren at 1. destruct (QA.chr_is x "(") eqn:E1; simpl.
  - unfold QA.chr_is in *. apply Ascii.eqb_eq in E1. subst x. reflexivity.
  - destruct (QA.chr_is x ")") eqn:E2; simpl.
    + rewrite all_space_open. apply andb_false_r.
    + destruct (QA.span (fun d => negb (is_paren d)) (m ++ String "(" c)) as [g [|d r]]; exact IH.
Qed.

Lemma paren_at_before_open (x : ascii) (m c : string) :
  paren_at (String x (m ++ String "(" c)) = None.
Proof.
  unfold paren_at. destruct (QA.chr_is x "("); [|reflexivity].
  pose proof (span_before_open m c) as H.
  destruct (QA.span (fun d => negb (is_paren d)) (m ++ String "(" c)) as [g [|d r]];
    [contradiction|]. rewrite H. destruct g; reflexivity.
Qed.

Lemma paren_search_label (l c : string) :
  count_char "(" c = 0 -> count_char ")" c = 0 -> c <> EmptyString ->
  paren_search (l ++ String "(" (c ++ String ")" EmptyString)) = Some c.
Proof.
  intros H1 H2 Hne. induction l as [|x l IH].
  - cbn [String.append paren_search paren_at]. rewrite (no_paren_span c H1 H2).
    destruct c as [|y c']; [congruence|]. reflexivity.
  - cbn [String.append paren_search].
    rewrite paren_at_before_open. exact IH.
Qed.

Lemma paren_search_no_open (s : string) : count_char "(" s = 0 -> paren_search s = None.
Proof.
  induction s as [|x s IH]; simpl; [reflexivity|]. intros H.
  destruct (Ascii.eqb x "(") eqn:E; [discriminate H|].
  unfold QA.chr_is. rewrite E. exact (IH H).
Qed.

(** The code named by a header: a label [... (c)] gives [c.strip()], a
    header without [(] is taken whole. *)
Theorem extract_locale_code_spec (l c h : string)
  (H1 : count_char "(" c = 0) (H2 : count_char ")" c = 0) (Hne : c <> EmptyString)
  (Hh : count_char "(" h = 0) :
  _extract_locale_code (l ++ String "(" (c ++ String ")" EmptyString)) = strip c /\
  _extract_locale_code h = strip h.
Proof.
  split.
  - destruct (lstrip_before_nonspace l (c ++ String ")" EmptyString) "(" eq_refl) as [l' E].
    assert (Hraw : strip (l ++ String "(" (c ++ String ")" EmptyString))
                   = (l' ++ String "(" c) ++ String ")" EmptyString).
    { unfold strip. rewrite E.
      replace (l' ++ String "(" (c ++ String ")" EmptyString))
        with ((l' ++ String "(" c) ++ String ")" EmptyString) by (rewrite append_assoc; reflexivity).
      apply (nonspace_rstrip_last _ ")" eq_refl). }
    unfold _extract_locale_code. rewrite Hraw.
    replace (String.eqb ((l' ++ String "(" c) ++ String ")" EmptyString) EmptyString) with false
      by (destruct l'; reflexivity).
    rewrite append_assoc. simpl. rewrite (paren_search_label l' c H1 H2 Hne). reflexivity.
  - unfold _extract_locale_code.
    rewrite paren_search_no_open by (rewrite count_char_strip by reflexivity; exact Hh).
    destruct (String.eqb (strip h) EmptyString) eqn:E; [|reflexivity].
    apply String.eqb_eq in E. rewrite E. reflexivity.
Qed.

(** *** [_normalize_code] *)

(** No ["-"] right after a ["-"]; with [prev = true] at the start, no
    leading ["-"] either. *)
Fixpoint no_double_dash (prev : bool) (s : string) : bool :=
  match s with
  | EmptyString => true
  | String c r => if is_dash c then negb prev && no_double_dash true r else no_double_dash false r
  end.

(** A normal locale code: only [[a-z0-9-]], no leading, trailing or
    doubled ["-"]. *)
Definition code_normal (s : string) : bool :=
  QAFacts.all_chars is_code_char s && no_double_dash true s &&
  String.eqb (rstrip_chars is_dash s) s.

Lemma dash_code : is_code_char "-" = true.
Proof. reflexivity. Qed.

Lemma is_dash_code : forall c, is_dash c = true -> is_code_char c = true.
Proof. by_chars. Qed.

Lemma code_lower : forall c, is_code_char c = true -> QA.lower c = c.
Proof. by_chars. Qed.

Lemma code_not_underscore : forall c, is_code_char c = true -> (if Ascii.eqb c "_" then "-"%char else c) = c.
Proof. by_chars. Qed.

Lemma code_not_blank : forall c, is_code_char c = true -> (if Ascii.eqb c " " then "-"%char else c) = c.
Proof. by_chars. Qed.

Lemma code_not_space : forall c, is_code_char c = true -> is_space c = false.
Proof. by_chars. Qed.

Lemma sub_runs_code (b : bool) (s : string) :
  QAFacts.all_chars is_code_char (sub_runs (fun c => negb (is_code_char c)) b s) = true.
Proof.
  revert b. induction s as [|c r IH]; intros b; simpl; [reflexivity|].
  destruct (is_code_char c) eqn:E; simpl.
  - rewrite E. apply IH.
  - destruct b; [apply IH|]. simpl. apply IH.
Qed.

Lemma sub_runs_dash_code (b : bool) (s : string) :
  QAFacts.all_chars is_code_char s = true ->
  QAFacts.all_chars is_code_char (sub_runs is_dash b s) = true.
Proof.
  revert b. induction s as [|c r IH]; intros b; simpl; [reflexivity|].
  intros H. apply andb_true_iff in H as [Hc Hr].
  destruct (is_dash c); [destruct b; simpl; apply IH; exact Hr|]. simpl. rewrite Hc. apply IH, Hr.
Qed.

Lemma sub_runs_dash_ndd (b : bool) (s : string) : no_double_dash b (sub_runs is_dash b s) = true.
Proof.
  revert b. induction s as [|c r IH]; intros b; simpl; [reflexivity|].
  destruct (is_dash c) eqn:E; [destruct b; [apply IH|]; simpl; apply IH|]. simpl. rewrite E. apply IH.
Qed.

Lemma ndd_weaken (s : string) : no_double_dash true s = true -> no_double_dash false s = true.
Proof. destruct s as [|c r]; simpl; [reflexivity|]. destruct (is_dash c); [discriminate | exact (fun h => h)]. Qed.

Lemma lstrip_dash_ndd (s : string) :
  no_double_dash false s = true -> no_double_dash true (lstrip_chars is_dash s) = true.
Proof.
  induction s as [|c r IH]; simpl; [reflexivity|].
  destruct (is_dash c) eqn:E; simpl.
  - intros H. apply IH, ndd_weaken, H.
  - rewrite E. exact (fun h => h).
Qed.

Lemma lstrip_chars_all (p q : ascii -> bool) (s : string) :
  QAFacts.all_chars p s = true -> QAFacts.all_chars p (lstrip_chars q s) = true.
Proof.
  induction s as [|c r IH]; simpl; [reflexivity|].
  intros H. destruct (q c); [apply IH; apply andb_true_iff in H as [_ H]; exact H | exact H].
Qed.

Lemma ndd_prefix (b : bool) (x w : string) : no_double_dash b (x ++ w) = true -> no_double_dash b x = true.
Proof.
  revert b. induction x as [|c r IH]; intros b; simpl; [reflexivity|].
  destruct (is_dash c).
  - intros H. apply andb_true_iff in H as [H1 H2]. rewrite H1. apply IH, H2.
  - apply IH.
Qed.

Lemma str_map_id (p : ascii -> bool) (f : ascii -> ascii) (s : string) :
  (forall c, p c = true -> f c = c) -> QAFacts.all_chars p s = true -> str_map f s = s.
Proof.
  intros Hf. induction s as [|c r IH]; simpl; [reflexivity|].
  intros H. apply andb_true_iff in H as [Hc Hr]. rewrite (Hf c Hc), (IH Hr). reflexivity.
Qed.

Lemma strip_code (s : string) : QAFacts.all_chars is_code_char s = true -> strip s = s.
Proof.
  intros H. unfold strip.
  assert (Hl : lstrip s = s).
  { destruct s as [|c r]; [reflexivity|]. simpl in *. apply andb_true_iff in H as [Hc _].
    rewrite (code_not_space c Hc). reflexivity. }
  rewrite Hl. clear Hl. induction s as [|c r IH]; [reflexivity|].
  simpl in *. apply andb_true_iff in H as [Hc Hr]. rewrite (code_not_space c Hc), (IH Hr). reflexivity.
Qed.

Lemma sub_runs_nc_id (b : bool) (s : string) :
  QAFacts.all_chars is_code_char s = true -> sub_runs (fun c => negb (is_code_char c)) b s = s.
Proof.
  revert b. induction s as [|c r IH]; intros b; simpl; [reflexivity|].
  intros H. apply andb_true_iff in H as [Hc Hr]. rewrite Hc. simpl. rewrite (IH false Hr). reflexivity.
Qed.

Lemma sub_runs_dash_id (b : bool) (s : string) : no_double_dash b s = true -> sub_runs is_dash b s = s.
Proof.
  revert b. induction s as [|c r IH]; intros b; simpl; [reflexivity|].
  destruct (is_dash c) eqn:E.
  - intros H. apply andb_true_iff in H as [Hb Hr]. destruct b; [discriminate Hb|].
    rewrite (IH true Hr). unfold is_dash, QA.chr_is in E. apply Ascii.eqb_eq in E. subst c. reflexivity.
  - intros H. rewrite (IH false H). reflexivity.
Qed.

Lemma normalize_code_fixed (s : string) : code_normal s = true -> _normalize_code s = s.
Proof.
  unfold code_normal. intros H. apply andb_true_iff in H as [H Hr].
  apply andb_true_iff in H as [Hc Hn]. apply String.eqb_eq in Hr.
  unfold _normalize_code. rewrite (strip_code s Hc).
  unfold lower_str, replace_char.
  rewrite (str_map_id _ _ s code_lower Hc).
  rewrite (str_map_id _ _ s code_not_underscore Hc), (str_map_id _ _ s code_not_blank Hc).
  rewrite (sub_runs_nc_id false s Hc), (sub_runs_dash_id false s (ndd_weaken s Hn)).
  assert (Hl : lstrip_chars is_dash s = s).
  { destruct s as [|c r]; [reflexivity|]. simpl in *. destruct (is_dash c); [discriminate Hn | reflexivity]. }
  rewrite Hl. exact Hr.
Qed.

Lemma normalize_code_is_normal (raw : string) : code_normal (_normalize_code raw) = true.
Proof.
  unfold _normalize_code.
  set (x := sub_runs is_dash false (sub_runs (fun c => negb (is_code_char c)) false
              (replace_char " " "-" (replace_char "_" "-" (lower_str (strip raw)))))).
  assert (Hx : QAFacts.all_chars is_code_char x = true) by (apply sub_runs_dash_code, sub_runs_code).
  assert (Hnx : no_double_dash false x = true) by apply sub_runs_dash_ndd.
  set (z := lstrip_chars is_dash x).
  assert (Hz : QAFacts.all_chars is_code_char z = true) by (apply lstrip_chars_all, Hx).
  assert (Hnz : no_double_dash true z = true) by (apply lstrip_dash_ndd, Hnx).
  destruct (rstrip_chars_split is_dash z) as [w [Ez _]].
  unfold code_normal. rewrite rstrip_chars_idem, String.eqb_refl, andb_true_r.
  rewrite Ez in Hz, Hnz. rewrite QAFacts.all_chars_app in Hz. apply andb_true_iff in Hz as [Hz _].
  rewrite Hz. exact (ndd_prefix true _ _ Hnz).
Qed.

(** [_normalize_code] always returns a normal code (only [[a-z0-9-]], no
    leading, trailing or doubled ["-"]), is idempotent, and its fixed
    points are exactly the normal codes. *)
Theorem normalize_code_normal_form (raw s : string) :
  code_normal (_normalize_code raw) = true /\
  _normalize_code (_normalize_code raw) = _normalize_code raw /\
  (_normalize_code s = s <-> code_normal s = true).
Proof.
  split; [apply normalize_code_is_normal|]. split.
  - apply normalize_code_fixed, normalize_code_is_normal.
  - split; [intros E; rewrite <- E; apply normalize_code_is_normal | apply normalize_code_fixed].
Qed.

(** [_strip_trailing_newlines] removes the trailing run of CR and LF
    characters and nothing else: the input is the result followed by CR/LF
    characters, and the result does not end in CR or LF. *)
Theorem strip_trailing_newlines_spec (value : option string) :
  exists w, or_empty value = _strip_trailing_newlines value ++ w /\
    QAFacts.all_chars is_crlf w = true /\
    (forall r c, _strip_trailing_newlines value = r ++ String c EmptyString -> is_crlf c = false).
Proof. apply rstrip_chars_split. Qed.

End ImportCsvFacts.

(* ------------------------------------------------------------------ *)
(** ** The [import_voyant_csv] command *)

Module ImportCmd.
Import ImportCsv.

(** A row of the Locale table. [bcp47] and [name] are non-null columns. *)
Record Locale := mkLocale {
  l_pk : positive;
  l_code : string;
  l_bcp47 : string;
  l_name : string;
  l_script : option string;
  l_is_rtl : bool;
  l_enabled : bool;
  l_legacy_column : option string
}.

Definition RTL_LEGACY_COLUMNS : list string := ["ar"; "fa"; "ur"; "he"].

Definition COMMON_LOCALE_NAMES : list (string * string) :=
  [("en", "English"); ("fr", "French"); ("de", "German"); ("es", "Spanish");
   ("pt", "Portuguese"); ("it", "Italian"); ("hi", "Hindi"); ("yo", "Yoruba");
   ("ar", "Arabic"); ("fa", "Persian"); ("ur", "Urdu"); ("he", "Hebrew");
   ("cs", "Czech"); ("zh-hans", "Chinese (Simplified)")].

(** [dict.get] on a dict literal (its keys are distinct). *)
Definition dict_get_str (k : string) (d : list (string * string)) : option string :=
  option_map snd (find (fun kv => String.eqb (fst kv) k) d).

(** The [CommandError]s the command raises. *)
Inductive ImportError :=
| err_limit_negative
| err_file_not_found
| err_no_header
| err_missing_required
| err_missing_english
| err_empty_locale_column
| err_invalid_locale_column (legacy_column : string)
| err_save_failed.

Definition res_bind {A B : Type} (m : sum ImportError A) (f : A -> sum ImportError B)
  : sum ImportError B :=
  match m with inl e => inl e | inr a => f a end.

Local Notation "'let*' x ':=' m 'in' k" := (res_bind m (fun x => k))
  (at level 200, x ident, m at level 100, k at level 200).

Record ImportCounts := mkCounts {
  rows_total : nat;
  rows_skipped : nat;
  rows_processed : nat;
  stringunits_created : nat;
  stringunits_updated : nat;
  locales_created : nat;
  locales_updated : nat;
  translations_created : nat;
  translations_updated : nat
}.

Definition zero_counts : ImportCounts := mkCounts 0 0 0 0 0 0 0 0 0.

(** [counts.<field> += 1] *)
Definition bump_rows_total (c : ImportCounts) : ImportCounts :=
  mkCounts (S (rows_total c)) (rows_skipped c) (rows_processed c) (stringunits_created c) (stringunits_updated c) (locales_created c) (locales_updated c) (translations_created c) (translations_updated c).

Definition bump_rows_skipped (c : ImportCounts) : ImportCounts :=
  mkCounts (rows_total c) (S (rows_skipped c)) (rows_processed c) (stringunits_created c) (stringunits_updated c) (locales_created c) (locales_updated c) (translations_created c) (translations_updated c).

Definition bump_rows_processed (c : ImportCounts) : ImportCounts :=
  mkCounts (rows_total c) (rows_skipped c) (S (rows_processed c)) (stringunits_created c) (stringunits_updated c) (locales_created c) (locales_updated c) (translations_created c) (translations_updated c).

Definition bump_stringunits_created (c : ImportCounts) : ImportCounts :=
  mkCounts (rows_total c) (rows_skipped c) (rows_processed c) (S (stringunits_created c)) (stringunits_updated c) (locales_created c) (locales_updated c) (translations_created c) (translations_updated c).

Definition bump_stringunits_updated (c : ImportCounts) : ImportCounts :=
  mkCounts (rows_total c) (rows_skipped c) (rows_processed c) (stringunits_created c) (S (stringunits_updated c)) (locales_created c) (locales_updated c) (translations_created c) (translations_updated c).

Definition bump_locales_created (c : ImportCounts) : ImportCounts :=
  mkCounts (rows_total c) (rows_skipped c) (rows_processed c) (stringunits_created c) (stringunits_updated c) (S (locales_created c)) (locales_updated c) (translations_created c) (translations_updated c).

Definition bump_locales_updated (c : ImportCounts) : ImportCounts :=
  mkCounts (rows_total c) (rows_skipped c) (rows_processed c) (stringunits_created c) (stringunits_updated c) (locales_created c) (S (locales_updated c)) (translations_created c) (translations_updated c).

Definition bump_translations_created (c : ImportCounts) : ImportCounts :=
  mkCounts (rows_total c) (rows_skipped c) (rows_processed c) (stringunits_created c) (stringunits_updated c) (locales_created c) (locales_updated c) (S (translations_created c)) (translations_updated c).

Definition bump_translations_updated (c : ImportCounts) : ImportCounts :=
  mkCounts (rows_total c) (rows_skipped c) (rows_processed c) (stringunits_created c) (stringunits_updated c) (locales_created c) (locales_updated c) (translations_created c) (S (translations_updated c)).

Definition find_locale_code (code : string) (locs : list Locale) : option Locale :=
  find (fun l => String.eqb (l_code l) code) locs.

Definition fresh_locale_pk (locs : list Locale) : positive :=
  Pos.succ (fold_left (fun m l => Pos.max m (l_pk l)) locs 1%positive).

(** [locale.save()]: the row with the same primary key is overwritten. *)
Definition write_locale (loc : Locale) (locs : list Locale) : list Locale :=
  map (fun l => if Pos.eqb (l_pk l) (l_pk loc) then loc else l) locs.

(** [_upsert_locale]: the Locale table is threaded through; the result is
    the locale instance, the counters and the table. *)
Definition _upsert_locale (legacy_column : string) (counts : ImportCounts) (locs : list Locale)
  : sum ImportError (Locale * ImportCounts * list Locale) :=
  let legacy_exact := strip legacy_column in
  if String.eqb legacy_exact EmptyString then inl err_empty_locale_column else
  let legacy_lower := lower_str legacy_exact in
  let cb :=
    if String.eqb legacy_lower "zh" then Some ("zh-hans", "zh-Hans")
    else if String.eqb legacy_lower "cz" then Some ("cs", "cs")
    else let code := _normalize_code legacy_exact in
         if String.eqb code EmptyString then None else Some (code, code) in
  match cb with
  | None => inl (err_invalid_locale_column legacy_column)
  | Some (code, bcp47) =>
      let name :=
        match dict_get_str code COMMON_LOCALE_NAMES with
        | Some n => if String.eqb n EmptyString then upper_str code else n
        | None => upper_str code
        end in
      let is_rtl := AdminMore.str_in legacy_lower RTL_LEGACY_COLUMNS in
      match find_locale_code code locs with
      | None =>
          let loc := mkLocale (fresh_locale_pk locs) code bcp47 name None is_rtl true
                       (Some legacy_exact) in
          inr (loc, bump_locales_created counts, app locs [loc])
      | Some loc =>
          let c1 := is_blank (or_empty (l_legacy_column loc)) in
          let c2 := is_blank (l_bcp47 loc) in
          let c3 := is_blank (l_name loc) || String.eqb (l_name loc) (upper_str (l_code loc)) in
          let c4 := is_rtl && negb (l_is_rtl loc) in
          let loc' := mkLocale (l_pk loc) (l_code loc)
                        (if c2 then bcp47 else l_bcp47 loc)
                        (if c3 then name else l_name loc)
                        (l_script loc)
                        (if c4 then true else l_is_rtl loc)
                        (l_enabled loc)
                        (if c1 then Some legacy_exact else l_legacy_column loc) in
          if c1 || c2 || c3 || c4
          then inr (loc', bump_locales_updated counts, write_locale loc' locs)
          else inr (loc, counts, locs)
      end
  end.

(** Lookup in a dict built by successive assignments: the last one wins. *)
Definition last_get {V : Type} (k : string) (d : list (string * V)) : option V :=
  fold_left (fun acc kv => if String.eqb (fst kv) k then Some (snd kv) else acc) d None.

(** [_resolve_required_keys]; the result is
    [(location_key, id_key, en_key, est_key)]. *)
Definition _resolve_required_keys (fieldnames : list string)
  : sum ImportError (string * string * string * string) :=
  let by_lower := map (fun name => (lower_str (strip name), name)) fieldnames in
  match last_get "location" by_lower, last_get "id" by_lower, last_get "est" by_lower with
  | Some location_key, Some id_key, Some est_key =>
      let en_key :=
        match last_get "en" by_lower with
        | Some e => if String.eqb e EmptyString then None else Some e
        | None => None
        end in
      let en_key :=
        match en_key with
        | Some e => Some e
        | None => find (fun name => String.eqb (lower_str (strip (_extract_locale_code name))) "en")
                    fieldnames
        end in
      match en_key with
      | Some e =>
          if String.eqb e EmptyString then inl err_missing_english
          else inr (location_key, id_key, e, est_key)
      | None => inl err_missing_english
      end
  | _, _, _ => inl err_missing_required
  end.

(** A [csv.DictReader] row: [dict(zip(fieldnames, row))], then the missing
    trailing keys set to [restval = None]; extra values go under the key
    [None], which no string lookup sees. *)
Definition dict_row (fieldnames row : list string) : list (string * option string) :=
  app (combine fieldnames (map Some row)) (map (fun k => (k, None)) (skipn (length row) fieldnames)).

(** [row.get(k)] *)
Definition row_get (d : list (string * option string)) (k : string) : option string :=
  match last_get k d with Some v => v | None => None end.

Record IState := mkIState {
  st_db : DB;
  st_locales : list Locale;
  st_counts : ImportCounts
}.

Definition with_counts (st : IState) (c : ImportCounts) : IState :=
  mkIState (st_db st) (st_locales st) c.

Definition find_unit_key (location message_id : string) (db : DB) : option StringUnit :=
  find (fun u => String.eqb (su_location u) location && String.eqb (su_message_id u) message_id)
    (db_units db).

Definition fresh_unit_pk (db : DB) : positive :=
  Pos.succ (fold_left (fun m u => match su_pk u with Some p => Pos.max m p | None => m end)
              (db_units db) 1%positive).

(** The instance after [StringUnit.save()], which sets [self.source_hash]. *)
Definition unit_after_save (u : StringUnit) : StringUnit :=
  mkStringUnit (su_pk u) (su_location u) (su_message_id u) (su_source_text u)
    (su_source_updated_on u) (compute_source_hash (Some (su_source_text u))).

(** [StringUnit.objects.get_or_create(location=..., message_id=..., defaults=...)]
    and the update of an existing unit; a created unit gets the next
    primary key. *)
Definition import_unit (location message_id source_text source_updated_on : string)
  (st : IState) : StringUnit * IState :=
  let db := st_db st in
  match find_unit_key location message_id db with
  | None =>
      let u := mkStringUnit (Some (fresh_unit_pk db)) location message_id source_text
                 source_updated_on EmptyString in
      (unit_after_save u,
       mkIState (stringunit_save u db) (st_locales st) (bump_stringunits_created (st_counts st)))
  | Some u =>
      let c1 := negb (String.eqb (su_source_text u) source_text) in
      let c2 := negb (String.eqb (su_source_updated_on u) source_updated_on) in
      if c1 || c2 then
        let u' := mkStringUnit (su_pk u) (su_location u) (su_message_id u)
                    (if c1 then source_text else su_source_text u)
                    (if c2 then source_updated_on else su_source_updated_on u)
                    (su_source_hash u) in
        (unit_after_save u',
         mkIState (stringunit_save u' db) (st_locales st) (bump_stringunits_updated (st_counts st)))
      else (u, st)
  end.

(** [if not string_unit.source_hash: string_unit.save(update_fields=["source_hash"])];
    the instance's other columns equal the stored row's. *)
Definition ensure_hash (p : StringUnit * IState) : StringUnit * IState :=
  let (u, st) := p in
  if String.eqb (su_source_hash u) EmptyString
  then (unit_after_save u, mkIState (stringunit_save u (st_db st)) (st_locales st) (st_counts st))
  else (u, st).

Definition opt_str_eqb (a b : option string) : bool :=
  match a, b with
  | Some x, Some y => String.eqb x y
  | None, None => true
  | _, _ => false
  end.

(** One non-blank cell: [Translation.objects.get_or_create(string_unit=..., locale=...)]
    and the restricted update of an existing translation. *)
Definition import_cell (now : Z) (su : StringUnit) (locale_pk : positive) (cell_text : string)
  (st : IState) : sum ImportError IState :=
  match su_pk su with
  | None => inl err_save_failed
  | Some sp =>
      let db := st_db st in
      match find (fun t => Pos.eqb (t_string_unit t) sp && Pos.eqb (t_locale t) locale_pk)
              (db_translations db) with
      | None =>
          let t := mkTranslation None sp locale_pk (Some cell_text) None None [] APPROVED IMPORTED
                     (su_source_hash su) None 0 in
          match translation_save now None t db with
          | Some (_, db') => inr (mkIState db' (st_locales st) (bump_translations_created (st_counts st)))
          | None => inl err_save_failed
          end
      | Some tr =>
          let f1 := negb (opt_str_eqb (t_approved_text tr) (Some cell_text)) in
          let f2 := negb (status_eqb (t_status tr) APPROVED) in
          let f3 := negb (provenance_eqb (t_provenance tr) IMPORTED) in
          let f4 := negb (String.eqb (t_source_hash_at_last_update tr) (su_source_hash su)) in
          let f5 := match t_reviewer tr with Some _ => true | None => false end in
          let update_fields :=
            app (if f1 then [F_approved_text] else [])
            (app (if f2 then [F_status] else [])
            (app (if f3 then [F_provenance] else [])
            (app (if f4 then [F_source_hash_at_last_update] else [])
                 (if f5 then [F_reviewer] else [])))) in
          let tr' := mkTranslation (t_pk tr) (t_string_unit tr) (t_locale tr)
                       (if f1 then Some cell_text else t_approved_text tr)
                       (t_reviewer_text tr) (t_machine_draft tr) (t_qa_flags tr)
                       (if f2 then APPROVED else t_status tr)
                       (if f3 then IMPORTED else t_provenance tr)
                       (if f4 then su_source_hash su else t_source_hash_at_last_update tr)
                       (if f5 then None else t_reviewer tr)
                       (t_updated_at tr) in
          match update_fields with
          | [] => inr st
          | _ =>
              match translation_save now (Some update_fields) tr' db with
              | Some (_, db') =>
                  inr (mkIState db' (st_locales st) (bump_translations_updated (st_counts st)))
              | None => inl err_save_failed
              end
          end
      end
  end.

(** The loop over [locale_headers] for one row; [locales_by_header] always
    has the header (a missing one would raise [KeyError]). *)
Fixpoint import_cells (now : Z) (su : StringUnit) (locale_headers : list string)
  (locales_by_header : list (string * Locale)) (d : list (string * option string)) (st : IState)
  : sum ImportError IState :=
  match locale_headers with
  | [] => inr st
  | header :: hs =>
      let cell_text := _strip_trailing_newlines (row_get d header) in
      if is_blank cell_text then import_cells now su hs locales_by_header d st
      else match last_get header locales_by_header with
           | None => inl err_save_failed
           | Some loc =>
               let* st' := import_cell now su (l_pk loc) cell_text st in
               import_cells now su hs locales_by_header d st'
           end
  end.

(** The keys [(location_key, id_key, en_key, est_key)]. *)
Record Keys := mkKeys { k_location : string; k_id : string; k_en : string; k_est : string }.

(** [for row in reader: ...]; [csv.DictReader] skips empty records. *)
Fixpoint import_rows (now : Z) (limit : option Z) (keys : Keys) (raw_fieldnames : list string)
  (locale_headers : list string) (locales_by_header : list (string * Locale))
  (rows : list (list string)) (st : IState) : sum ImportError IState :=
  match rows with
  | [] => inr st
  | [] :: rest => import_rows now limit keys raw_fieldnames locale_headers locales_by_header rest st
  | row :: rest =>
      let st := with_counts st (bump_rows_total (st_counts st)) in
      let d := dict_row raw_fieldnames row in
      let location := strip (or_empty (row_get d (k_location keys))) in
      let message_id := strip (or_empty (row_get d (k_id keys))) in
      if String.eqb location EmptyString || String.eqb message_id EmptyString
      then import_rows now limit keys raw_fieldnames locale_headers locales_by_header rest
             (with_counts st (bump_rows_skipped (st_counts st)))
      else if match limit with
              | Some n => Z.leb n (Z.of_nat (rows_processed (st_counts st)))
              | None => false
              end
      then inr st
      else
        let source_text := _strip_trailing_newlines (row_get d (k_en keys)) in
        let source_updated_on := or_empty (row_get d (k_est keys)) in
        let (su, st1) := ensure_hash (import_unit location message_id source_text source_updated_on st) in
        let* st2 := import_cells now su locale_headers locales_by_header d st1 in
        import_rows now limit keys raw_fieldnames locale_headers locales_by_header rest
          (with_counts st2 (bump_rows_processed (st_counts st2)))
  end.

(** [for header in locale_headers: locales_by_header[header] = _upsert_locale(...)] *)
Fixpoint upsert_all (headers : list string) (counts : ImportCounts) (locs : list Locale)
  (locales_by_header : list (string * Locale))
  : sum ImportError (ImportCounts * list Locale * list (string * Locale)) :=
  match headers with
  | [] => inr (counts, locs, locales_by_header)
  | header :: hs =>
      match _upsert_locale (_extract_locale_code header) counts locs with
      | inl e => inl e
      | inr (loc, counts', locs') => upsert_all hs counts' locs' (app locales_by_header [(header, loc)])
      end
  end.

(** [Command.handle] at time [now]. [records] is the file parsed by
    [csv.reader] ([None]: no such file). The body runs in
    [transaction.atomic()]: an error leaves the tables unchanged, and a dry
    run rolls back. Returns the counters and the tables. *)
Definition handle (now : Z) (records : option (list (list string))) (dry_run : bool)
  (limit : option Z) (db : DB) (locs : list Locale)
  : sum ImportError (ImportCounts * DB * list Locale) :=
  if match limit with Some n => Z.ltb n 0 | None => false end then inl err_limit_negative else
  match records with
  | None => inl err_file_not_found
  | Some [] | Some ([] :: _) => inl err_no_header
  | Some (raw_fieldnames :: rows) =>
      let fieldnames := map strip raw_fieldnames in
      let* ks := _resolve_required_keys fieldnames in
      let '(location_key, id_key, en_key, est_key) := ks in
      let locale_headers :=
        filter (fun name => negb (String.eqb name EmptyString) &&
                            negb (AdminMore.str_in name [location_key; id_key; en_key; est_key]))
          fieldnames in
      let* r := upsert_all locale_headers zero_counts locs [] in
      let '(counts, locs1, locales_by_header) := r in
      let* st := import_rows now limit (mkKeys location_key id_key en_key est_key) raw_fieldnames
                   locale_headers locales_by_header rows (mkIState db locs1 counts) in
      if dry_run then inr (st_counts st, db, locs)
      else inr (st_counts st, st_db st, st_locales st)
  end.

End ImportCmd.

Module ImportCmdFacts.
Import ImportCsv ImportCsvFacts ImportCmd.

(** *** [_upsert_locale] *)

(** What [_upsert_locale] promises about an existing locale [old] when it
    returns [new]: the row keeps its identity, script and enabled flag,
    [is_rtl] is never cleared, and a non-blank [legacy_column], [bcp47] or
    a name other than [code.upper()] is left alone. *)
Definition keeps_manual_edits (old new : Locale) : Prop :=
  l_pk new = l_pk old /\ l_code new = l_code old /\
  l_script new = l_script old /\ l_enabled new = l_enabled old /\
  (l_is_rtl old = true -> l_is_rtl new = true) /\
  (is_blank (or_empty (l_legacy_column old)) = false -> l_legacy_column new = l_legacy_column old) /\
  (is_blank (l_bcp47 old) = false -> l_bcp47 new = l_bcp47 old) /\
  (is_blank (l_name old) = false -> l_name old <> upper_str (l_code old) -> l_name new = l_name old).

Lemma find_write_locale (code : string) (old loc : Locale) (locs : list Locale) :
  find_locale_code code locs = Some old -> l_pk loc = l_pk old -> l_code loc = code ->
  find_locale_code code (write_locale loc locs) = Some loc.
Proof.
  unfold find_locale_code, write_locale. intros H Hpk Hc.
  induction locs as [|a locs IH]; simpl in *; [discriminate|].
  destruct (Pos.eqb (l_pk a) (l_pk loc)) eqn:Ep; simpl.
  - rewrite Hc, String.eqb_refl. reflexivity.
  - destruct (String.eqb (l_code a) code) eqn:Ea.
    + injection H as <-. rewrite Hpk, Pos.eqb_refl in Ep. discriminate.
    + exact (IH H).
Qed.

Lemma find_locale_code_code (code : string) (old : Locale) (locs : list Locale) :
  find_locale_code code locs = Some old -> l_code old = code.
Proof. intros H. apply find_some in H as [_ H]. apply String.eqb_eq, H. Qed.

Ltac upsert_tail :=
  lazymatch goal with
  | H : context [find_locale_code ?code ?locs] |- _ =>
      let Ef := fresh "Ef" in
      destruct (find_locale_code code locs) as [old|] eqn:Ef;
      [ pose proof (find_locale_code_code _ _ _ Ef) as Ec;
        match type of H with
        | (if ?b then _ else _) = _ => destruct b eqn:Eb
        end;
        injection H as <- <- <-; cbn [l_code l_pk]; rewrite ?Ec;
        (split; [assumption|]);
        [ (split; [apply (find_write_locale _ old); [exact Ef | reflexivity | reflexivity]|])
        | (split; [exact Ef|]) ];
        (split; [|intros Hn'; rewrite Ef in Hn'; discriminate Hn']);
        intros old' Ef'; rewrite Ef in Ef'; injection Ef' as <-;
        unfold keeps_manual_edits;
        cbn [l_pk l_code l_script l_enabled l_is_rtl l_legacy_column l_bcp47 l_name];
        rewrite ?Ec;
        [ split; [reflexivity|]; split; [reflexivity|]; split; [reflexivity|];
          split; [reflexivity|];
          split; [intros Hr; rewrite Hr, andb_false_r; reflexivity|];
          split; [intros Hb; rewrite Hb; reflexivity|];
          split; [intros Hb; rewrite Hb; reflexivity|];
          intros Hb Hne; rewrite ?Ec in Hne; apply String.eqb_neq in Hne; rewrite Hb, Hne; reflexivity
        | repeat split; intros; first [reflexivity | assumption] ]
      | injection H as <- <- <-; cbn [l_code l_enabled l_legacy_column];
        (split; [assumption|]);
        (split; [unfold find_locale_code in *; apply find_app_none;
                 [apply find_none_all; exact Ef | apply String.eqb_refl]|]);
        (split; [intros old' Ef'; rewrite Ef in Ef'; discriminate Ef'|]);
        intros _; repeat split ]
  end.

(** [_upsert_locale] returns a locale whose code is normal and is the one
    the table now holds under that code; an existing locale keeps its
    manual edits, and a new one is enabled and remembers the stripped
    column name. *)
Theorem upsert_locale_success (s : string) (counts counts' : ImportCounts) (locs locs' : list Locale)
  (loc : Locale) :
  _upsert_locale s counts locs = inr (loc, counts', locs') ->
  code_normal (l_code loc) = true /\
  find_locale_code (l_code loc) locs' = Some loc /\
  (forall old, find_locale_code (l_code loc) locs = Some old -> keeps_manual_edits old loc) /\
  (find_locale_code (l_code loc) locs = None ->
   locs' = app locs [loc] /\ l_enabled loc = true /\ l_legacy_column loc = Some (strip s)).
Proof.
  intros H. unfold _upsert_locale in H. cbv zeta in H.
  destruct (String.eqb (strip s) EmptyString); [discriminate H|].
  destruct (String.eqb (lower_str (strip s)) "zh").
  { assert (Hn : code_normal "zh-hans" = true) by reflexivity. upsert_tail. }
  destruct (String.eqb (lower_str (strip s)) "cz").
  { assert (Hn : code_normal "cs" = true) by reflexivity. upsert_tail. }
  destruct (String.eqb (_normalize_code (strip s)) EmptyString); [discriminate H|].
  pose proof (normalize_code_is_normal (strip s)) as Hn. upsert_tail.
Qed.

(** [_upsert_locale] fails only on a blank column name, or on one that
    [_normalize_code] maps to the empty code. *)
Theorem upsert_locale_errors (s : string) (counts : ImportCounts) (locs : list Locale)
  (e : ImportError) :
  _upsert_locale s counts locs = inl e ->
  (is_blank s = true /\ e = err_empty_locale_column) \/
  (is_blank s = false /\ _normalize_code (strip s) = EmptyString /\ e = err_invalid_locale_column s).
Proof.
  intros H. unfold _upsert_locale in H. cbv zeta in H. unfold is_blank.
  destruct (String.eqb (strip s) EmptyString).
  { left. injection H as <-. split; reflexivity. }
  right.
  destruct (String.eqb (lower_str (strip s)) "zh");
    [destruct (find_locale_code _ _); [destruct (_ || _ || _ || _)|]; discriminate H|].
  destruct (String.eqb (lower_str (strip s)) "cz");
    [destruct (find_locale_code _ _); [destruct (_ || _ || _ || _)|]; discriminate H|].
  destruct (String.eqb (_normalize_code (strip s)) EmptyString) eqn:En.
  - injection H as <-. apply String.eqb_eq in En. split; [reflexivity|]. split; [exact En | reflexivity].
  - destruct (find_locale_code _ _); [destruct (_ || _ || _ || _)|]; discriminate H.
Qed.

(** *** [_resolve_required_keys] *)

Lemma last_get_in {V : Type} (k : string) (d : list (string * V)) (acc : option V) (v : V) :
  fold_left (fun acc kv => if String.eqb (fst kv) k then Some (snd kv) else acc) d acc = Some v ->
  acc = Some v \/ In (k, v) d.
Proof.
  revert acc. induction d as [|[k' v'] d IH]; intros acc H; simpl in *; [left; exact H|].
  destruct (IH _ H) as [E|E]; [|right; right; exact E].
  destruct (String.eqb k' k) eqn:Ek; [|left; exact E].
  apply String.eqb_eq in Ek. injection E as <-. subst k'. right. left. reflexivity.
Qed.

Lemma last_get_some {V : Type} (k : string) (d : list (string * V)) (v : V) :
  last_get k d = Some v -> In (k, v) d.
Proof. intros H. destruct (last_get_in k d None v H) as [E|E]; [discriminate E | exact E]. Qed.

Lemma by_lower_in (fieldnames : list string) (k v : string) :
  last_get k (map (fun name => (lower_str (strip name), name)) fieldnames) = Some v ->
  In v fieldnames /\ lower_str (strip v) = k.
Proof.
  intros H. apply last_get_some, in_map_iff in H as [x [Ex Hx]]. injection Ex as <- <-.
  split; [exact Hx | reflexivity].
Qed.

Lemma last_get_none {V : Type} (k : string) (d : list (string * V)) :
  (forall kv, In kv d -> fst kv <> k) -> last_get k d = None.
Proof.
  unfold last_get.
  assert (G : forall acc, (forall kv, In kv d -> fst kv <> k) ->
            fold_left (fun acc kv => if String.eqb (fst kv) k then Some (snd kv) else acc) d acc = acc).
  { induction d as [|kv d IH]; intros acc Hd; simpl; [reflexivity|].
    destruct (String.eqb (fst kv) k) eqn:E.
    - apply String.eqb_eq in E. exfalso. exact (Hd kv (or_introl eq_refl) E).
    - apply IH. intros kv' H'. apply Hd. right. exact H'. }
  intros Hd. apply G, Hd.
Qed.

(** The keys [_resolve_required_keys] returns are header names whose
    stripped, lower-cased form is [location], [id] and [est]; the English
    key is a non-empty header that is [en] itself or carries the code
    [en]. *)
Theorem resolve_required_keys_spec (fieldnames : list string) (lk ik ek sk : string)
  (H : _resolve_required_keys fieldnames = inr (lk, ik, ek, sk)) :
  In lk fieldnames /\ lower_str (strip lk) = "location" /\
  In ik fieldnames /\ lower_str (strip ik) = "id" /\
  In sk fieldnames /\ lower_str (strip sk) = "est" /\
  In ek fieldnames /\ ek <> EmptyString /\
  (lower_str (strip ek) = "en" \/ lower_str (strip (_extract_locale_code ek)) = "en").
Proof.
  unfold _resolve_required_keys in H. cbv zeta in H.
  destruct (last_get "location" _) as [l|] eqn:El; [|discriminate H].
  destruct (last_get "id" _) as [i|] eqn:Ei; [|discriminate H].
  destruct (last_get "est" _) as [t|] eqn:Et; [|discriminate H].
  apply by_lower_in in El as [El1 El2]. apply by_lower_in in Ei as [Ei1 Ei2].
  apply by_lower_in in Et as [Et1 Et2].
  assert (Hen : forall e, (match (match last_get "en" (map (fun name => (lower_str (strip name), name)) fieldnames) with
                 | Some e => if String.eqb e EmptyString then None else Some e
                 | None => None end) with
                 | Some e => Some e
                 | None => find (fun name => String.eqb (lower_str (strip (_extract_locale_code name))) "en")
                             fieldnames end) = Some e ->
               In e fieldnames /\
               (lower_str (strip e) = "en" \/ lower_str (strip (_extract_locale_code e)) = "en")).
  { intros e He. destruct (last_get "en" _) as [e0|] eqn:E0.
    - apply by_lower_in in E0 as [E1 E2]. destruct (String.eqb e0 EmptyString).
      + apply find_some in He as [He1 He2]. apply String.eqb_eq in He2. auto.
      + injection He as <-. auto.
    - apply find_some in He as [He1 He2]. apply String.eqb_eq in He2. auto. }
  destruct (match _ with Some e => Some e | None => _ end) as [e|] eqn:Ee; [|discriminate H].
  destruct (String.eqb e EmptyString) eqn:Ez; [discriminate H|].
  injection H as <- <- <- <-. destruct (Hen e eq_refl) as [He1 He2].
  apply String.eqb_neq in Ez. repeat split; assumption.
Qed.

(** If no header strips and lower-cases to [location], [id] or [est], the
    command stops with the missing-columns error. *)
Theorem resolve_required_keys_missing (fieldnames : list string) (k : string)
  (Hk : In k ["location"; "id"; "est"])
  (Hnone : forall name, In name fieldnames -> lower_str (strip name) <> k) :
  _resolve_required_keys fieldnames = inl err_missing_required.
Proof.
  assert (G : last_get k (map (fun name => (lower_str (strip name), name)) fieldnames) = None).
  { apply last_get_none. intros kv Hkv. apply in_map_iff in Hkv as [x [<- Hx]]. exact (Hnone x Hx). }
  unfold _resolve_required_keys. cbv zeta.
  destruct Hk as [<-|[<-|[<-|[]]]]; rewrite G;
    [reflexivity | destruct (last_get "location" (map (fun name => (lower_str (strip name), name)) fieldnames)); reflexivity |
     destruct (last_get "location" (map (fun name => (lower_str (strip name), name)) fieldnames)),
       (last_get "id" (map (fun name => (lower_str (strip name), name)) fieldnames)); reflexivity].
Qed.

End ImportCmdFacts.

Module ImportHandleFacts.
Import ImportCsv ImportCmd.

(** *** What the import never changes in an existing translation *)

(** The columns the import does not write: [reviewer_text],
    [machine_draft], [updated_at] and the two foreign keys. *)
Definition untouched (t t' : Translation) : Prop :=
  t_reviewer_text t' = t_reviewer_text t /\ t_machine_draft t' = t_machine_draft t /\
  t_updated_at t' = t_updated_at t /\ t_string_unit t' = t_string_unit t /\
  t_locale t' = t_locale t.

(** Every translation of [db] is still there in [db'], with the same
    untouched columns. *)
Definition keeps (db db' : DB) : Prop :=
  forall p t, find_translation db p = Some t ->
  exists t', find_translation db' p = Some t' /\ untouched t t'.

Lemma keeps_refl (db : DB) : keeps db db.
Proof. intros p t H. exists t. split; [exact H|]. repeat split. Qed.

Lemma keeps_trans (a b c : DB) : keeps a b -> keeps b c -> keeps a c.
Proof.
  intros H1 H2 p t Ht. destruct (H1 p t Ht) as [t1 [Ht1 U1]]. destruct (H2 p t1 Ht1) as [t2 [Ht2 U2]].
  exists t2. split; [exact Ht2|]. unfold untouched in *. intuition congruence.
Qed.

Lemma keeps_stringunit_save (u : StringUnit) (db : DB) : keeps db (stringunit_save u db).
Proof.
  intros p t Ht. unfold stringunit_save, find_translation. cbn [db_translations].
  destruct (su_pk u) as [q|]; [|exists t; split; [exact Ht | repeat split]].
  destruct (truthy _ && _); [|exists t; split; [exact Ht | repeat split]].
  unfold mark_stale. rewrite AdminMoreFacts.find_map_gen.
  rewrite (AdminMoreFacts.find_ext_gen _ (fun t => pk_eqb (t_pk t) p))
    by (intros x; destruct (_ && _); reflexivity).
  unfold find_translation in Ht. rewrite Ht. cbn [option_map].
  eexists. split; [reflexivity|].
  destruct (_ && _); repeat split.
Qed.

Lemma find_app_some {A} (f : A -> bool) (l m : list A) (x : A) :
  find f l = Some x -> find f (app l m) = Some x.
Proof. induction l as [|y l IH]; simpl; [discriminate|]. destruct (f y); [exact (fun h => h) | exact IH]. Qed.

Lemma keeps_translation_create (now : Z) (t o : Translation) (db db' : DB) :
  t_pk t = None -> translation_save now None t db = Some (o, db') -> keeps db db'.
Proof.
  intros Hpk H. unfold translation_save, django_save in H. cbn [option_map] in H.
  cbn [t_pk with_updated_at refresh_qa_flags with_qa_flags] in H. rewrite Hpk in H.
  injection H as _ <-. intros p x Hx. exists x. split; [|repeat split].
  unfold find_translation in *. cbn [db_translations]. apply find_app_some, Hx.
Qed.

Definition import_fields : list TField :=
  [F_approved_text; F_status; F_provenance; F_source_hash_at_last_update; F_reviewer].

Lemma in_fields_add_qa_flags (fs : list TField) (f : TField) :
  in_fields (add_qa_flags fs) f = true -> In f fs \/ f = F_qa_flags.
Proof.
  unfold in_fields, add_qa_flags. destruct (in_dec tfield_eq_dec f _) as [Hin|]; [|discriminate].
  intros _. apply nodup_In, in_app_iff in Hin as [Hin|[<-|[]]]; [left; exact Hin | right; reflexivity].
Qed.

Lemma not_in_add_qa_flags (fs : list TField) (f : TField) :
  (forall g, In g fs -> In g import_fields) -> ~ In f import_fields -> f <> F_qa_flags ->
  in_fields (add_qa_flags fs) f = false.
Proof.
  intros Hfs Hf Hq. destruct (in_fields (add_qa_flags fs) f) eqn:E; [|reflexivity].
  destruct (in_fields_add_qa_flags fs f E) as [H|H]; [exfalso; exact (Hf (Hfs f H)) | congruence].
Qed.

Lemma translation_save_restricted_found (now : Z) (fs : list TField) (self o : Translation) (db db' : DB) :
  translation_save now (Some fs) self db = Some (o, db') ->
  exists p row, t_pk self = Some p /\ find_translation db p = Some row.
Proof.
  intros H. unfold translation_save, django_save in H. cbn [option_map] in H.
  destruct (add_qa_flags fs) as [|f0 fs0] eqn:Efs.
  { pose proof (add_qa_flags_in fs) as X. rewrite Efs in X. discriminate. }
  rewrite <- Efs in H.
  destruct (in_fields (add_qa_flags fs) F_updated_at);
    cbn [t_pk with_updated_at refresh_qa_flags with_qa_flags] in H;
    (destruct (t_pk self) as [p|]; [|discriminate H]);
    (destruct (find_translation db p) as [row|] eqn:Er; [|discriminate H]); eauto.
Qed.

Lemma keeps_translation_restricted (now : Z) (fs : list TField) (self o : Translation) (db db' : DB) :
  (forall g, In g fs -> In g import_fields) ->
  translation_save now (Some fs) self db = Some (o, db') -> keeps db db'.
Proof.
  intros Hfs H.
  destruct (translation_save_restricted_found now fs self o db db' H) as [p [row [Hp Hrow]]].
  destruct (translation_save_restricted_spec now fs self db p row Hp Hrow)
    as [obj' [db'' [Hs [_ [Hfp [Hq _]]]]]].
  rewrite H in Hs. injection Hs as _ <-.
  intros q t Ht. destruct (Pos.eq_dec p q) as [<-|Hne].
  - rewrite Hrow in Ht. injection Ht as <-. eexists. split; [exact Hfp|].
    unfold merge_fields, untouched. cbn [t_reviewer_text t_machine_draft t_updated_at t_string_unit t_locale].
    rewrite !(not_in_add_qa_flags fs) by (assumption || (cbn; intuition discriminate) || discriminate).
    repeat split.
  - rewrite (Hq q Hne). exists t. split; [exact Ht | repeat split].
Qed.

Lemma import_fields_ok (b1 b2 b3 b4 b5 : bool) :
  forall g, In g (app (if b1 then [F_approved_text] else [])
                 (app (if b2 then [F_status] else [])
                 (app (if b3 then [F_provenance] else [])
                 (app (if b4 then [F_source_hash_at_last_update] else [])
                      (if b5 then [F_reviewer] else []))))) -> In g import_fields.
Proof.
  intros g. destruct b1, b2, b3, b4, b5; cbn; unfold import_fields; cbn; intuition.
Qed.

Lemma keeps_import_cell (now : Z) (su : StringUnit) (lp : positive) (cell : string) (st st' : IState) :
  import_cell now su lp cell st = inr st' -> keeps (st_db st) (st_db st').
Proof.
  intros H. unfold import_cell in H. cbv zeta in H.
  destruct (su_pk su) as [sp|]; [|discriminate H].
  destruct (find _ (db_translations (st_db st))) as [tr|].
  - lazymatch type of H with
    | context [app (if ?b1 then [F_approved_text] else [])
                 (app (if ?b2 then [F_status] else [])
                 (app (if ?b3 then [F_provenance] else [])
                 (app (if ?b4 then [F_source_hash_at_last_update] else [])
                      (if ?b5 then [F_reviewer] else []))))] =>
        pose proof (import_fields_ok b1 b2 b3 b4 b5) as Hok;
        destruct (app (if b1 then [F_approved_text] else [])
                 (app (if b2 then [F_status] else [])
                 (app (if b3 then [F_provenance] else [])
                 (app (if b4 then [F_source_hash_at_last_update] else [])
                      (if b5 then [F_reviewer] else []))))) as [|f0 fs0] eqn:Efs
    end.
    + injection H as <-. apply keeps_refl.
    + lazymatch type of H with
      | context [translation_save ?n (Some ?fs) ?t ?d] =>
          destruct (translation_save n (Some fs) t d) as [[o d']|] eqn:Es; [|discriminate H]
      end.
      injection H as <-. cbn [st_db]. exact (keeps_translation_restricted _ _ _ _ _ _ Hok Es).
  - lazymatch type of H with
    | context [translation_save ?n None ?t ?d] =>
        destruct (translation_save n None t d) as [[o d']|] eqn:Es; [|discriminate H]
    end.
    injection H as <-. cbn [st_db]. eapply keeps_translation_create; [|exact Es]; reflexivity.
Qed.

Lemma keeps_import_cells (now : Z) (su : StringUnit) (hs : list string) (lbh : list (string * Locale))
  (d : list (string * option string)) (st st' : IState) :
  import_cells now su hs lbh d st = inr st' -> keeps (st_db st) (st_db st').
Proof.
  revert st. induction hs as [|h hs IH]; intros st H; cbn [import_cells] in H.
  - injection H as <-. apply keeps_refl.
  - destruct (is_blank _); [exact (IH st H)|].
    destruct (last_get h lbh) as [loc|]; [|discriminate H].
    unfold res_bind in H. destruct (import_cell now su (l_pk loc) _ st) as [e|st1] eqn:E; [discriminate H|].
    exact (keeps_trans _ _ _ (keeps_import_cell _ _ _ _ _ _ E) (IH st1 H)).
Qed.

Lemma keeps_import_unit (a b c d0 : string) (st : IState) :
  keeps (st_db st) (st_db (snd (ensure_hash (import_unit a b c d0 st)))).
Proof.
  assert (G : keeps (st_db st) (st_db (snd (import_unit a b c d0 st)))).
  { unfold import_unit. cbv zeta. destruct (find_unit_key a b (st_db st));
      [destruct (_ || _)|]; cbn [snd st_db]; apply keeps_stringunit_save || apply keeps_refl. }
  destruct (import_unit a b c d0 st) as [u st1]. cbn [snd] in G. unfold ensure_hash.
  destruct (String.eqb (su_source_hash u) EmptyString); cbn [snd st_db]; [|exact G].
  exact (keeps_trans _ _ _ G (keeps_stringunit_save _ _)).
Qed.

Lemma keeps_import_rows (now : Z) (limit : option Z) (keys : Keys) (raw : list string)
  (hs : list string) (lbh : list (string * Locale)) (rows : list (list string)) (st st' : IState) :
  import_rows now limit keys raw hs lbh rows st = inr st' -> keeps (st_db st) (st_db st').
Proof.
  revert st. induction rows as [|row rows IH]; intros st H; cbn [import_rows] in H.
  - injection H as <-. apply keeps_refl.
  - destruct row as [|c0 row']; [exact (IH st H)|]. cbv zeta in H.
    destruct (_ || _); [exact (IH _ H)|].
    destruct (match limit with Some n => _ | None => false end); [injection H as <-; apply keeps_refl|].
    pose proof (keeps_import_unit
      (strip (or_empty (row_get (dict_row raw (c0 :: row')) (k_location keys))))
      (strip (or_empty (row_get (dict_row raw (c0 :: row')) (k_id keys))))
      (_strip_trailing_newlines (row_get (dict_row raw (c0 :: row')) (k_en keys)))
      (or_empty (row_get (dict_row raw (c0 :: row')) (k_est keys)))
      (with_counts st (bump_rows_total (st_counts st)))) as G.
    destruct (ensure_hash _) as [su st1]. cbn [snd] in G.
    unfold res_bind in H. destruct (import_cells _ _ _ _ _ st1) as [e|st2] eqn:E; [discriminate H|].
    exact (keeps_trans _ _ _ G (keeps_trans _ _ _ (keeps_import_cells _ _ _ _ _ _ _ E) (IH _ H))).
Qed.

(** The import never changes the reviewer text, the machine draft, the
    [updated_at] time or the foreign keys of a translation that was in the
    table: its restricted saves leave these columns out, and [auto_now]
    only fires for a saved [updated_at]. *)
Theorem import_keeps_reviewer_work (now : Z) (records : option (list (list string))) (dry_run : bool)
  (limit : option Z) (db db' : DB) (locs locs' : list Locale) (c : ImportCounts)
  (H : handle now records dry_run limit db locs = inr (c, db', locs')) :
  forall p t, find_translation db p = Some t ->
  exists t', find_translation db' p = Some t' /\
    t_reviewer_text t' = t_reviewer_text t /\ t_machine_draft t' = t_machine_draft t /\
    t_updated_at t' = t_updated_at t /\ t_string_unit t' = t_string_unit t /\ t_locale t' = t_locale t.
Proof.
  enough (K : keeps db db') by exact K.
  unfold handle in H.
  destruct (match limit with Some n => _ | None => false end); [discriminate H|].
  destruct records as [[|[|f0 fr] rows]|]; try discriminate H.
  unfold res_bind in H at 1. destruct (_resolve_required_keys _) as [e|[[[lk ik] ek] sk]]; [discriminate H|].
  cbv zeta in H. unfold res_bind in H at 1. destruct (upsert_all _ _ _ _) as [e|[[c1 l1] lbh]]; [discriminate H|].
  unfold res_bind in H. destruct (import_rows _ _ _ _ _ _ _ _) as [e|st] eqn:E; [discriminate H|].
  destruct dry_run; injection H as _ <- _; [apply keeps_refl|].
  exact (keeps_import_rows _ _ _ _ _ _ _ _ _ E).
Qed.

(** *** The row counters *)

Definition rows_of (c : ImportCounts) : nat * nat * nat :=
  (rows_total c, rows_skipped c, rows_processed c).

Lemma rows_import_cell (now : Z) (su : StringUnit) (lp : positive) (cell : string) (st st' : IState) :
  import_cell now su lp cell st = inr st' -> rows_of (st_counts st') = rows_of (st_counts st).
Proof.
  intros H. unfold import_cell in H. cbv zeta in H.
  destruct (su_pk su) as [sp|]; [|discriminate H].
  destruct (find _ (db_translations (st_db st))) as [tr|].
  - destruct (app _ _) as [|f0 fs0]; [injection H as <-; reflexivity|].
    destruct (translation_save _ _ _ _) as [[o d']|]; [|discriminate H].
    injection H as <-. reflexivity.
  - destruct (translation_save _ _ _ _) as [[o d']|]; [|discriminate H].
    injection H as <-. reflexivity.
Qed.

Lemma rows_import_cells (now : Z) (su : StringUnit) (hs : list string) (lbh : list (string * Locale))
  (d : list (string * option string)) (st st' : IState) :
  import_cells now su hs lbh d st = inr st' -> rows_of (st_counts st') = rows_of (st_counts st).
Proof.
  revert st. induction hs as [|h hs IH]; intros st H; cbn [import_cells] in H.
  - injection H as <-. reflexivity.
  - destruct (is_blank _); [exact (IH st H)|].
    destruct (last_get h lbh) as [loc|]; [|discriminate H].
    unfold res_bind in H. destruct (import_cell now su (l_pk loc) _ st) as [e|st1] eqn:E; [discriminate H|].
    rewrite (IH st1 H). exact (rows_import_cell _ _ _ _ _ _ E).
Qed.

Lemma rows_import_unit (a b c d0 : string) (st : IState) :
  rows_of (st_counts (snd (ensure_hash (import_unit a b c d0 st)))) = rows_of (st_counts st).
Proof.
  assert (G : rows_of (st_counts (snd (import_unit a b c d0 st))) = rows_of (st_counts st)).
  { unfold import_unit. cbv zeta. destruct (find_unit_key a b (st_db st)); [destruct (_ || _)|];
      reflexivity. }
  destruct (import_unit a b c d0 st) as [u st1]. cbn [snd] in G. unfold ensure_hash.
  destruct (String.eqb (su_source_hash u) EmptyString); exact G.
Qed.

Lemma rows_upsert_all (hs : list string) (c : ImportCounts) (locs : list Locale)
  (lbh : list (string * Locale)) (c' : ImportCounts) (locs' : list Locale) (lbh' : list (string * Locale)) :
  upsert_all hs c locs lbh = inr (c', locs', lbh') -> rows_of c' = rows_of c.
Proof.
  revert c locs lbh. induction hs as [|h hs IH]; intros c locs lbh H; cbn [upsert_all] in H.
  - injection H as <- _ _. reflexivity.
  - destruct (_upsert_locale _ c locs) as [e|[[loc c1] l1]] eqn:E; [discriminate H|].
    rewrite (IH _ _ _ H). clear H IH. unfold _upsert_locale in E. cbv zeta in E.
    destruct (String.eqb (strip _) EmptyString); [discriminate E|].
    destruct (String.eqb (lower_str _) "zh");
      [|destruct (String.eqb (lower_str _) "cz");
        [|destruct (String.eqb (_normalize_code _) EmptyString); [discriminate E|]]];
    (destruct (find_locale_code _ _); [destruct (_ || _ || _ || _)|]); injection E as _ <- _; reflexivity.
Qed.

Definition lim_ok (limit : option Z) (c : ImportCounts) : Prop :=
  match limit with Some n => (Z.of_nat (rows_processed c) <= n)%Z | None => True end.

Lemma rows_import_rows (now : Z) (limit : option Z) (keys : Keys) (raw : list string)
  (hs : list string) (lbh : list (string * Locale)) (rows : list (list string)) (st st' : IState) :
  import_rows now limit keys raw hs lbh rows st = inr st' ->
  rows_total (st_counts st) = rows_skipped (st_counts st) + rows_processed (st_counts st) ->
  lim_ok limit (st_counts st) ->
  (rows_total (st_counts st') = rows_skipped (st_counts st') + rows_processed (st_counts st') \/
   (limit <> None /\
    rows_total (st_counts st') = rows_skipped (st_counts st') + rows_processed (st_counts st') + 1)) /\
  lim_ok limit (st_counts st').
Proof.
  revert st. induction rows as [|row rows IH]; intros st H Hi Hl; cbn [import_rows] in H.
  - injection H as <-. split; [left; exact Hi | exact Hl].
  - destruct row as [|c0 row']; [exact (IH st H Hi Hl)|]. cbv zeta in H.
    destruct (_ || _); [apply (IH _ H); cbn; [lia | exact Hl]|].
    destruct limit as [n|] eqn:El.
    + destruct (Z.leb n _) eqn:En.
      * injection H as <-. cbn. split; [right; split; [discriminate | lia] | exact Hl].
      * apply Z.leb_gt in En.
        pose proof (rows_import_unit
          (strip (or_empty (row_get (dict_row raw (c0 :: row')) (k_location keys))))
          (strip (or_empty (row_get (dict_row raw (c0 :: row')) (k_id keys))))
          (_strip_trailing_newlines (row_get (dict_row raw (c0 :: row')) (k_en keys)))
          (or_empty (row_get (dict_row raw (c0 :: row')) (k_est keys)))
          (with_counts st (bump_rows_total (st_counts st)))) as G.
        destruct (ensure_hash _) as [su st1]. cbn [snd] in G.
        unfold res_bind in H. destruct (import_cells _ _ _ _ _ st1) as [e|st2] eqn:E; [discriminate H|].
        pose proof (rows_import_cells _ _ _ _ _ _ _ E) as G2. rewrite G in G2.
        unfold rows_of in G2. cbn in G2. injection G2 as G2a G2b G2c.
        apply (IH _ H); cbn; [lia|]. cbn in En. lia.
    + cbv iota in H.
      pose proof (rows_import_unit
        (strip (or_empty (row_get (dict_row raw (c0 :: row')) (k_location keys))))
        (strip (or_empty (row_get (dict_row raw (c0 :: row')) (k_id keys))))
        (_strip_trailing_newlines (row_get (dict_row raw (c0 :: row')) (k_en keys)))
        (or_empty (row_get (dict_row raw (c0 :: row')) (k_est keys)))
        (with_counts st (bump_rows_total (st_counts st)))) as G.
      destruct (ensure_hash _) as [su st1]. cbn [snd] in G.
      unfold res_bind in H. destruct (import_cells _ _ _ _ _ st1) as [e|st2] eqn:E; [discriminate H|].
      pose proof (rows_import_cells _ _ _ _ _ _ _ E) as G2. rewrite G in G2.
      unfold rows_of in G2. cbn in G2. injection G2 as G2a G2b G2c.
      apply (IH _ H); cbn; [lia | exact I].
Qed.

(** The records [csv.DictReader] yields: the non-empty ones after the header. *)
Definition nonempty_record (r : list string) : bool :=
  match r with [] => false | _ => true end.

(** The records the loop skips: a blank location or message id. *)
Definition skip_row (raw : list string) (keys : Keys) (row : list string) : bool :=
  String.eqb (strip (or_empty (row_get (dict_row raw row) (k_location keys)))) EmptyString
  || String.eqb (strip (or_empty (row_get (dict_row raw row) (k_id keys)))) EmptyString.

(** The loop either reads every record, counting each as skipped or
    processed, or stops at a record once [limit] rows are processed,
    counting that record only in [rows_total]. *)
Lemma rows_import_rows_read (now : Z) (limit : option Z) (keys : Keys) (raw : list string)
  (hs : list string) (lbh : list (string * Locale)) (rows : list (list string)) (st st' : IState) :
  import_rows now limit keys raw hs lbh rows st = inr st' ->
  let read := filter nonempty_record rows in
  let sk := length (filter (skip_row raw keys) read) in
  (rows_total (st_counts st') = rows_total (st_counts st) + length read /\
   rows_skipped (st_counts st') = rows_skipped (st_counts st) + sk /\
   rows_processed (st_counts st') + sk = rows_processed (st_counts st) + length read) \/
  (exists n, limit = Some n /\ (n <= Z.of_nat (rows_processed (st_counts st')))%Z /\
   rows_total (st_counts st') <= rows_total (st_counts st) + length read /\
   rows_total (st_counts st') + rows_skipped (st_counts st) + rows_processed (st_counts st) =
   rows_total (st_counts st) + rows_skipped (st_counts st') + rows_processed (st_counts st') + 1).
Proof.
  revert st. induction rows as [|row rows IH]; intros st H; cbn [import_rows] in H.
  - injection H as <-. left. cbn. lia.
  - destruct row as [|c0 row']; [exact (IH st H)|]. cbv zeta in H.
    cbn [filter nonempty_record]. destruct (skip_row raw keys (c0 :: row')) eqn:Es;
      unfold skip_row in Es; rewrite Es in H.
    + destruct (IH _ H) as [[E1 [E2 E3]]|[n [En [E1 [E2 E3]]]]]; cbn in *.
      * left. cbn. lia.
      * right. exists n. cbn. split; [exact En|]. split; [exact E1|]. split; lia.
    + destruct limit as [n|] eqn:El.
      * destruct (Z.leb n _) eqn:Eb.
        -- injection H as <-. right. exists n. apply Z.leb_le in Eb. cbn in Eb |- *.
           split; [reflexivity|]. split; [exact Eb|]. split; lia.
        -- pose proof (rows_import_unit
          (strip (or_empty (row_get (dict_row raw (c0 :: row')) (k_location keys))))
          (strip (or_empty (row_get (dict_row raw (c0 :: row')) (k_id keys))))
          (_strip_trailing_newlines (row_get (dict_row raw (c0 :: row')) (k_en keys)))
          (or_empty (row_get (dict_row raw (c0 :: row')) (k_est keys)))
          (with_counts st (bump_rows_total (st_counts st)))) as G;
        destruct (ensure_hash _) as [su st1]; cbn [snd] in G;
        unfold res_bind in H; destruct (import_cells _ _ _ _ _ st1) as [e|st2] eqn:E; [discriminate H|];
        pose proof (rows_import_cells _ _ _ _ _ _ _ E) as G2; rewrite G in G2;
        unfold rows_of in G2; cbn in G2; injection G2 as G2a G2b G2c;
        destruct (IH _ H) as [[E1 [E2 E3]]|[m [Em [E1 [E2 E3]]]]]; cbn in *;
        [left; cbn; lia | right; exists m; cbn; split; [exact Em|]; split; [exact E1|]; split; lia].
      * cbv iota in H. pose proof (rows_import_unit
          (strip (or_empty (row_get (dict_row raw (c0 :: row')) (k_location keys))))
          (strip (or_empty (row_get (dict_row raw (c0 :: row')) (k_id keys))))
          (_strip_trailing_newlines (row_get (dict_row raw (c0 :: row')) (k_en keys)))
          (or_empty (row_get (dict_row raw (c0 :: row')) (k_est keys)))
          (with_counts st (bump_rows_total (st_counts st)))) as G;
        destruct (ensure_hash _) as [su st1]; cbn [snd] in G;
        unfold res_bind in H; destruct (import_cells _ _ _ _ _ st1) as [e|st2] eqn:E; [discriminate H|];
        pose proof (rows_import_cells _ _ _ _ _ _ _ E) as G2; rewrite G in G2;
        unfold rows_of in G2; cbn in G2; injection G2 as G2a G2b G2c;
        destruct (IH _ H) as [[E1 [E2 E3]]|[m [Em [E1 [E2 E3]]]]]; cbn in *;
        [left; cbn; lia | right; exists m; cbn; split; [exact Em|]; split; [exact E1|]; split; lia].
Qed.

(** Every non-empty record after the header is counted once: without
    [--limit], [rows_total] is the number of these records, [rows_skipped]
    the number with a blank location or message id, and the others are
    processed. With [--limit n], at most [n] rows are processed; either every
    record is read and counted in the same way, or the loop stopped, after
    exactly [n] processed rows, at a record counted only in [rows_total]. *)
Theorem import_row_counts (now : Z) (header : list string) (rows : list (list string)) (dry_run : bool)
  (limit : option Z) (db db' : DB) (locs locs' : list Locale) (c : ImportCounts)
  (H : handle now (Some (header :: rows)) dry_run limit db locs = inr (c, db', locs')) :
  exists lk ik ek sk,
  _resolve_required_keys (map strip header) = inr (lk, ik, ek, sk) /\
  let read := filter nonempty_record rows in
  let skipped := filter (skip_row header (mkKeys lk ik ek sk)) read in
  let all_counted := rows_total c = length read /\ rows_skipped c = length skipped /\
                     rows_total c = rows_skipped c + rows_processed c in
  rows_total c <= length read /\
  (limit = None -> all_counted) /\
  (forall n, limit = Some n ->
     (Z.of_nat (rows_processed c) <= n)%Z /\
     (all_counted \/
      (Z.of_nat (rows_processed c) = n /\ rows_total c = rows_skipped c + rows_processed c + 1))).
Proof.
  unfold handle in H.
  destruct (match limit with Some n => Z.ltb n 0 | None => false end) eqn:Eneg; [discriminate H|].
  destruct header as [|f0 fr]; [discriminate H|].
  unfold res_bind in H at 1. destruct (_resolve_required_keys _) as [e|[[[lk ik] ek] sk]] eqn:Ek;
    [discriminate H|].
  exists lk, ik, ek, sk. split; [reflexivity|].
  cbv zeta in H. unfold res_bind in H at 1.
  destruct (upsert_all _ _ _ _) as [e|[[c1 l1] lbh]] eqn:Eu; [discriminate H|].
  unfold res_bind in H. destruct (import_rows _ _ _ _ _ _ _ _) as [e|st] eqn:E; [discriminate H|].
  assert (Hc : st_counts st = c) by (destruct dry_run; injection H as <- _ _; reflexivity).
  pose proof (rows_upsert_all _ _ _ _ _ _ _ Eu) as Hz. unfold rows_of in Hz. cbn in Hz.
  injection Hz as Hz1 Hz2 Hz3.
  destruct (rows_import_rows _ _ _ _ _ _ _ _ _ E) as [_ Hl]; cbn [st_counts].
  - lia.
  - destruct limit as [n|]; cbn; [|exact I]. rewrite Hz3. apply Z.ltb_ge in Eneg. lia.
  - pose proof (rows_import_rows_read _ _ _ _ _ _ _ _ _ E) as Hr. cbv zeta in Hr.
    cbn [st_counts] in Hr. rewrite Hz1, Hz2, Hz3, Hc in Hr. rewrite Hc in Hl.
    pose proof (filter_length_le (skip_row (f0 :: fr) (mkKeys lk ik ek sk))
                  (filter nonempty_record rows)) as Hle.
    cbv zeta. split; [|split].
    + destruct Hr as [[R1 _]|[n [_ [_ [R1 _]]]]]; lia.
    + intros ->. destruct Hr as [[R1 [R2 R3]]|[n [Hn _]]]; [|discriminate Hn].
      split; [exact R1|]. split; [exact R2|]. lia.
    + intros n ->. split; [exact Hl|]. cbn in Hl.
      destruct Hr as [[R1 [R2 R3]]|[m [Hm [R0 [R1 R2]]]]].
      * left. split; [exact R1|]. split; [exact R2|]. lia.
      * injection Hm as <-. right. split; [lia|]. lia.
Qed.

End ImportHandleFacts.


(* ------------------------------------------------------------------ *)
(** ** CSV export (services/exporter.py) *)

Module Exporter.
Import ImportCmd.

Inductive ExportError :=
| err_locale_not_found (locale_code : string)
| err_out_dir.

(** [ExportStats]; the output path is [out_dir / output_name]. *)
Record ExportStats := mkExportStats {
  total_string_units : nat;
  approved_count : nat;
  missing_count : nat;
  output_name : string
}.

(** [_is_nonempty] *)
Definition _is_nonempty (value : option string) : bool := negb (is_blank (or_empty value)).

(** [translations_by_string_unit_id]: [string_unit_id -> (approved_text,
    updated_at)] for the translations of one locale, later rows
    overwriting earlier ones. *)
Definition translations_by_string_unit_id (db : DB) (locale_pk : positive)
  : list (positive * (option string * Z)) :=
  map (fun t => (t_string_unit t, (t_approved_text t, t_updated_at t)))
    (filter (fun t => Pos.eqb (t_locale t) locale_pk) (db_translations db)).

Definition pos_get {V : Type} (k : positive) (d : list (positive * V)) : option V :=
  fold_left (fun acc kv => if Pos.eqb (fst kv) k then Some (snd kv) else acc) d None.

Definition export_header (include_source_updated : bool) : list string :=
  app ["location"; "message_id"; "source_en"; "target_locale"; "translation"; "status";
       "source_hash"; "translation_updated_at"]
      (if include_source_updated then ["source_updated_on"] else []).

(** The loop over [stringunits_qs]; [units] is the queryset in its
    [order_by("location", "message_id")] order, [iso] is [isoformat()], and
    [(total, approved, missing)] are the counters so far. Returns the final
    counters and the data rows written. *)
Fixpoint export_units (iso : Z -> string) (locale_code : string) (include_source_updated : bool)
  (missing_marker : string) (only_missing : bool) (by_su : list (positive * (option string * Z)))
  (units : list StringUnit) (total approved missing : nat) : nat * nat * nat * list (list string) :=
  match units with
  | [] => (total, approved, missing, [])
  | su :: rest =>
      let total := S total in
      let tr_row := match su_pk su with Some p => pos_get p by_su | None => None end in
      let approved_text := match tr_row with Some (a, _) => a | None => None end in
      let updated_at := match tr_row with Some (_, u) => Some u | None => None end in
      let has_approved := _is_nonempty approved_text in
      let status := if has_approved then "APPROVED" else "MISSING" in
      let translation_value := if has_approved then or_empty approved_text else missing_marker in
      let translation_updated_at :=
        if has_approved then match updated_at with Some u => iso u | None => EmptyString end
        else EmptyString in
      let approved := if has_approved then S approved else approved in
      let missing := if has_approved then missing else S missing in
      let row_out :=
        app [su_location su; su_message_id su; su_source_text su; locale_code; translation_value;
             status; su_source_hash su; translation_updated_at]
            (if include_source_updated then [su_source_updated_on su] else []) in
      let '(t, a, m, rows) :=
        export_units iso locale_code include_source_updated missing_marker only_missing by_su rest
          total approved missing in
      if only_missing && negb (String.eqb status "MISSING") then (t, a, m, rows)
      else (t, a, m, row_out :: rows)
  end.

(** [export_locale_csv]; [mkdir_ok] says whether [out_dir.mkdir] succeeds.
    Returns the stats and the CSV records written, header first. *)
Definition export_locale_csv (locs : list Locale) (mkdir_ok : bool) (iso : Z -> string)
  (units : list StringUnit) (db : DB) (locale_code : string) (include_source_updated : bool)
  (missing_marker : string) (only_missing : bool)
  : sum ExportError (ExportStats * list (list string)) :=
  match find_locale_code locale_code locs with
  | None => inl (err_locale_not_found locale_code)
  | Some locale =>
      if negb mkdir_ok then inl err_out_dir else
      let by_su := translations_by_string_unit_id db (l_pk locale) in
      let '(total, approved, missing, rows) :=
        export_units iso locale_code include_source_updated missing_marker only_missing by_su
          units 0 0 0 in
      inr (mkExportStats total approved missing ("voyant_" ++ locale_code ++ ".csv"),
           export_header include_source_updated :: rows)
  end.

End Exporter.

Module ExporterFacts.
Import ImportCmd Exporter.

Lemma pos_get_in {V : Type} (k : positive) (d : list (positive * V)) (v : V) :
  pos_get k d = Some v -> In (k, v) d.
Proof.
  unfold pos_get.
  assert (G : forall acc, fold_left (fun acc kv => if Pos.eqb (fst kv) k then Some (snd kv) else acc) d acc
                = Some v -> acc = Some v \/ In (k, v) d).
  { induction d as [|[k' v'] d IH]; intros acc H; simpl in *; [left; exact H|].
    destruct (IH _ H) as [E|E]; [|right; right; exact E].
    destruct (Pos.eqb k' k) eqn:Ek; [|left; exact E].
    apply Pos.eqb_eq in Ek. injection E as <-. subst k'. right. left. reflexivity. }
  intros H. destruct (G None H) as [E|E]; [discriminate E | exact E].
Qed.

Lemma by_su_in (db : DB) (lp k : positive) (a : option string) (u : Z) :
  pos_get k (translations_by_string_unit_id db lp) = Some (a, u) ->
  exists t, In t (db_translations db) /\ t_locale t = lp /\ t_string_unit t = k /\ t_approved_text t = a.
Proof.
  intros H. apply pos_get_in in H. unfold translations_by_string_unit_id in H.
  apply in_map_iff in H as [t [Et Ht]]. injection Et as <- <- _.
  apply filter_In in Ht as [Ht Hl]. apply Pos.eqb_eq in Hl. exists t. auto.
Qed.

(** A data row written for the locale [code]. *)
Definition row_ok (locs : list Locale) (db : DB) (code : string) (include_source_updated : bool)
  (missing_marker : string) (only_missing : bool) (units : list StringUnit) (r : list string) : Prop :=
  exists su, In su units /\
    firstn 4 r = [su_location su; su_message_id su; su_source_text su; code] /\
    nth 6 r EmptyString = su_source_hash su /\
    length r = (if include_source_updated then 9 else 8) /\
    ((nth 5 r EmptyString = "APPROVED" /\ is_blank (nth 4 r EmptyString) = false /\
      exists loc t, find_locale_code code locs = Some loc /\ In t (db_translations db) /\
        t_locale t = l_pk loc /\ su_pk su = Some (t_string_unit t) /\
        t_approved_text t = Some (nth 4 r EmptyString)) \/
     (nth 5 r EmptyString = "MISSING" /\ nth 4 r EmptyString = missing_marker /\
      nth 7 r EmptyString = EmptyString)) /\
    (only_missing = true -> nth 5 r EmptyString = "MISSING").

Lemma export_units_spec (locs : list Locale) (loc : Locale) (db : DB) (iso : Z -> string)
  (code : string) (inc : bool) (marker : string) (om : bool) (units : list StringUnit) :
  find_locale_code code locs = Some loc ->
  forall t0 a0 m0 t a m rows,
  export_units iso code inc marker om (translations_by_string_unit_id db (l_pk loc)) units t0 a0 m0
    = (t, a, m, rows) ->
  t = t0 + length units /\ t + a0 + m0 = t0 + a + m /\
  length rows + (if om then m0 else t0) = (if om then m else t) /\
  (om = false -> map (firstn 3) rows =
                 map (fun su => [su_location su; su_message_id su; su_source_text su]) units) /\
  (forall r, In r rows -> row_ok locs db code inc marker om units r).
Proof.
  intros Hloc. induction units as [|su rest IH]; intros t0 a0 m0 t a m rows H; cbn [export_units] in H.
  - injection H as <- <- <- <-. cbn. split; [lia|]. split; [lia|]. split; [destruct om; lia|].
    split; [reflexivity | intros r []].
  - cbv zeta in H.
    remember (match su_pk su with
              | Some p => pos_get p (translations_by_string_unit_id db (l_pk loc))
              | None => None end) as tr eqn:Etr.
    remember (_is_nonempty (match tr with Some (a, _) => a | None => None end)) as hap eqn:Eh.
    destruct (export_units _ _ _ _ _ _ rest _ _ _) as [[[t1 a1] m1] rows1] eqn:E.
    destruct (IH _ _ _ _ _ _ _ E) as [H1 [H2 [H3 [H4 H5]]]].
    assert (Hrow : (om = true -> hap = false) -> row_ok locs db code inc marker om (su :: rest)
      (app [su_location su; su_message_id su; su_source_text su; code;
            if hap then or_empty (match tr with Some (a, _) => a | None => None end) else marker;
            if hap then "APPROVED" else "MISSING"; su_source_hash su;
            if hap then match (match tr with Some (_, u) => Some u | None => None end) with
                        | Some u => iso u | None => EmptyString end else EmptyString]
           (if inc then [su_source_updated_on su] else []))).
    { intros Hom'. exists su. split; [left; reflexivity|]. split; [reflexivity|]. split; [reflexivity|].
      split; [destruct inc; reflexivity|].
      destruct hap.
      - split; [left|intros Hom; discriminate (Hom' Hom)].
        cbn. split; [reflexivity|].
        unfold _is_nonempty in Eh.
        destruct tr as [[[s|] u]|]; cbn in Eh; try (symmetry in Eh; discriminate Eh).
        symmetry in Eh. apply negb_true_iff in Eh. split; [exact Eh|].
        exists loc. destruct (su_pk su) as [p|]; [|discriminate Etr]. symmetry in Etr.
        destruct (by_su_in db (l_pk loc) p (Some s) u Etr) as [x [Hx1 [Hx2 [Hx3 Hx4]]]].
        exists x. subst p. auto 7.
      - split; [right; split; [reflexivity|]; split; reflexivity | intros _; reflexivity]. }
    assert (Hsub : forall r, In r rows1 -> row_ok locs db code inc marker om (su :: rest) r).
    { intros r Hr. destruct (H5 r Hr) as [x [Hx Rest]]. exists x. split; [right; exact Hx | exact Rest]. }
    destruct (om && negb (String.eqb (if hap then "APPROVED" else "MISSING") "MISSING")) eqn:Eo;
      injection H as <- <- <- <-.
    + apply andb_true_iff in Eo as [Eom Eh2]. subst om. destruct hap; [|discriminate Eh2].
      cbn [length]. split; [lia|]. split; [lia|]. split; [lia|]. split; [discriminate|]. exact Hsub.
    + cbn [length]. split; [lia|]. split; [destruct hap; lia|].
      split; [destruct om, hap; cbn in Eo; try discriminate Eo; lia|].
      split; [intros Hom; cbn [map]; rewrite (H4 Hom); reflexivity|].
      intros r [<-|Hr]; [|exact (Hsub r Hr)].
      apply Hrow. intros Hom. subst om. destruct hap; [discriminate Eo | reflexivity].
Qed.

(** A unit the export reports as MISSING: no non-blank [approved_text]
    under its id in [by_su]. *)
Definition missing_by (by_su : list (positive * (option string * Z))) (su : StringUnit) : bool :=
  negb (_is_nonempty (match (match su_pk su with Some p => pos_get p by_su | None => None end) with
                      | Some (a, _) => a
                      | None => None
                      end)).

Lemma export_units_order (iso : Z -> string) (code : string) (inc : bool) (marker : string) (om : bool)
  (by_su : list (positive * (option string * Z))) (units : list StringUnit) :
  forall t0 a0 m0 t a m rows,
  export_units iso code inc marker om by_su units t0 a0 m0 = (t, a, m, rows) ->
  map (firstn 3) rows =
    map (fun su => [su_location su; su_message_id su; su_source_text su])
      (if om then filter (missing_by by_su) units else units) /\
  m = m0 + length (filter (missing_by by_su) units).
Proof.
  induction units as [|su rest IH]; intros t0 a0 m0 t a m rows H; cbn [export_units] in H.
  - injection H as <- <- <- <-. destruct om; (split; [reflexivity | cbn; lia]).
  - cbv zeta in H.
    remember (match su_pk su with
              | Some p => pos_get p by_su
              | None => None end) as tr eqn:Etr.
    remember (_is_nonempty (match tr with Some (a, _) => a | None => None end)) as hap eqn:Eh.
    assert (Hm : missing_by by_su su = negb hap) by (rewrite Eh, Etr; reflexivity).
    destruct (export_units _ _ _ _ _ _ rest _ _ _) as [[[t1 a1] m1] rows1] eqn:E.
    destruct (IH _ _ _ _ _ _ _ E) as [H1 H2].
    cbn [filter]. rewrite Hm.
    destruct om, hap; cbn in H; injection H as <- <- <- <-; cbn [negb length];
      (split; [cbn [map]; rewrite H1; reflexivity | lia]).
Qed.

(** [export_locale_csv] writes the fixed header, then one row per StringUnit
    in the order of [units], or with [only_missing] one row per MISSING
    unit in that order; the counters add up, [missing_count] being the
    number of MISSING units; an APPROVED row carries a non-blank
    [approved_text] of this locale's translation of that unit, any other
    row is MISSING with the marker and no timestamp. *)
Theorem export_locale_csv_spec (locs : list Locale) (mkdir_ok : bool) (iso : Z -> string)
  (units : list StringUnit) (db : DB) (code : string) (inc : bool) (marker : string) (om : bool)
  (stats : ExportStats) (rows : list (list string))
  (Hunits : Permutation units (db_units db))
  (H : export_locale_csv locs mkdir_ok iso units db code inc marker om = inr (stats, rows)) :
  total_string_units stats = approved_count stats + missing_count stats /\
  total_string_units stats = length (db_units db) /\
  output_name stats = "voyant_" ++ code ++ ".csv" /\
  hd [] rows = export_header inc /\
  length rows = S (if om then missing_count stats else total_string_units stats) /\
  (om = false -> map (firstn 3) (tl rows) =
                 map (fun su => [su_location su; su_message_id su; su_source_text su]) units) /\
  (forall r, In r (tl rows) -> row_ok locs db code inc marker om (db_units db) r) /\
  (exists loc, find_locale_code code locs = Some loc /\
     let missing := filter (missing_by (translations_by_string_unit_id db (l_pk loc))) units in
     missing_count stats = length missing /\
     (om = true -> map (firstn 3) (tl rows) =
                   map (fun su => [su_location su; su_message_id su; su_source_text su]) missing)).
Proof.
  unfold export_locale_csv in H.
  destruct (find_locale_code code locs) as [loc|] eqn:Hloc; [|discriminate H].
  destruct mkdir_ok; [|discriminate H]. cbv zeta in H. cbn [negb] in H.
  destruct (export_units _ _ _ _ _ _ units 0 0 0) as [[[t a] m] rs] eqn:E.
  injection H as <- <-. cbn.
  destruct (export_units_spec locs loc db iso code inc marker om units Hloc _ _ _ _ _ _ _ E)
    as [H1 [H2 [H3 [H4 H5]]]].
  rewrite <- (Permutation_length Hunits).
  split; [lia|]. split; [lia|]. split; [reflexivity|]. split; [reflexivity|].
  split; [destruct om; lia|]. split; [exact H4|].
  split.
  - intros r Hr. destruct (H5 r Hr) as [su [Hsu Rest]]. exists su.
    split; [exact (Permutation_in _ Hunits Hsu) | exact Rest].
  - destruct (export_units_order iso code inc marker om _ units _ _ _ _ _ _ _ E) as [O1 O2].
    exists loc. split; [reflexivity|]. cbv zeta. split; [exact O2|].
    intros ->. exact O1.
Qed.

End ExporterFacts.

(* ------------------------------------------------------------------ *)
(** ** More on the QA checks (services/qa.py) and the source hash *)

Module QAMoreFacts.
Import QA.

Lemma insert_sorted_perm (x : string) (l : list string) : Permutation (insert_sorted x l) (x :: l).
Proof.
  induction l as [|y r IH]; simpl; [constructor; constructor|].
  destruct (String.leb x y); [reflexivity|].
  eapply perm_trans; [apply perm_skip; exact IH | apply perm_swap].
Qed.

Lemma sorted_perm (l : list string) : Permutation (sorted l) l.
Proof.
  induction l as [|x r IH]; simpl; [constructor|].
  eapply perm_trans; [apply insert_sorted_perm | apply perm_skip; exact IH].
Qed.

Lemma set_minus_In (a b : list string) (x : string) :
  In x (set_minus a b) <-> In x a /\ ~ In x b.
Proof.
  unfold set_minus. rewrite filter_In, negb_true_iff.
  split; intros [Ha Hb]; split; try exact Ha.
  - intros Hx. assert (E : existsb (String.eqb x) b = true)
      by (apply existsb_exists; exists x; split; [exact Hx | apply String.eqb_refl]).
    congruence.
  - destruct (existsb (String.eqb x) b) eqn:E; [|reflexivity].
    apply existsb_exists in E as [y [Hy Ey]]. apply String.eqb_eq in Ey. subst y. contradiction.
Qed.

Lemma set_minus_incl (a b : list string) : incl a b -> set_minus a b = [].
Proof.
  intros H. destruct (set_minus a b) as [|x r] eqn:E; [reflexivity|].
  assert (Hx : In x (set_minus a b)) by (rewrite E; left; reflexivity).
  apply set_minus_In in Hx as [Ha Hb]. exfalso. exact (Hb (H x Ha)).
Qed.

Lemma sorted_nil (l : list string) : sorted l = [] <-> l = [].
Proof.
  split; intros H; [|subst; reflexivity].
  pose proof (sorted_perm l) as P. rewrite H in P. apply Permutation_nil in P. exact P.
Qed.

Lemma mismatches_self (tags : list (string * nat)) (keys : list string) :
  flat_map (fun key => let s := dict_get tags key in let t := dict_get tags key in
                       if Nat.eqb s t then [] else [(key, (s, t))]) keys = [].
Proof. induction keys as [|k r IH]; simpl; [reflexivity|]. rewrite Nat.eqb_refl. exact IH. Qed.

Lemma extract_placeholders_nodup (text : option string) : NoDup (extract_placeholders text).
Proof.
  destruct text as [[|c r]|]; simpl; try constructor. unfold str_set. apply NoDup_nodup.
Qed.

(** The flag list of [compute_qa_flags], segment by segment. *)
Definition flags_of (M E : list string) (b1 : bool) (n1 n2 : nat)
  (X : list (string * (nat * nat))) (b2 : bool) : list qa_flag :=
  app (match M with [] => [] | _ => [missing_placeholder M] end)
  (app (match E with [] => [] | _ => [extra_placeholder E] end)
  (app (if b1 then [] else [unbalanced_braces n1 n2])
  (app (match X with [] => [] | _ => [html_tag_mismatch X] end)
       (if b2 then [empty_translation] else [])))).

Ltac flags_cases :=
  repeat match goal with
         | |- context[match ?l with [] => _ | _ :: _ => _ end] => destruct l
         | |- context[if ?b then _ else _] => destruct b
         end; cbn; (split;
  [ intros H; repeat match goal with
                     | H : _ \/ _ |- _ => destruct H
                     | H : False |- _ => destruct H
                     end;
    first [ discriminate | injection H; intros; subst; split; [discriminate | reflexivity] ]
  | intros [Hne Heq]; subst; first [ exfalso; apply Hne; reflexivity | tauto ] ]).

Lemma flags_of_missing M E b1 n1 n2 X b2 ms :
  In (missing_placeholder ms) (flags_of M E b1 n1 n2 X b2) <-> ms <> [] /\ ms = M.
Proof. unfold flags_of. flags_cases. Qed.

Lemma flags_of_extra M E b1 n1 n2 X b2 ms :
  In (extra_placeholder ms) (flags_of M E b1 n1 n2 X b2) <-> ms <> [] /\ ms = E.
Proof. unfold flags_of. flags_cases. Qed.

Lemma flags_of_html M E b1 n1 n2 X b2 mm :
  In (html_tag_mismatch mm) (flags_of M E b1 n1 n2 X b2) <-> mm <> [] /\ mm = X.
Proof. unfold flags_of. flags_cases. Qed.

Lemma compute_qa_flags_of (s t : option string) :
  compute_qa_flags s t =
  flags_of (sorted (set_minus (extract_placeholders (Some (or_empty s)))
                              (extract_placeholders (Some (or_empty t)))))
           (sorted (set_minus (extract_placeholders (Some (or_empty t)))
                              (extract_placeholders (Some (or_empty s)))))
           (Nat.eqb (count_char "{" (or_empty t)) (count_char "}" (or_empty t)))
           (count_char "{" (or_empty t)) (count_char "}" (or_empty t))
           (let src_tags := extract_html_tags (Some (or_empty s)) in
            let tgt_tags := extract_html_tags (Some (or_empty t)) in
            flat_map (fun key =>
                        let a := dict_get src_tags key in
                        let b := dict_get tgt_tags key in
                        if Nat.eqb a b then [] else [(key, (a, b))])
              (sorted (str_set (app (map fst src_tags) (map fst tgt_tags)))))
           (negb (is_blank (or_empty s)) && is_blank (or_empty t)).
Proof. reflexivity. Qed.

Lemma sorted_In (l : list string) (x : string) : In x (sorted l) <-> In x l.
Proof. split; apply Permutation_in; [apply sorted_perm | apply Permutation_sym, sorted_perm]. Qed.

Lemma dict_get_in (l : list (string * nat)) (k : string) : dict_get l k <> 0 -> In k (map fst l).
Proof.
  unfold dict_get. destruct (find _ l) as [[k' n]|] eqn:E; [|intros H; exfalso; apply H; reflexivity].
  intros _. apply find_some in E as [Hin Hk]. apply String.eqb_eq in Hk. simpl in Hk. subst k'.
  apply in_map_iff. exists (k, n). split; [reflexivity | exact Hin].
Qed.

Section Mismatch.
Variables (st tt : list (string * nat)).

Definition mismatch_row (key : string) : list (string * (nat * nat)) :=
  let a := dict_get st key in
  let b := dict_get tt key in
  if Nat.eqb a b then [] else [(key, (a, b))].

Lemma mismatch_In (keys : list string) (k : string) (a b : nat) :
  In (k, (a, b)) (flat_map mismatch_row keys) <->
  In k keys /\ a = dict_get st k /\ b = dict_get tt k /\ a <> b.
Proof.
  rewrite in_flat_map. unfold mismatch_row. split.
  - intros [key [Hk Hin]]. destruct (Nat.eqb (dict_get st key) (dict_get tt key)) eqn:E;
      [destruct Hin | destruct Hin as [Hin|[]]].
    injection Hin as <- <- <-. apply Nat.eqb_neq in E. auto.
  - intros [Hk [-> [-> Hne]]]. exists k. split; [exact Hk|].
    apply Nat.eqb_neq in Hne. rewrite Hne. left. reflexivity.
Qed.

Lemma mismatch_keys (keys : list string) (k : string) :
  In k (map fst (flat_map mismatch_row keys)) -> In k keys.
Proof.
  intros H. apply in_map_iff in H as [[k' [a b]] [Hk Hin]]. simpl in Hk. subst k'.
  apply mismatch_In in Hin. tauto.
Qed.

Lemma mismatch_nodup (keys : list string) : NoDup keys -> NoDup (map fst (flat_map mismatch_row keys)).
Proof.
  induction keys as [|k r IH]; intros Hn; simpl; [constructor|].
  inversion Hn as [|? ? Hk Hr]; subst. unfold mismatch_row at 1.
  destruct (Nat.eqb _ _); simpl; [exact (IH Hr)|].
  constructor; [intros H; apply Hk; exact (mismatch_keys r k H) | exact (IH Hr)].
Qed.

End Mismatch.

Lemma keys_In (st tt : list (string * nat)) (k : string) :
  In k (sorted (str_set (app (map fst st) (map fst tt)))) <-> In k (map fst st) \/ In k (map fst tt).
Proof. rewrite sorted_In. unfold str_set. rewrite nodup_In, in_app_iff. reflexivity. Qed.

(** A translation identical to its source raises no QA flag, except
    [unbalanced_braces] when the text itself has unbalanced braces. *)
Theorem compute_qa_flags_identical (t : option string) :
  compute_qa_flags t t =
  if Nat.eqb (count_char "{" (or_empty t)) (count_char "}" (or_empty t)) then []
  else [unbalanced_braces (count_char "{" (or_empty t)) (count_char "}" (or_empty t))].
Proof.
  rewrite compute_qa_flags_of. rewrite !set_minus_incl by (intros x Hx; exact Hx). cbv zeta.
  rewrite mismatches_self. unfold flags_of. cbn [sorted fold_right app].
  destruct (is_blank (or_empty t)), (Nat.eqb _ _); reflexivity.
Qed.

(** The [missing_placeholder] flag of [(source, target)] is exactly the
    [extra_placeholder] flag of [(target, source)]; its list has no
    duplicates and holds exactly the placeholders of the source that the
    target lacks. *)
Theorem placeholder_flags_exact (s t : option string) (ms : list string) :
  (In (missing_placeholder ms) (compute_qa_flags s t) <->
   In (extra_placeholder ms) (compute_qa_flags t s)) /\
  (In (missing_placeholder ms) (compute_qa_flags s t) ->
   NoDup ms /\
   forall x, In x ms <-> In x (extract_placeholders (Some (or_empty s))) /\
                        ~ In x (extract_placeholders (Some (or_empty t)))).
Proof.
  rewrite !compute_qa_flags_of, flags_of_missing, flags_of_extra.
  split; [reflexivity|]. intros [_ ->]. split.
  - eapply Permutation_NoDup; [apply Permutation_sym, sorted_perm|].
    unfold set_minus. apply NoDup_filter, extract_placeholders_nodup.
  - intros x. rewrite sorted_In. apply set_minus_In.
Qed.

(** The [html_tag_mismatch] flag lists each tag key at most once, with its
    source and target counts, exactly for the keys whose counts differ; it
    is raised if and only if some key's counts differ. *)
Theorem html_tag_mismatch_exact (s t : option string) :
  let st := extract_html_tags (Some (or_empty s)) in
  let tt := extract_html_tags (Some (or_empty t)) in
  (forall mm, In (html_tag_mismatch mm) (compute_qa_flags s t) ->
     NoDup (map fst mm) /\
     forall k a b, In (k, (a, b)) mm <-> a = dict_get st k /\ b = dict_get tt k /\ a <> b) /\
  ((exists mm, In (html_tag_mismatch mm) (compute_qa_flags s t)) <->
   exists k, dict_get st k <> dict_get tt k).
Proof.
  intros st tt. rewrite compute_qa_flags_of. cbv zeta. fold st tt.
  set (keys := sorted (str_set (app (map fst st) (map fst tt)))).
  set (X := flat_map _ keys).
  assert (HX : X = flat_map (mismatch_row st tt) keys) by reflexivity.
  clearbody X. subst X.
  assert (Hkeys : forall k, dict_get st k <> dict_get tt k -> In k keys).
  { intros k Hk. apply keys_In.
    destruct (dict_get st k) eqn:E1; [right; apply dict_get_in; congruence|].
    left. apply dict_get_in. rewrite E1. discriminate. }
  split.
  - intros mm Hmm. apply flags_of_html in Hmm as [_ ->]. split.
    + apply mismatch_nodup. eapply Permutation_NoDup; [apply Permutation_sym, sorted_perm|].
      apply NoDup_nodup.
    + intros k a b. rewrite mismatch_In. split; [tauto|].
      intros [Ha [Hb Hne]]. split; [apply Hkeys; congruence | auto].
  - split.
    + intros [mm Hmm]. apply flags_of_html in Hmm as [Hne ->].
      destruct (flat_map (mismatch_row st tt) keys) as [|[k [a b]] r] eqn:E; [congruence|].
      assert (Hin : In (k, (a, b)) (flat_map (mismatch_row st tt) keys)) by (rewrite E; left; reflexivity).
      apply mismatch_In in Hin as [_ [Ha [Hb Hab]]]. exists k. congruence.
    + intros [k Hk]. exists (flat_map (mismatch_row st tt) keys). apply flags_of_html.
      split; [|reflexivity].
      intros E. assert (Hin : In (k, (dict_get st k, dict_get tt k)) (flat_map (mismatch_row st tt) keys)).
      { apply mismatch_In. auto. }
      rewrite E in Hin. exact Hin.
Qed.

Lemma scan_in {A : Type} (m : matcher A) (s : string) (v : A) :
  forall k, In v (scan m k s) -> exists pre suf n, s = pre ++ suf /\ m suf = Some (n, v).
Proof.
  induction s as [|c r IH]; intros k H; simpl in H; [destruct H|].
  destruct k as [|k].
  - destruct (m (String c r)) as [[n a]|] eqn:E.
    + destruct H as [<-|H]; [exists EmptyString, (String c r), n; auto|].
      destruct (IH _ H) as [pre [suf [n' [-> Hm]]]]. exists (String c pre), suf, n'. auto.
    + destruct (IH _ H) as [pre [suf [n' [-> Hm]]]]. exists (String c pre), suf, n'. auto.
  - destruct (IH _ H) as [pre [suf [n' [-> Hm]]]]. exists (String c pre), suf, n'. auto.
Qed.








Lemma span_split (p : ascii -> bool) (s a b : string) :
  span p s = (a, b) -> s = a ++ b /\ QAFacts.all_chars p a = true.
Proof.
  revert a b. induction s as [|c r IH]; intros a b H; simpl in H.
  - injection H as <- <-. split; reflexivity.
  - destruct (p c) eqn:Ep.
    + destruct (span p r) as [a' b'] eqn:E. injection H as <- <-.
      destruct (IH _ _ eq_refl) as [-> Ha]. split; [reflexivity|]. simpl. rewrite Ep. exact Ha.
    + injection H as <- <-. split; reflexivity.
Qed.

(** What [extract_placeholders] can report: [%] followed by a conversion
    character [sdfox] at its end, or [{...}] with a non-empty body free of
    braces. *)
Definition placeholder_shape (x : string) : Prop :=
  (exists body c, x = String "%" (body ++ String c EmptyString) /\ is_conv c = true) \/
  (exists body, x = String "{" (body ++ "}") /\ body <> EmptyString /\
                QAFacts.all_chars (fun c => negb (is_brace c)) body = true).

Lemma chr_is_eq (c d : ascii) : chr_is c d = true -> c = d.
Proof. unfold chr_is. apply Ascii.eqb_eq. Qed.

Lemma m_named_shape (s : string) (n : nat) (x : string) :
  m_named s = Some (n, x) -> (exists rest, s = x ++ rest) /\ placeholder_shape x.
Proof.
  unfold m_named. destruct s as [|c0 r0]; [discriminate|].
  destruct (chr_is c0 "%" && not_pct_ahead r0) eqn:E0; [|discriminate].
  destruct r0 as [|c1 r1]; [discriminate|].
  destruct (chr_is c1 "(") eqn:E1; [|discriminate].
  destruct r1 as [|c2 r2]; [discriminate|].
  destruct (is_ident_start c2); [|discriminate].
  destruct (span is_ident r2) as [idt r3] eqn:Es.
  destruct r3 as [|c3 [|c4 r5]]; try discriminate.
  destruct (chr_is c3 ")" && is_conv c4) eqn:E3; [|discriminate].
  unfold tok. intros H. injection H as _ <-.
  apply andb_true_iff in E0 as [E0 _]. apply chr_is_eq in E0. subst c0.
  apply andb_true_iff in E3 as [_ E3]. apply span_split in Es as [-> _].
  split.
  - exists r5. simpl. rewrite append_assoc. reflexivity.
  - left. exists (String c1 (String c2 idt ++ String c3 EmptyString)), c4. split; [|exact E3].
    simpl. rewrite append_assoc. reflexivity.
Qed.

Lemma m_positional_shape (s : string) (n : nat) (x : string) :
  m_positional s = Some (n, x) -> (exists rest, s = x ++ rest) /\ placeholder_shape x.
Proof.
  unfold m_positional. destruct s as [|c0 r0]; [discriminate|].
  destruct (chr_is c0 "%" && not_pct_ahead r0) eqn:E0; [|discriminate].
  destruct (span is_digit r0) as [ds r1] eqn:Es.
  destruct ds as [|d ds']; [discriminate|].
  destruct r1 as [|c1 [|c2 r3]]; try discriminate.
  destruct (chr_is c1 "$" && is_conv c2) eqn:E3; [|discriminate].
  unfold tok. intros H. injection H as _ <-.
  apply andb_true_iff in E0 as [E0 _]. apply chr_is_eq in E0. subst c0.
  apply andb_true_iff in E3 as [_ E3]. apply span_split in Es as [-> _].
  split.
  - exists r3. simpl. rewrite append_assoc. reflexivity.
  - left. exists (String d ds' ++ String c1 EmptyString), c2. split; [|exact E3].
    rewrite append_assoc. reflexivity.
Qed.

Lemma m_simple_shape (s : string) (n : nat) (x : string) :
  m_simple s = Some (n, x) -> (exists rest, s = x ++ rest) /\ placeholder_shape x.
Proof.
  unfold m_simple. destruct s as [|c0 [|c1 r]]; try discriminate.
  destruct (chr_is c0 "%" && not_pct_ahead (String c1 EmptyString) && is_conv c1) eqn:E; [|discriminate].
  unfold tok. intros H. injection H as _ <-.
  apply andb_true_iff in E as [E Ec]. apply andb_true_iff in E as [E _]. apply chr_is_eq in E. subst c0.
  split; [exists r; reflexivity|]. left. exists EmptyString, c1. auto.
Qed.

Lemma m_curly_shape (s : string) (n : nat) (x : string) :
  m_curly s = Some (n, x) -> (exists rest, s = x ++ rest) /\ placeholder_shape x.
Proof.
  unfold m_curly. destruct s as [|c0 r0]; [discriminate|].
  destruct (chr_is c0 "{") eqn:E0; [|discriminate].
  destruct (span (fun c => negb (is_brace c)) r0) as [body r1] eqn:Es.
  destruct body as [|b bs]; [discriminate|].
  destruct r1 as [|c1 r2]; [discriminate|].
  destruct (chr_is c1 "}") eqn:E1; [|discriminate].
  unfold tok. intros H. injection H as _ <-.
  apply chr_is_eq in E0. apply chr_is_eq in E1. subst c0 c1.
  apply span_split in Es as [-> Hall].
  split; [exists r2; simpl; rewrite append_assoc; reflexivity|].
  right. exists (String b bs). split; [reflexivity|]. split; [discriminate | exact Hall].
Qed.

Lemma findall_occurs (m : matcher string) (t x : string) :
  (forall s n, m s = Some (n, x) -> (exists rest, s = x ++ rest) /\ placeholder_shape x) ->
  In x (findall m t) -> (exists pre suf, t = pre ++ x ++ suf) /\ placeholder_shape x.
Proof.
  intros Hm Hin. apply scan_in in Hin as [pre [suf [n [-> Hs]]]].
  destruct (Hm _ _ Hs) as [[rest ->] Hx]. split; [exists pre, rest; reflexivity | exact Hx].
Qed.

(** Every placeholder [extract_placeholders] reports occurs in the text, as
    a [%...] token ending in a conversion character or a [{...}] token. *)
Theorem extract_placeholders_occur (text : option string) (x : string) :
  In x (extract_placeholders text) ->
  (exists pre suf, or_empty text = pre ++ x ++ suf) /\ placeholder_shape x.
Proof.
  destruct text as [[|c r]|]; cbn [extract_placeholders or_empty]; try (intros []).
  unfold str_set. rewrite nodup_In, !in_app_iff.
  intros [H|[H|[H|H]]];
    [ apply (findall_occurs m_named); [intros s0 n0; exact (m_named_shape s0 n0 x) | exact H]
    | apply (findall_occurs m_positional); [intros s0 n0; exact (m_positional_shape s0 n0 x) | exact H]
    | apply (findall_occurs m_simple); [intros s0 n0; exact (m_simple_shape s0 n0 x) | exact H]
    | apply (findall_occurs m_curly); [intros s0 n0; exact (m_curly_shape s0 n0 x) | exact H] ].
Qed.

(** [[0-9a-f]] *)
Definition is_lower_hex (c : ascii) : bool :=
  let n := nat_of_ascii c in is_digit c || (Nat.leb 97 n && Nat.leb n 102).

Lemma round_length (st : list Z) (kw : Z * Z) : length st = 8 -> length (Sha256.round st kw) = 8.
Proof.
  intros H. do 8 (destruct st as [|? st]; [discriminate H|]).
  destruct st; [reflexivity | discriminate H].
Qed.

Lemma fold_round_length (kws : list (Z * Z)) (st : list Z) :
  length st = 8 -> length (fold_left Sha256.round kws st) = 8.
Proof.
  revert st. induction kws as [|kw r IH]; intros st H; simpl; [exact H|].
  apply IH, round_length, H.
Qed.

Lemma compress_length (st b : list Z) : length st = 8 -> length (Sha256.compress st b) = 8.
Proof.
  intros H. unfold Sha256.compress. rewrite length_map, length_combine, fold_round_length by exact H.
  rewrite H. reflexivity.
Qed.

Lemma blocks_length (fuel : nat) (st b : list Z) : length st = 8 -> length (Sha256.blocks fuel st b) = 8.
Proof.
  revert st b. induction fuel as [|f IH]; intros st b H; simpl; [exact H|].
  destruct b; [exact H|]. apply IH, compress_length, H.
Qed.

Lemma get_all_chars (p : ascii -> bool) (s : string) (i : nat) (c : ascii) :
  QAFacts.all_chars p s = true -> String.get i s = Some c -> p c = true.
Proof.
  revert i. induction s as [|d r IH]; intros i Hs Hg; [discriminate Hg|].
  simpl in Hs. apply andb_true_iff in Hs as [Hd Hr].
  destruct i as [|i]; simpl in Hg; [injection Hg as <-; exact Hd | exact (IH i Hr Hg)].
Qed.

Lemma hex_digit_hex (n : Z) : is_lower_hex (Sha256.hex_digit n) = true.
Proof.
  unfold Sha256.hex_digit. destruct (String.get _ _) as [c|] eqn:E; [|reflexivity].
  refine (get_all_chars is_lower_hex _ _ _ _ E). reflexivity.
Qed.

Lemma hex_word_spec (x : Z) :
  String.length (Sha256.hex_word x) = 8 /\ QAFacts.all_chars is_lower_hex (Sha256.hex_word x) = true.
Proof.
  unfold Sha256.hex_word. cbn [seq fold_right]. split; [reflexivity|].
  cbn [QAFacts.all_chars]. rewrite !hex_digit_hex. reflexivity.
Qed.

Lemma hex_words_spec (l : list Z) :
  let d := fold_right (fun x acc => Sha256.hex_word x ++ acc) EmptyString l in
  String.length d = 8 * length l /\ QAFacts.all_chars is_lower_hex d = true.
Proof.
  induction l as [|x r IH]; cbn zeta in *; [split; reflexivity|].
  destruct IH as [IH1 IH2]. destruct (hex_word_spec x) as [H1 H2]. cbn [fold_right length].
  rewrite string_length_app, QAFacts.all_chars_app, IH1, IH2, H1, H2. split; [lia | reflexivity].
Qed.

(** [compute_source_hash] always returns 64 lowercase hexadecimal digits. *)
Theorem compute_source_hash_hex (text : option string) :
  String.length (compute_source_hash text) = 64 /\
  QAFacts.all_chars is_lower_hex (compute_source_hash text) = true.
Proof.
  unfold compute_source_hash, Sha256.hexdigest. cbv zeta.
  destruct (hex_words_spec (Sha256.blocks (length (Sha256.pad (Sha256.bytes_of (strip (nfc (or_empty text))))))
                              Sha256.H0 (Sha256.pad (Sha256.bytes_of (strip (nfc (or_empty text))))))) as [H1 H2].
  rewrite blocks_length in H1 by reflexivity. split; [exact H1 | exact H2].
Qed.

End QAMoreFacts.

(* ------------------------------------------------------------------ *)
(** ** [export_all_locales] (management/commands/export_all_locales.py) *)

Module ExportAll.
Import ImportCmd Exporter.

(** [str.split(sep)] with a one-character separator: always at least one
    part. *)
Fixpoint split_on (sep : ascii) (s : string) : list string :=
  match s with
  | EmptyString => [EmptyString]
  | String c r =>
      let parts := split_on sep r in
      if Ascii.eqb c sep then EmptyString :: parts
      else match parts with
           | p :: ps => String c p :: ps
           | [] => [String c EmptyString]
           end
  end.

(** [_parse_locales_arg] *)
Definition _parse_locales_arg (value : option string) : list string :=
  let parts := map strip (split_on "," (or_empty value)) in
  filter (fun p => negb (String.eqb p EmptyString)) parts.

(** [sorted(locales, key=lambda l: l.code)] (stable), also used for
    [order_by("code")]. *)
Fixpoint insert_by_code (x : Locale) (l : list Locale) : list Locale :=
  match l with
  | [] => [x]
  | y :: r => if String.leb (l_code x) (l_code y) then x :: l else y :: insert_by_code x r
  end.

Definition sort_by_code (l : list Locale) : list Locale := fold_right insert_by_code [] l.

Inductive ExportAllError :=
| all_err_out_dir
| all_err_missing_requested (codes : list string)
| all_err_export (e : ExportError).

(** The loop over [locales_to_export]: the files written (name and
    records), [exported_count], [total_approved], [total_missing], and the
    error raised by [export_locale_csv], if any. *)
Fixpoint export_each (mkdir_ok : bool) (iso : Z -> string) (units : list StringUnit) (db : DB)
  (locs : list Locale) (include_source_updated : bool) (missing_marker : string)
  (only_missing : bool) (to_export : list Locale) (exported_count total_approved total_missing : nat)
  : list (string * list (list string)) * nat * nat * nat * option ExportError :=
  match to_export with
  | [] => ([], exported_count, total_approved, total_missing, None)
  | loc :: rest =>
      match export_locale_csv locs mkdir_ok iso units db (l_code loc) include_source_updated
              missing_marker only_missing with
      | inl e => ([], exported_count, total_approved, total_missing, Some e)
      | inr (stats, rows) =>
          let '(fs, n, a, m, err) :=
            export_each mkdir_ok iso units db locs include_source_updated missing_marker only_missing
              rest (S exported_count) (total_approved + approved_count stats)
              (total_missing + missing_count stats) in
          ((output_name stats, rows) :: fs, n, a, m, err)
      end
  end.

(** [Command.handle]: the files written, the final summary (if printed)
    and the [CommandError] raised, if any; [locs] is the Locale table. The
    warnings for disabled locales go to stderr and are left out. *)
Definition handle (mkdir_ok : bool) (iso : Z -> string) (units : list StringUnit) (db : DB)
  (locs : list Locale) (include_source_updated : bool) (missing_marker : string)
  (only_missing : bool) (locales_arg : option string)
  : list (string * list (list string)) * option (nat * nat * nat) * option ExportAllError :=
  if negb mkdir_ok then ([], None, Some all_err_out_dir) else
  let '(missing_requested, locales_to_export) :=
    if truthy locales_arg then
      let requested_codes := _parse_locales_arg locales_arg in
      let locales := filter (fun l => existsb (String.eqb (l_code l)) requested_codes) locs in
      let missing := filter (fun c => negb (existsb (fun l => String.eqb (l_code l) c) locales))
                       requested_codes in
      (missing, sort_by_code locales)
    else ([], sort_by_code (filter l_enabled locs)) in
  match locales_to_export with
  | [] => ([], None, None)
  | _ =>
      let '(fs, n, a, m, err) :=
        export_each mkdir_ok iso units db locs include_source_updated missing_marker only_missing
          locales_to_export 0 0 0 in
      match err with
      | Some e => (fs, None, Some (all_err_export e))
      | None =>
          (fs, Some (n, a, m),
           match missing_requested with
           | [] => None
           | _ => Some (all_err_missing_requested missing_requested)
           end)
      end
  end.

End ExportAll.

Module ExportAllFacts.
Import ImportCmd Exporter ExportAll.

Lemma split_on_parts (sep : ascii) (s p : string) :
  In p (split_on sep s) -> count_char sep p = 0.
Proof.
  revert p. induction s as [|c r IH]; intros p H; simpl in H.
  - destruct H as [<-|[]]. reflexivity.
  - destruct (Ascii.eqb c sep) eqn:E.
    + destruct H as [<-|H]; [reflexivity | exact (IH p H)].
    + destruct (split_on sep r) as [|q qs] eqn:Er.
      * destruct H as [<-|[]]. simpl. rewrite E. reflexivity.
      * destruct H as [<-|H]; [|exact (IH p (or_intror H))].
        simpl. rewrite E. exact (IH q (or_introl eq_refl)).
Qed.

Lemma split_on_none (sep : ascii) (x : string) : count_char sep x = 0 -> split_on sep x = [x].
Proof.
  induction x as [|c r IH]; simpl; [reflexivity|].
  destruct (Ascii.eqb c sep); [discriminate|]. intros H. rewrite (IH H). reflexivity.
Qed.

Lemma split_on_app (sep : ascii) (x rest : string) :
  count_char sep x = 0 -> split_on sep (x ++ String sep rest) = x :: split_on sep rest.
Proof.
  induction x as [|c r IH]; simpl; intros H.
  - rewrite Ascii.eqb_refl. reflexivity.
  - destruct (Ascii.eqb c sep); [discriminate|]. rewrite (IH H). reflexivity.
Qed.

Lemma split_on_concat (l : list string) :
  l <> [] -> Forall (fun c => count_char "," c = 0) l ->
  split_on "," (String.concat "," l) = l.
Proof.
  induction l as [|x [|y r] IH]; intros Hne Hl; [congruence| |].
  - inversion Hl; subst. simpl. apply split_on_none. assumption.
  - inversion Hl as [|? ? Hx Hr]; subst.
    change (String.concat "," (x :: y :: r)) with (x ++ String "," (String.concat "," (y :: r))).
    rewrite (split_on_app _ _ _ Hx), IH; [reflexivity | discriminate | exact Hr].
Qed.

(** Every code [_parse_locales_arg] returns is non-empty, stripped and free
    of commas. *)
Theorem parse_locales_arg_codes (value : option string) (x : string) :
  In x (_parse_locales_arg value) ->
  x <> EmptyString /\ strip x = x /\ count_char "," x = 0.
Proof.
  unfold _parse_locales_arg. rewrite filter_In, in_map_iff, negb_true_iff.
  intros [[p [<- Hp]] Hne]. split; [intros E; rewrite E in Hne; discriminate Hne|].
  split; [apply strip_idem|]. rewrite count_char_strip by reflexivity.
  exact (split_on_parts _ _ _ Hp).
Qed.

(** [_parse_locales_arg] inverts [",".join]: joining codes that are
    non-empty, stripped and free of commas and parsing the result gives the
    codes back. *)
Theorem parse_locales_arg_join (codes : list string)
  (H : Forall (fun c => c <> EmptyString /\ strip c = c /\ count_char "," c = 0) codes) :
  _parse_locales_arg (Some (String.concat "," codes)) = codes.
Proof.
  destruct codes as [|c0 cs]; [reflexivity|].
  unfold _parse_locales_arg. cbn [or_empty].
  rewrite split_on_concat; [|discriminate|].
  - induction H as [|c r [Hc [Hs _]] _ IH]; [reflexivity|]. cbn [map filter].
    rewrite Hs. destruct (String.eqb c EmptyString) eqn:E; [apply String.eqb_eq in E; contradiction|].
    cbn [negb]. rewrite IH. reflexivity.
  - eapply Forall_impl; [|exact H]. intros c [_ [_ Hc]]. exact Hc.
Qed.

Lemma insert_by_code_perm (x : Locale) (l : list Locale) : Permutation (insert_by_code x l) (x :: l).
Proof.
  induction l as [|y r IH]; simpl; [reflexivity|].
  destruct (String.leb (l_code x) (l_code y)); [reflexivity|].
  eapply perm_trans; [apply perm_skip; exact IH | apply perm_swap].
Qed.

Lemma sort_by_code_perm (l : list Locale) : Permutation (sort_by_code l) l.
Proof.
  induction l as [|x r IH]; simpl; [reflexivity|].
  eapply perm_trans; [apply insert_by_code_perm | apply perm_skip; exact IH].
Qed.

Lemma export_ok (locs : list Locale) (iso : Z -> string) (units : list StringUnit) (db : DB)
  (loc : Locale) (inc : bool) (marker : string) (om : bool) :
  In loc locs -> exists r, export_locale_csv locs true iso units db (l_code loc) inc marker om = inr r.
Proof.
  intros Hin. unfold export_locale_csv.
  destruct (find_locale_code (l_code loc) locs) as [l'|] eqn:E.
  - cbv zeta. cbn [negb].
    destruct (export_units _ _ _ _ _ _ units 0 0 0) as [[[t a] m] rs]. eexists. reflexivity.
  - exfalso. unfold find_locale_code in E. apply (find_none _ _ E) in Hin.
    rewrite String.eqb_refl in Hin. discriminate Hin.
Qed.

(** A file of [export_all_locales]: what [export_locale_csv] writes for [loc]. *)
Definition exported_file (locs : list Locale) (iso : Z -> string) (units : list StringUnit) (db : DB)
  (inc : bool) (marker : string) (om : bool) (loc : Locale) (f : string * list (list string)) : Prop :=
  fst f = "voyant_" ++ l_code loc ++ ".csv" /\
  exists stats, export_locale_csv locs true iso units db (l_code loc) inc marker om = inr (stats, snd f).

Lemma export_each_spec (iso : Z -> string) (units : list StringUnit) (db : DB) (locs : list Locale)
  (inc : bool) (marker : string) (om : bool) (L : list Locale) :
  incl L locs ->
  forall n0 a0 m0 fs n a m err,
  export_each true iso units db locs inc marker om L n0 a0 m0 = (fs, n, a, m, err) ->
  err = None /\ n = n0 + length L /\ Forall2 (exported_file locs iso units db inc marker om) L fs.
Proof.
  induction L as [|loc rest IH]; intros Hincl n0 a0 m0 fs n a m err H; cbn [export_each] in H.
  - injection H as <- <- <- <- <-. split; [reflexivity|]. split; [cbn; lia | constructor].
  - destruct (export_ok locs iso units db loc inc marker om (Hincl loc (or_introl eq_refl)))
      as [[stats rows] Ex].
    rewrite Ex in H.
    destruct (export_each true iso units db locs inc marker om rest _ _ _) as [[[[fs1 n1] a1] m1] err1] eqn:E.
    injection H as <- <- <- <- <-.
    destruct (IH (fun x Hx => Hincl x (or_intror Hx)) _ _ _ _ _ _ _ _ E) as [He [Hn Hf]].
    split; [exact He|]. split; [cbn [length]; lia|]. constructor; [|exact Hf].
    split; [|exists stats; exact Ex].
    unfold export_locale_csv in Ex.
    destruct (find_locale_code (l_code loc) locs); [|discriminate Ex].
    cbv zeta in Ex. cbn [negb] in Ex.
    destruct (export_units _ _ _ _ _ _ units 0 0 0) as [[[t1 a2] m2] rs]. injection Ex as <- _. reflexivity.
Qed.

Lemma existsb_requested (locs : list Locale) (requested : list string) (c : string) :
  In c requested ->
  existsb (fun l => String.eqb (l_code l) c)
    (filter (fun l => existsb (String.eqb (l_code l)) requested) locs) =
  existsb (fun l => String.eqb (l_code l) c) locs.
Proof.
  intros Hc. apply eq_true_iff_eq. rewrite !existsb_exists. split.
  - intros [l [Hl Hlc]]. apply filter_In in Hl as [Hl _]. eauto.
  - intros [l [Hl Hlc]]. exists l. split; [|exact Hlc]. apply filter_In. split; [exact Hl|].
    apply existsb_exists. exists c. split; [exact Hc|]. exact Hlc.
Qed.

(** With the output directory created, [export_all_locales] writes, in
    code order, one [export_locale_csv] file for each requested locale that
    exists (enabled or not), or for each enabled locale without
    [--locales]. It fails about the requested codes missing from the table
    only after writing the others, and does not fail at all when none of
    the requested codes exists. *)
Theorem export_all_handle_spec (iso : Z -> string) (units : list StringUnit) (db : DB)
  (locs : list Locale) (inc : bool) (marker : string) (om : bool) (arg : option string)
  fs summary err
  (H : handle true iso units db locs inc marker om arg = (fs, summary, err)) :
  let requested := _parse_locales_arg arg in
  let selected := if truthy arg
                  then filter (fun l => existsb (String.eqb (l_code l)) requested) locs
                  else filter l_enabled locs in
  let missing := if truthy arg
                 then filter (fun c => negb (existsb (fun l => String.eqb (l_code l) c) locs)) requested
                 else [] in
  Forall2 (exported_file locs iso units db inc marker om) (sort_by_code selected) fs /\
  (summary = None <-> selected = []) /\
  err = (match selected, missing with
         | [], _ => None
         | _, [] => None
         | _, _ => Some (all_err_missing_requested missing)
         end).
Proof.
  intros requested selected missing.
  assert (Hmiss : (if truthy arg
                   then filter (fun c => negb (existsb (fun l => String.eqb (l_code l) c)
                                   (filter (fun l => existsb (String.eqb (l_code l)) requested) locs)))
                          requested
                   else []) = missing).
  { unfold missing. destruct (truthy arg); [|reflexivity].
    apply filter_ext_in. intros c Hc. rewrite existsb_requested by exact Hc. reflexivity. }
  assert (Hincl : incl (sort_by_code selected) locs).
  { intros x Hx. apply (Permutation_in _ (sort_by_code_perm _)) in Hx.
    unfold selected in Hx. destruct (truthy arg); apply filter_In in Hx; tauto. }
  unfold handle in H. cbn [negb] in H.
  replace (if truthy arg then _ else _) with (missing, sort_by_code selected) in H
    by (rewrite <- Hmiss; unfold selected; destruct (truthy arg); reflexivity).
  assert (Hsel : sort_by_code selected = [] <-> selected = []).
  { split; intros E; [|rewrite E; reflexivity].
    apply Permutation_nil. rewrite <- E. apply sort_by_code_perm. }
  destruct (sort_by_code selected) as [|s0 ss] eqn:Es.
  - injection H as <- <- <-. assert (Es' : selected = []) by (apply Hsel; reflexivity).
    split; [constructor|]. split; [split; intros _; [exact Es' | reflexivity]|].
    rewrite Es'. reflexivity.
  - destruct (export_each true iso units db locs inc marker om (s0 :: ss) 0 0 0)
      as [[[[fs1 n] a] m] err1] eqn:E.
    destruct (export_each_spec iso units db locs inc marker om (s0 :: ss) Hincl _ _ _ _ _ _ _ _ E)
      as [-> [_ Hf]].
    injection H as <- <- <-.
    assert (Hne : selected <> []) by (intros E'; apply Hsel in E'; discriminate E').
    split; [exact Hf|]. split; [split; [discriminate | intros E'; contradiction]|].
    destruct selected; [contradiction|]. destruct missing; reflexivity.
Qed.

End ExportAllFacts.

(* ------------------------------------------------------------------ *)
(** ** [seed_locales] (services/locale_presets.py, management/commands/seed_locales.py) *)

Module Seed.
Import ImportCmd.

(** [LocaleSeed] *)
Record LocaleSeed := mkLocaleSeed {
  s_code : string;
  s_bcp47 : string;
  s_name : string;
  s_script : option string;
  s_is_rtl : bool
}.

Definition PRESET_GLOBAL_PLUS_AFRICA_INDIA_CHINESE : string := "global_plus_africa_india_chinese".

(** [LOCALE_PRESETS] *)
Definition LOCALE_PRESETS : list (string * list LocaleSeed) :=
  [(PRESET_GLOBAL_PLUS_AFRICA_INDIA_CHINESE, [
    mkLocaleSeed "zh-hans" "zh-Hans" "Chinese (Simplified)" (Some "Hans") false;
    mkLocaleSeed "zh-hant" "zh-Hant" "Chinese (Traditional)" (Some "Hant") false;
    mkLocaleSeed "ta" "ta" "Tamil" (Some "Tamil") false;
    mkLocaleSeed "te" "te" "Telugu" (Some "Telu") false;
    mkLocaleSeed "mr" "mr" "Marathi" (Some "Deva") false;
    mkLocaleSeed "pa" "pa" "Punjabi" (Some "Guru") false;
    mkLocaleSeed "kn" "kn" "Kannada" (Some "Knda") false;
    mkLocaleSeed "ml" "ml" "Malayalam" (Some "Mlym") false;
    mkLocaleSeed "or" "or" "Odia" (Some "Orya") false;
    mkLocaleSeed "as" "as" "Assamese" (Some "Beng") false;
    mkLocaleSeed "sw" "sw" "Swahili" (Some "Latn") false;
    mkLocaleSeed "am" "am" "Amharic" (Some "Ethi") false;
    mkLocaleSeed "ha" "ha" "Hausa" (Some "Latn") false;
    mkLocaleSeed "yo" "yo" "Yoruba" (Some "Latn") false;
    mkLocaleSeed "ig" "ig" "Igbo" (Some "Latn") false;
    mkLocaleSeed "zu" "zu" "isiZulu" (Some "Latn") false;
    mkLocaleSeed "xh" "xh" "isiXhosa" (Some "Latn") false;
    mkLocaleSeed "so" "so" "Somali" (Some "Latn") false;
    mkLocaleSeed "ti" "ti" "Tigrinya" (Some "Ethi") false;
    mkLocaleSeed "rw" "rw" "Kinyarwanda" (Some "Latn") false;
    mkLocaleSeed "sn" "sn" "Shona" (Some "Latn") false
  ])].

(** [LOCALE_PRESETS.get(preset, [])] *)
Definition presets_get (preset : string) : list LocaleSeed :=
  match find (fun kv => String.eqb (fst kv) preset) LOCALE_PRESETS with
  | Some (_, v) => v
  | None => []
  end.

Inductive SeedError := err_unsupported_preset (preset : string).

(** The loop of [handle] inside [transaction.atomic()]: counters
    [created_count], [updated_count], [skipped_count], [created_codes] and
    the Locale table. [get_or_create] creates the row with
    [legacy_column = NULL]; [save(update_fields=changed_fields)] writes the
    changed fields, and the unchanged ones already hold the seed's values. *)
Fixpoint seed_loop (enable : bool) (seeds : list LocaleSeed) (locs : list Locale)
  (created_count updated_count skipped_count : nat) (created_codes : list string)
  : nat * nat * nat * list string * list Locale :=
  match seeds with
  | [] => (created_count, updated_count, skipped_count, created_codes, locs)
  | seed :: rest =>
      match find_locale_code (s_code seed) locs with
      | None =>
          let locale := mkLocale (fresh_locale_pk locs) (s_code seed) (s_bcp47 seed) (s_name seed)
                          (s_script seed) (s_is_rtl seed) enable None in
          seed_loop enable rest (app locs [locale]) (S created_count) updated_count skipped_count
            (app created_codes [l_code locale])
      | Some locale =>
          let changed_fields :=
            app (if String.eqb (l_bcp47 locale) (s_bcp47 seed) then [] else ["bcp47"])
            (app (if String.eqb (l_name locale) (s_name seed) then [] else ["name"])
            (app (if opt_str_eqb (l_script locale) (s_script seed) then [] else ["script"])
            (app (if Bool.eqb (l_is_rtl locale) (s_is_rtl seed) then [] else ["is_rtl"])
                 (if Bool.eqb (l_enabled locale) enable then [] else ["enabled"])))) in
          let locale' := mkLocale (l_pk locale) (l_code locale) (s_bcp47 seed) (s_name seed)
                           (s_script seed) (s_is_rtl seed) enable (l_legacy_column locale) in
          match changed_fields with
          | [] => seed_loop enable rest locs created_count updated_count (S skipped_count) created_codes
          | _ => seed_loop enable rest (write_locale locale' locs) created_count (S updated_count)
                   skipped_count created_codes
          end
      end
  end.

(** [Command.handle]: the counters, [created_codes] (from which the
    preview is printed) and the Locale table after the transaction; a dry
    run rolls the table back. *)
Definition handle (preset_opt : string) (enable dry_run : bool) (locs : list Locale)
  : sum SeedError (nat * nat * nat * list string * list Locale) :=
  let preset := strip preset_opt in
  if negb (String.eqb preset PRESET_GLOBAL_PLUS_AFRICA_INDIA_CHINESE)
  then inl (err_unsupported_preset preset) else
  let seeds := presets_get preset in
  match seeds with
  | [] => inr (0, 0, 0, [], locs)
  | _ =>
      let '(c, u, k, codes, locs') := seed_loop enable seeds locs 0 0 0 [] in
      inr (c, u, k, codes, if dry_run then locs else locs')
  end.

End Seed.

Module SeedFacts.
Import ImportCmd Seed.

(** The Locale row [l] holds the seed's values, with [enabled = enable]. *)
Definition seed_matches (enable : bool) (s : LocaleSeed) (l : Locale) : Prop :=
  l_code l = s_code s /\ l_bcp47 l = s_bcp47 s /\ l_name l = s_name s /\
  l_script l = s_script s /\ l_is_rtl l = s_is_rtl s /\ l_enabled l = enable.

(** Primary key and [legacy_column] of a row. *)
Definition pk_legacy (l : Locale) : positive * option string := (l_pk l, l_legacy_column l).

Lemma opt_str_eqb_eq (a b : option string) : opt_str_eqb a b = true <-> a = b.
Proof.
  destruct a as [x|], b as [y|]; simpl; try (split; congruence).
  rewrite String.eqb_eq. split; congruence.
Qed.

Lemma pk_unique (locs : list Locale) (a b : Locale) :
  NoDup (map l_pk locs) -> In a locs -> In b locs -> l_pk a = l_pk b -> a = b.
Proof.
  induction locs as [|x r IH]; intros Hn Ha Hb Hab; [destruct Ha|].
  inversion Hn as [|? ? Hx Hr]; subst.
  destruct Ha as [<-|Ha], Hb as [<-|Hb]; try reflexivity.
  - exfalso. apply Hx. rewrite Hab. apply in_map, Hb.
  - exfalso. apply Hx. rewrite <- Hab. apply in_map, Ha.
  - exact (IH Hr Ha Hb Hab).
Qed.

Lemma fresh_locale_pk_fresh (locs : list Locale) : ~ In (fresh_locale_pk locs) (map l_pk locs).
Proof.
  unfold fresh_locale_pk.
  assert (G : forall m, (forall l, In l locs -> (l_pk l <= fold_left (fun m l => Pos.max m (l_pk l)) locs m)%positive)
                        /\ (m <= fold_left (fun m l => Pos.max m (l_pk l)) locs m)%positive).
  { induction locs as [|x r IH]; intros m; simpl; [split; [intros _ []| lia]|].
    destruct (IH (Pos.max m (l_pk x))) as [H1 H2]. split; [|lia].
    intros l [<-|Hl]; [lia | exact (H1 l Hl)]. }
  intros Hin. apply in_map_iff in Hin as [l [E Hl]].
  destruct (G 1%positive) as [H1 _]. specialize (H1 l Hl). lia.
Qed.

Lemma find_app_nomatch {A} (f : A -> bool) (l : list A) (x : A) :
  f x = false -> find f (app l [x]) = find f l.
Proof. intros Hx. induction l as [|y r IH]; simpl; [rewrite Hx; reflexivity|]. destruct (f y); [reflexivity | exact IH]. Qed.

Lemma find_ext_in {A} (P Q : A -> bool) (l : list A) :
  (forall x, In x l -> P x = Q x) -> find P l = find Q l.
Proof.
  induction l as [|x r IH]; intros H; simpl; [reflexivity|].
  rewrite (H x (or_introl eq_refl)), IH; [reflexivity|]. intros y Hy. exact (H y (or_intror Hy)).
Qed.

Lemma write_locale_pks (x : Locale) (locs : list Locale) :
  map l_pk (write_locale x locs) = map l_pk locs.
Proof.
  unfold write_locale. rewrite map_map. apply map_ext. intros y.
  destruct (Pos.eqb (l_pk y) (l_pk x)) eqn:E; [apply Pos.eqb_eq in E; congruence | reflexivity].
Qed.

Lemma find_write_other (code code' : string) (o x : Locale) (locs : list Locale) :
  NoDup (map l_pk locs) -> find_locale_code code' locs = Some o ->
  l_pk x = l_pk o -> l_code x = code' -> code <> code' ->
  find_locale_code code (write_locale x locs) = find_locale_code code locs.
Proof.
  intros Hn Ho Hpk Hx Hne. pose proof (ImportCmdFacts.find_locale_code_code _ _ _ Ho) as Hoc.
  apply find_some in Ho as [Hin _].
  unfold find_locale_code, write_locale. rewrite AdminMoreFacts.find_map_gen.
  assert (Hsame : forall y, In y locs -> Pos.eqb (l_pk y) (l_pk x) = true -> y = o).
  { intros y Hy E. apply Pos.eqb_eq in E. apply (pk_unique locs); congruence. }
  rewrite (find_ext_in _ (fun l => String.eqb (l_code l) code)).
  - destruct (find (fun l => String.eqb (l_code l) code) locs) as [l|] eqn:E; [|reflexivity].
    apply find_some in E as [Hl El]. apply String.eqb_eq in El. simpl.
    destruct (Pos.eqb (l_pk l) (l_pk x)) eqn:Ep; [|reflexivity].
    exfalso. apply Hne. rewrite <- El, <- Hoc. f_equal. exact (Hsame l Hl Ep).
  - intros y Hy. destruct (Pos.eqb (l_pk y) (l_pk x)) eqn:Ep; [|reflexivity].
    rewrite (Hsame y Hy Ep), Hx, Hoc.
    destruct (String.eqb code' code) eqn:E; [apply String.eqb_eq in E; congruence | reflexivity].
Qed.

Lemma write_locale_pk_legacy (x o : Locale) (locs : list Locale) :
  NoDup (map l_pk locs) -> In o locs -> l_pk x = l_pk o -> l_legacy_column x = l_legacy_column o ->
  map pk_legacy (write_locale x locs) = map pk_legacy locs.
Proof.
  intros Hn Ho Hpk Hleg. unfold write_locale. rewrite map_map. apply map_ext_in. intros y Hy.
  destruct (Pos.eqb (l_pk y) (l_pk x)) eqn:E; [|reflexivity].
  apply Pos.eqb_eq in E. assert (y = o) by (apply (pk_unique locs); congruence). subst y.
  unfold pk_legacy. congruence.
Qed.

Lemma seed_loop_spec (enable : bool) (seeds : list LocaleSeed) :
  NoDup (map s_code seeds) ->
  forall locs c0 u0 k0 codes0 c u k codes locs',
  NoDup (map l_pk locs) ->
  seed_loop enable seeds locs c0 u0 k0 codes0 = (c, u, k, codes, locs') ->
  NoDup (map l_pk locs') /\
  (forall s, In s seeds -> exists l, find_locale_code (s_code s) locs' = Some l /\ seed_matches enable s l) /\
  (forall code, ~ In code (map s_code seeds) -> find_locale_code code locs' = find_locale_code code locs) /\
  (exists new, map pk_legacy locs' = app (map pk_legacy locs) new /\ Forall (fun p => snd p = None) new) /\
  c + u + k = c0 + u0 + k0 + length seeds /\ c0 <= c /\ length codes = length codes0 + (c - c0).
Proof.
  induction seeds as [|s rest IH]; intros Hsn locs c0 u0 k0 codes0 c u k codes locs' Hn H;
    cbn [seed_loop] in H.
  - injection H as <- <- <- <- <-. split; [exact Hn|]. split; [intros s []|].
    split; [reflexivity|]. split; [exists []; split; [symmetry; apply app_nil_r | constructor]|]. cbn [length]. lia.
  - inversion Hsn as [|? ? Hs Hrest]; subst.
    (* the table after the first seed *)
    assert (Step : exists locs1 c1 u1 k1 codes1,
      seed_loop enable rest locs1 c1 u1 k1 codes1 = (c, u, k, codes, locs') /\
      NoDup (map l_pk locs1) /\
      (exists l, find_locale_code (s_code s) locs1 = Some l /\ seed_matches enable s l) /\
      (forall code, code <> s_code s -> find_locale_code code locs1 = find_locale_code code locs) /\
      (exists new, map pk_legacy locs1 = app (map pk_legacy locs) new /\ Forall (fun p => snd p = None) new) /\
      c1 + u1 + k1 = S (c0 + u0 + k0) /\ c0 <= c1 /\ length codes1 = length codes0 + (c1 - c0)).
    { destruct (find_locale_code (s_code s) locs) as [loc|] eqn:Ef.
      - pose proof (ImportCmdFacts.find_locale_code_code _ _ _ Ef) as Hlc.
        assert (Hin : In loc locs) by (apply find_some in Ef; tauto).
        destruct (String.eqb (l_bcp47 loc) (s_bcp47 s)) eqn:E1;
        destruct (String.eqb (l_name loc) (s_name s)) eqn:E2;
        destruct (opt_str_eqb (l_script loc) (s_script s)) eqn:E3;
        destruct (Bool.eqb (l_is_rtl loc) (s_is_rtl s)) eqn:E4;
        destruct (Bool.eqb (l_enabled loc) enable) eqn:E5; cbn [app] in H;
        [ exists locs, c0, u0, (S k0), codes0; split; [exact H|];
          split; [exact Hn|]; split;
          [ exists loc; split; [exact Ef|];
            apply String.eqb_eq in E1; apply String.eqb_eq in E2; apply opt_str_eqb_eq in E3;
            apply Bool.eqb_prop in E4; apply Bool.eqb_prop in E5; repeat split; assumption
          | split; [reflexivity|]; split; [exists []; split; [symmetry; apply app_nil_r | constructor] | lia] ]
        | .. ];
        (set (loc' := mkLocale (l_pk loc) (l_code loc) (s_bcp47 s) (s_name s) (s_script s)
                        (s_is_rtl s) enable (l_legacy_column loc)) in H;
         exists (write_locale loc' locs), c0, (S u0), k0, codes0; split; [exact H|];
         split; [rewrite write_locale_pks; exact Hn|]; split;
         [ exists loc'; split; [apply (ImportCmdFacts.find_write_locale _ loc); [exact Ef | reflexivity | exact Hlc]|];
           repeat split; simpl; [exact Hlc]
         | split; [intros code Hc; exact (find_write_other code (s_code s) loc loc' locs Hn Ef eq_refl Hlc Hc)|];
           split; [exists []; split;
                   [rewrite app_nil_r; exact (write_locale_pk_legacy loc' loc locs Hn Hin eq_refl eq_refl)
                   | constructor] | lia] ]).
      - set (loc := mkLocale (fresh_locale_pk locs) (s_code s) (s_bcp47 s) (s_name s) (s_script s)
                      (s_is_rtl s) enable None) in H.
        assert (Hnone : forall y, In y locs -> String.eqb (l_code y) (s_code s) = false).
        { intros y Hy. exact (find_none _ _ Ef y Hy). }
        exists (app locs [loc]), (S c0), u0, k0, (app codes0 [l_code loc]). split; [exact H|].
        split.
        { rewrite map_app. apply (Permutation_NoDup (Permutation_cons_append _ _)).
          constructor; [exact (fresh_locale_pk_fresh locs) | exact Hn]. }
        split; [exists loc; split; [apply find_app_none; [exact Hnone | apply String.eqb_refl]|];
                repeat split|].
        split.
        { intros code Hc. apply find_app_nomatch. simpl.
          destruct (String.eqb (s_code s) code) eqn:E; [apply String.eqb_eq in E; congruence | reflexivity]. }
        split; [exists [pk_legacy loc]; split; [apply map_app | constructor; [reflexivity | constructor]]|].
        rewrite length_app. cbn [length]. lia. }
    destruct Step as [locs1 [c1 [u1 [k1 [codes1 [Hloop [Hn1 [Hfound [Hother [Hleg Hcnt]]]]]]]]]].
    destruct (IH Hrest locs1 c1 u1 k1 codes1 c u k codes locs' Hn1 Hloop)
      as [Hn' [Hf' [Ho' [[new' [Hl' Hnew']] Hc']]]].
    split; [exact Hn'|]. split.
    { intros s' [<-|Hs']; [|exact (Hf' s' Hs')].
      rewrite (Ho' (s_code s) Hs). exact Hfound. }
    split.
    { intros code Hc. rewrite (Ho' code (fun h => Hc (or_intror h))).
      apply Hother. intros E. apply Hc. left. symmetry. exact E. }
    split.
    { destruct Hleg as [new [Hl Hnew]]. exists (app new new'). split.
      - rewrite Hl', Hl, app_assoc. reflexivity.
      - apply Forall_app. split; assumption. }
    cbn [length]. lia.
Qed.

Lemma seed_loop_all_found (enable : bool) (seeds : list LocaleSeed) (locs : list Locale) :
  (forall s, In s seeds -> exists l, find_locale_code (s_code s) locs = Some l /\ seed_matches enable s l) ->
  forall c u k codes, seed_loop enable seeds locs c u k codes = (c, u, k + length seeds, codes, locs).
Proof.
  induction seeds as [|s rest IH]; intros Hall c u k codes; cbn [seed_loop].
  - rewrite Nat.add_0_r. reflexivity.
  - destruct (Hall s (or_introl eq_refl)) as [l [Ef [_ [E1 [E2 [E3 [E4 E5]]]]]]].
    rewrite Ef, E1, E2, E3, E4, E5, String.eqb_refl, String.eqb_refl, Bool.eqb_reflx, Bool.eqb_reflx.
    replace (opt_str_eqb (s_script s) (s_script s)) with true by (symmetry; apply opt_str_eqb_eq; reflexivity).
    cbn [app]. rewrite IH; [replace (k + length (s :: rest)) with (S k + length rest) by (cbn [length]; lia); reflexivity|].
    intros s' Hs'. exact (Hall s' (or_intror Hs')).
Qed.

Lemma preset_seeds_nodup : NoDup (map s_code (presets_get PRESET_GLOBAL_PLUS_AFRICA_INDIA_CHINESE)).
Proof.
  assert (E : nodup string_dec (map s_code (presets_get PRESET_GLOBAL_PLUS_AFRICA_INDIA_CHINESE))
              = map s_code (presets_get PRESET_GLOBAL_PLUS_AFRICA_INDIA_CHINESE)) by (vm_compute; reflexivity).
  rewrite <- E. apply NoDup_nodup.
Qed.

Lemma handle_unfold (preset : string) (enable : bool) (locs : list Locale) r :
  handle preset enable false locs = inr r ->
  strip preset = PRESET_GLOBAL_PLUS_AFRICA_INDIA_CHINESE /\
  seed_loop enable (presets_get PRESET_GLOBAL_PLUS_AFRICA_INDIA_CHINESE) locs 0 0 0 [] = r.
Proof.
  unfold handle. destruct (String.eqb (strip preset) PRESET_GLOBAL_PLUS_AFRICA_INDIA_CHINESE) eqn:Ep;
    cbn [negb]; [|discriminate]. apply String.eqb_eq in Ep. rewrite Ep.
  destruct (presets_get PRESET_GLOBAL_PLUS_AFRICA_INDIA_CHINESE) as [|s0 ss] eqn:Es;
    [vm_compute in Es; discriminate Es|].
  rewrite <- Es. destruct (seed_loop _ _ _ _ _ _ _) as [[[[c u] k] codes] locs'].
  intros H. injection H as <-. split; reflexivity.
Qed.

(** A (non-dry) run of [seed_locales] with the supported preset leaves, for
    each of its 21 seeds, a Locale row with the seed's code, bcp47, name,
    script and is_rtl and with [enabled] as requested; other codes find the
    same row as before; no row is removed and no [legacy_column] or primary
    key changes, new rows having no [legacy_column]; every seed is counted
    once as created, updated or skipped, and the created codes are listed. *)
Theorem seed_handle_spec (preset : string) (enable : bool) (locs : list Locale)
  (c u k : nat) (codes : list string) (locs' : list Locale)
  (Hpk : NoDup (map l_pk locs))
  (H : handle preset enable false locs = inr (c, u, k, codes, locs')) :
  (forall s, In s (presets_get PRESET_GLOBAL_PLUS_AFRICA_INDIA_CHINESE) ->
     exists l, find_locale_code (s_code s) locs' = Some l /\ seed_matches enable s l) /\
  (forall code, ~ In code (map s_code (presets_get PRESET_GLOBAL_PLUS_AFRICA_INDIA_CHINESE)) ->
     find_locale_code code locs' = find_locale_code code locs) /\
  (exists new, map pk_legacy locs' = app (map pk_legacy locs) new /\ Forall (fun p => snd p = None) new) /\
  c + u + k = 21 /\ length codes = c.
Proof.
  apply handle_unfold in H as [_ H].
  destruct (seed_loop_spec enable _ preset_seeds_nodup locs 0 0 0 [] c u k codes locs' Hpk H)
    as [_ [Hf [Ho [Hl [Hc [_ Hcodes]]]]]].
  split; [exact Hf|]. split; [exact Ho|]. split; [exact Hl|].
  split; [rewrite Hc; reflexivity | cbn [length] in Hcodes; lia].
Qed.

(** [seed_locales] is idempotent: running it again with the same preset and
    [--enable] setting creates and updates nothing, skips all 21 seeds and
    leaves the table as it is. *)
Theorem seed_handle_idempotent (preset : string) (enable dry_run : bool) (locs : list Locale)
  (c u k : nat) (codes : list string) (locs' : list Locale)
  (Hpk : NoDup (map l_pk locs))
  (H : handle preset enable false locs = inr (c, u, k, codes, locs')) :
  handle preset enable dry_run locs' = inr (0, 0, 21, [], locs').
Proof.
  apply handle_unfold in H as [Hp H].
  destruct (seed_loop_spec enable _ preset_seeds_nodup locs 0 0 0 [] c u k codes locs' Hpk H)
    as [_ [Hf _]].
  unfold handle. rewrite Hp, String.eqb_refl. cbn [negb].
  destruct (presets_get PRESET_GLOBAL_PLUS_AFRICA_INDIA_CHINESE) as [|s0 ss] eqn:Es;
    [vm_compute in Es; discriminate Es|].
  rewrite (seed_loop_all_found enable _ locs' Hf), <- Es. destruct dry_run; reflexivity.
Qed.

End SeedFacts.

(* ------------------------------------------------------------------ *)
(** ** Instances of the properties above on concrete inputs *)

Module Instances.
Import AdminMore ImportCsv ImportCsvFacts ImportCmd ImportCmdFacts ImportHandleFacts Exporter
  ExporterFacts ExportAll ExportAllFacts Seed SeedFacts QAMoreFacts.

Definition demo_fr : Locale := mkLocale 1 "fr" "fr" "French" None false true (Some "fr").
Definition demo_yo : Locale := mkLocale 2 "yo" "yo" "Yoruba" (Some "Latn") false false None.
Definition demo_iso (u : Z) : string := "2026-01-01T00:00:00+00:00".
Definition demo_records : list (list string) :=
  [["location"; "id"; "en"; "est"; "fr"]; ["ui"; "hello"; "Hello"; ""; "Bonjour!"];
   ["ui"; "bye"; "Bye"; ""; "Au revoir"]].

Lemma truncate_spec_witness :
  (1 <= 3)%Z /\
  (((Z.of_nat (String.length "hello") <= 3)%Z -> _truncate (Some "hello") 3 = codepoints "hello")
   /\ ((3 < Z.of_nat (String.length "hello"))%Z ->
       _truncate (Some "hello") 3 = app (firstn (Z.to_nat (3 - 1)) (codepoints "hello")) truncate_suffix
       /\ List.length (_truncate (Some "hello") 3) = (Z.to_nat 3 + 2)%nat)).
Proof. split; [lia | apply (AdminMoreFacts.truncate_spec "hello" 3); lia]. Defined.

Lemma has_change_permission_matches_queryset_witness :
  is_superadmin demo_reviewer = false /\ In demo_tr_yo (db_translations demo_scoped_db) /\
  (has_change_permission true demo_scoped_db demo_reviewer (Some demo_tr_yo) = true <->
   In demo_tr_yo (get_queryset demo_scoped_db demo_reviewer)).
Proof.
  split; [reflexivity|]. split; [right; left; reflexivity|].
  apply (AdminMoreFacts.has_change_permission_matches_queryset true demo_scoped_db demo_reviewer demo_tr_yo);
    [reflexivity | right; left; reflexivity].
Defined.

Lemma get_readonly_fields_reviewer_witness :
  (forall f, In f reviewer_readonly <-> In f reviewer_readonly) /\
  is_superadmin demo_reviewer = false /\ is_reviewer demo_reviewer = true /\
  (let r := get_readonly_fields reviewer_readonly demo_reviewer in
   firstn 8 r = translation_readonly_fields
   /\ (forall f, In f r <-> In f translation_readonly_fields \/ In f reviewer_readonly)
   /\ NoDup r /\ List.length r = 14%nat).
Proof.
  split; [intros f; reflexivity|]. split; [reflexivity|]. split; [reflexivity|].
  apply (AdminMoreFacts.get_readonly_fields_reviewer reviewer_readonly demo_reviewer);
    [intros f; reflexivity | reflexivity | reflexivity].
Defined.

Lemma status_actions_touch_only_status_witness :
  find_translation demo_scoped_db 2 = Some demo_tr_yo /\
  (In (Some 2%positive) (map t_pk [demo_tr_fr]) ->
     find_translation (mark_in_review [demo_tr_fr] demo_scoped_db) 2 = Some (with_status demo_tr_yo IN_REVIEW)
     /\ find_translation (flag_selected [demo_tr_fr] demo_scoped_db) 2 = Some (with_status demo_tr_yo FLAGGED))
  /\ (~ In (Some 2%positive) (map t_pk [demo_tr_fr]) ->
     find_translation (mark_in_review [demo_tr_fr] demo_scoped_db) 2 = Some demo_tr_yo
     /\ find_translation (flag_selected [demo_tr_fr] demo_scoped_db) 2 = Some demo_tr_yo).
Proof.
  split; [reflexivity|].
  exact (AdminMoreFacts.status_actions_touch_only_status [demo_tr_fr] demo_scoped_db 2 demo_tr_yo eq_refl).
Defined.

Lemma extract_locale_code_spec_witness :
  count_char "(" "fr" = 0 /\ count_char ")" "fr" = 0 /\ "fr" <> EmptyString /\ count_char "(" "EST" = 0 /\
  _extract_locale_code ("French " ++ String "(" ("fr" ++ String ")" EmptyString)) = strip "fr" /\
  _extract_locale_code "EST" = strip "EST".
Proof.
  split; [reflexivity|]. split; [reflexivity|]. split; [discriminate|]. split; [reflexivity|].
  apply (ImportCsvFacts.extract_locale_code_spec "French " "fr" "EST"); [reflexivity | reflexivity | discriminate | reflexivity].
Defined.

Lemma upsert_locale_success_witness :
  exists loc counts' locs',
  _upsert_locale "fr" zero_counts [demo_yo] = inr (loc, counts', locs') /\
  code_normal (l_code loc) = true /\
  find_locale_code (l_code loc) locs' = Some loc /\
  (forall old, find_locale_code (l_code loc) [demo_yo] = Some old -> keeps_manual_edits old loc) /\
  (find_locale_code (l_code loc) [demo_yo] = None ->
   locs' = app [demo_yo] [loc] /\ l_enabled loc = true /\ l_legacy_column loc = Some (strip "fr")).
Proof.
  destruct (_upsert_locale "fr" zero_counts [demo_yo]) as [e|[[loc counts'] locs']] eqn:E;
    [vm_compute in E; discriminate E|].
  exists loc, counts', locs'. split; [reflexivity|].
  exact (ImportCmdFacts.upsert_locale_success "fr" zero_counts counts' [demo_yo] locs' loc E).
Defined.

Lemma upsert_locale_errors_witness :
  _upsert_locale "-" zero_counts [] = inl (err_invalid_locale_column "-") /\
  ((is_blank "-" = true /\ err_invalid_locale_column "-" = err_empty_locale_column) \/
   (is_blank "-" = false /\ _normalize_code (strip "-") = EmptyString /\
    err_invalid_locale_column "-" = err_invalid_locale_column "-")).
Proof.
  assert (E : _upsert_locale "-" zero_counts [] = inl (err_invalid_locale_column "-"))
    by (vm_compute; reflexivity).
  split; [exact E|].
  exact (ImportCmdFacts.upsert_locale_errors "-" zero_counts [] _ E).
Defined.

Lemma resolve_required_keys_spec_witness :
  _resolve_required_keys ["Location"; "id"; "English (en)"; "est"; "fr"] =
    inr ("Location", "id", "English (en)", "est") /\
  let fieldnames := ["Location"; "id"; "English (en)"; "est"; "fr"] in
  In "Location" fieldnames /\ lower_str (strip "Location") = "location" /\
  In "id" fieldnames /\ lower_str (strip "id") = "id" /\
  In "est" fieldnames /\ lower_str (strip "est") = "est" /\
  In "English (en)" fieldnames /\ "English (en)" <> EmptyString /\
  (lower_str (strip "English (en)") = "en" \/ lower_str (strip (_extract_locale_code "English (en)")) = "en").
Proof.
  assert (E : _resolve_required_keys ["Location"; "id"; "English (en)"; "est"; "fr"] =
                inr ("Location", "id", "English (en)", "est")) by (vm_compute; reflexivity).
  split; [exact E|].
  exact (ImportCmdFacts.resolve_required_keys_spec _ _ _ _ _ E).
Defined.

Lemma resolve_required_keys_missing_witness :
  In "id" ["location"; "id"; "est"] /\
  (forall name, In name ["Location"; "est"; "English (en)"] -> lower_str (strip name) <> "id") /\
  _resolve_required_keys ["Location"; "est"; "English (en)"] = inl err_missing_required.
Proof.
  assert (Hk : In "id" ["location"; "id"; "est"]) by (right; left; reflexivity).
  assert (Hn : forall name, In name ["Location"; "est"; "English (en)"] -> lower_str (strip name) <> "id")
    by (intros name [<-|[<-|[<-|[]]]]; vm_compute; discriminate).
  split; [exact Hk|]. split; [exact Hn|].
  exact (ImportCmdFacts.resolve_required_keys_missing _ "id" Hk Hn).
Defined.

Lemma import_keeps_reviewer_work_witness :
  exists c db' locs',
  ImportCmd.handle 5 (Some demo_records) false None demo_scoped_db [demo_fr] = inr (c, db', locs') /\
  forall p t, find_translation demo_scoped_db p = Some t ->
  exists t', find_translation db' p = Some t' /\
    t_reviewer_text t' = t_reviewer_text t /\ t_machine_draft t' = t_machine_draft t /\
    t_updated_at t' = t_updated_at t /\ t_string_unit t' = t_string_unit t /\ t_locale t' = t_locale t.
Proof.
  destruct (ImportCmd.handle 5 (Some demo_records) false None demo_scoped_db [demo_fr])
    as [e|[[c db'] locs']] eqn:E; [vm_compute in E; discriminate E|].
  exists c, db', locs'. split; [reflexivity|].
  exact (ImportHandleFacts.import_keeps_reviewer_work 5 _ false None _ _ _ _ _ E).
Defined.

Definition demo_header : list string := ["location"; "id"; "en"; "est"; "fr"].
Definition demo_rows : list (list string) :=
  [["ui"; "hello"; "Hello"; ""; "Bonjour!"]; []; [""; "x"; "X"; ""; ""];
   ["ui"; "bye"; "Bye"; ""; "Au revoir"]].

Lemma import_row_counts_witness :
  exists c db' locs' lk ik ek sk,
  ImportCmd.handle 5 (Some (demo_header :: demo_rows)) true (Some 1%Z) demo_scoped_db [demo_fr]
    = inr (c, db', locs') /\
  _resolve_required_keys (map strip demo_header) = inr (lk, ik, ek, sk) /\
  let read := filter nonempty_record demo_rows in
  let skipped := filter (skip_row demo_header (mkKeys lk ik ek sk)) read in
  let all_counted := rows_total c = length read /\ rows_skipped c = length skipped /\
                     rows_total c = rows_skipped c + rows_processed c in
  rows_total c <= length read /\
  (Some 1%Z = None -> all_counted) /\
  (forall n, Some 1%Z = Some n ->
     (Z.of_nat (rows_processed c) <= n)%Z /\
     (all_counted \/
      (Z.of_nat (rows_processed c) = n /\ rows_total c = rows_skipped c + rows_processed c + 1))).
Proof.
  destruct (ImportCmd.handle 5 (Some (demo_header :: demo_rows)) true (Some 1%Z) demo_scoped_db [demo_fr])
    as [e|[[c db'] locs']] eqn:E; [vm_compute in E; discriminate E|].
  destruct (ImportHandleFacts.import_row_counts 5 demo_header demo_rows true (Some 1%Z) _ _ _ _ _ E)
    as [lk [ik [ek [sk [Hk Hc]]]]].
  exists c, db', locs', lk, ik, ek, sk. split; [reflexivity|]. split; [exact Hk | exact Hc].
Defined.

Definition demo_export_db : DB :=
  mkDB (app (db_units demo_scoped_db) [mkStringUnit (Some 2%positive) "ui" "bye" "Bye" "" ""])
       [demo_tr_fr] [].

Lemma export_locale_csv_spec_witness :
  exists stats rows,
  Permutation (db_units demo_export_db) (db_units demo_export_db) /\
  export_locale_csv [demo_fr; demo_yo] true demo_iso (db_units demo_export_db) demo_export_db "fr"
    false "TODO" true = inr (stats, rows) /\
  total_string_units stats = approved_count stats + missing_count stats /\
  total_string_units stats = length (db_units demo_export_db) /\
  output_name stats = "voyant_" ++ "fr" ++ ".csv" /\
  hd [] rows = export_header false /\
  length rows = S (if true then missing_count stats else total_string_units stats) /\
  (true = false -> map (firstn 3) (tl rows) =
     map (fun su => [su_location su; su_message_id su; su_source_text su]) (db_units demo_export_db)) /\
  (forall r, In r (tl rows) ->
     row_ok [demo_fr; demo_yo] demo_export_db "fr" false "TODO" true (db_units demo_export_db) r) /\
  (exists loc, find_locale_code "fr" [demo_fr; demo_yo] = Some loc /\
     let missing := filter (missing_by (translations_by_string_unit_id demo_export_db (l_pk loc)))
                      (db_units demo_export_db) in
     missing_count stats = length missing /\
     (true = true -> map (firstn 3) (tl rows) =
                     map (fun su => [su_location su; su_message_id su; su_source_text su]) missing)).
Proof.
  destruct (export_locale_csv [demo_fr; demo_yo] true demo_iso (db_units demo_export_db) demo_export_db
              "fr" false "TODO" true) as [e|[stats rows]] eqn:E; [vm_compute in E; discriminate E|].
  exists stats, rows. split; [reflexivity|]. split; [reflexivity|].
  exact (ExporterFacts.export_locale_csv_spec _ _ _ _ _ _ _ _ _ stats rows (Permutation_refl _) E).
Defined.

Lemma extract_placeholders_occur_witness :
  In "%s" (QA.extract_placeholders (Some "Hi %s!")) /\
  (exists pre suf, or_empty (Some "Hi %s!") = pre ++ "%s" ++ suf) /\ placeholder_shape "%s".
Proof.
  assert (H : In "%s" (QA.extract_placeholders (Some "Hi %s!"))) by (vm_compute; tauto).
  split; [exact H|]. exact (QAMoreFacts.extract_placeholders_occur (Some "Hi %s!") "%s" H).
Defined.

Lemma parse_locales_arg_codes_witness :
  In "yo" (_parse_locales_arg (Some " fr, , yo ")) /\
  "yo" <> EmptyString /\ strip "yo" = "yo" /\ count_char "," "yo" = 0.
Proof.
  assert (H : In "yo" (_parse_locales_arg (Some " fr, , yo "))) by (vm_compute; tauto).
  split; [exact H|]. exact (ExportAllFacts.parse_locales_arg_codes _ _ H).
Defined.

Lemma parse_locales_arg_join_witness :
  Forall (fun c => c <> EmptyString /\ strip c = c /\ count_char "," c = 0) ["fr"; "yo"; "zh-hans"] /\
  _parse_locales_arg (Some (String.concat "," ["fr"; "yo"; "zh-hans"])) = ["fr"; "yo"; "zh-hans"].
Proof.
  assert (H : Forall (fun c => c <> EmptyString /\ strip c = c /\ count_char "," c = 0) ["fr"; "yo"; "zh-hans"]).
  { repeat (constructor; [split; [discriminate | split; reflexivity]|]). constructor. }
  split; [exact H|]. exact (ExportAllFacts.parse_locales_arg_join _ H).
Defined.

Lemma export_all_handle_spec_witness :
  exists fs summary err,
  ExportAll.handle true demo_iso (db_units demo_scoped_db) demo_scoped_db [demo_yo; demo_fr] false ""
    true (Some "yo,xx") = (fs, summary, err) /\
  let requested := _parse_locales_arg (Some "yo,xx") in
  let selected := if truthy (Some "yo,xx")
                  then filter (fun l => existsb (String.eqb (l_code l)) requested) [demo_yo; demo_fr]
                  else filter l_enabled [demo_yo; demo_fr] in
  let missing := if truthy (Some "yo,xx")
                 then filter (fun c => negb (existsb (fun l => String.eqb (l_code l) c) [demo_yo; demo_fr]))
                        requested
                 else [] in
  Forall2 (exported_file [demo_yo; demo_fr] demo_iso (db_units demo_scoped_db) demo_scoped_db false "" true)
    (sort_by_code selected) fs /\
  (summary = None <-> selected = []) /\
  err = (match selected, missing with
         | [], _ => None
         | _, [] => None
         | _, _ => Some (all_err_missing_requested missing)
         end).
Proof.
  destruct (ExportAll.handle true demo_iso (db_units demo_scoped_db) demo_scoped_db [demo_yo; demo_fr]
              false "" true (Some "yo,xx")) as [[fs summary] err] eqn:E.
  exists fs, summary, err. split; [reflexivity|].
  exact (ExportAllFacts.export_all_handle_spec _ _ _ _ _ _ _ _ fs summary err E).
Defined.

Lemma seed_handle_spec_witness :
  exists c u k codes locs',
  NoDup (map l_pk [demo_fr; demo_yo]) /\
  Seed.handle " global_plus_africa_india_chinese" true false [demo_fr; demo_yo] = inr (c, u, k, codes, locs') /\
  (forall s, In s (presets_get PRESET_GLOBAL_PLUS_AFRICA_INDIA_CHINESE) ->
     exists l, find_locale_code (s_code s) locs' = Some l /\ seed_matches true s l) /\
  (forall code, ~ In code (map s_code (presets_get PRESET_GLOBAL_PLUS_AFRICA_INDIA_CHINESE)) ->
     find_locale_code code locs' = find_locale_code code [demo_fr; demo_yo]) /\
  (exists new, map pk_legacy locs' = app (map pk_legacy [demo_fr; demo_yo]) new /\
               Forall (fun p => snd p = None) new) /\
  c + u + k = 21 /\ length codes = c.
Proof.
  assert (Hpk : NoDup (map l_pk [demo_fr; demo_yo])).
  { constructor; [intros [H|[]]; discriminate H | constructor; [intros [] | constructor]]. }
  destruct (Seed.handle " global_plus_africa_india_chinese" true false [demo_fr; demo_yo])
    as [e|[[[[c u] k] codes] locs']] eqn:E; [vm_compute in E; discriminate E|].
  exists c, u, k, codes, locs'. split; [exact Hpk|]. split; [reflexivity|].
  exact (SeedFacts.seed_handle_spec _ _ _ c u k codes locs' Hpk E).
Defined.

Lemma seed_handle_idempotent_witness :
  exists c u k codes locs',
  NoDup (map l_pk [demo_fr; demo_yo]) /\
  Seed.handle "global_plus_africa_india_chinese" false false [demo_fr; demo_yo] = inr (c, u, k, codes, locs') /\
  Seed.handle "global_plus_africa_india_chinese" false false locs' = inr (0, 0, 21, [], locs').
Proof.
  assert (Hpk : NoDup (map l_pk [demo_fr; demo_yo])).
  { constructor; [intros [H|[]]; discriminate H | constructor; [intros [] | constructor]]. }
  destruct (Seed.handle "global_plus_africa_india_chinese" false false [demo_fr; demo_yo])
    as [e|[[[[c u] k] codes] locs']] eqn:E; [vm_compute in E; discriminate E|].
  exists c, u, k, codes, locs'. split; [exact Hpk|]. split; [reflexivity|].
  exact (SeedFacts.seed_handle_idempotent _ false false _ c u k codes locs' Hpk E).
Defined.

End Instances.
